(** * Checkout orchestration of the merch store: quote, checkout, sweeper

    A shallow embedding of
      - [getQuote] and [createCheckout]   (CheckoutServiceLive),
      - the order store                    (OrderStoreLive),
      - [createMarketplaceRuntime]         (provider registry),
      - [cleanupAbandonedDrafts]           (abandoned-draft sweeper),
    followed by the properties proved about them.

    Conventions of the embedding.
      - A JavaScript [number] is an exact rational ([Q]); [Math.round] is
        [Qfloor (x + 1/2)].  The code computes with doubles, whose
        products and sums carry a rounding error: [Math.round] of the
        double can be a cent away from [Math_round] of the exact value
        when that value is within the error of a half cent (1.005 * 100).
        On amounts that are whole numbers of cents the two agree, and the
        properties that give the value of a rounded amount are stated
        for such amounts.  Item quantities and database integer columns
        are [Z].
      - A date is its time in milliseconds.  The columns [created_at] and
        [updated_at] are of mode ['timestamp']: they hold whole seconds,
        so a date read back is the date written cut to the second.
      - What the database driver throws when an insert is rejected is
        part of the world; the embedding does not say what it is.
      - An [Effect] is a function from the world to a result and a new
        world.  The world is kept when the effect fails, so whatever was
        written before a failure stays written.
      - A fulfilment or payment gateway is a function from the request to
        its answer; a rejected promise is [Err] with the error's message.
      - A JS [Map] and a [Record<string, string>] that is iterated are
        association lists in insertion order; database tables keyed by a
        primary key are [gmap]s.
      - The world carries a trace: every gateway call and every write
        asked of the order store appends an event to it.  The code keeps
        no such record; the trace is there to state which calls an
        operation made. *)

From Stdlib Require Import QArith Qround.
From stdpp Require Import gmap strings list sorting pretty.

Local Open Scope string_scope.
Local Open Scope list_scope.

(** ** Numbers *)

(** [a < b] on numbers, as a boolean. *)
Definition Qltb (a b : Q) : bool :=
  match (a ?= b)%Q with Lt => true | _ => false end.

(** [Math.round]: the nearest integer, halves going up.  Taken of the
    exact value; see the conventions for where the code's doubles can
    differ. *)
Definition Math_round (x : Q) : Z := Qfloor (x + (1 # 2))%Q.

(** A date written to a column of mode ['timestamp'] and read back:
    the column holds [Math.floor(t / 1000)] and gives the date of that
    second. *)
Definition toTimestamp (t : Z) : Z := (t / 1000 * 1000)%Z.

(** A JS string is truthy when it is not empty. *)
Definition truthy (s : string) : bool := negb (String.eqb s EmptyString).

(** [s || undefined] on an optional string. *)
Definition or_undefined (s : option string) : option string :=
  match s with
  | Some v => if truthy v then Some v else None
  | None => None
  end.

(** ** Results and effects *)

Inductive Result (A : Type) : Type :=
| Ok (a : A)
| Err (msg : string).
Arguments Ok {A} a.
Arguments Err {A} msg.

Definition is_ok {A} (r : Result A) : bool :=
  match r with Ok _ => true | Err _ => false end.

(** ** Catalog data (schema.ts) *)

Record DesignFile := {
  df_placement : string;
  df_url : string;
}.

(** [providerData] is an open record; the two keys the orchestrator reads
    are kept. *)
Record FulfillmentConfig := {
  fc_externalVariantId : option string;
  fc_externalProductId : option string;
  fc_designFiles : option (list DesignFile);
  fc_catalogProductId : option Z;
  fc_catalogVariantId : option Z;
}.

Record ProductVariant := {
  v_id : string;
  v_price : Q;
  v_currency : string;
  v_fulfillmentConfig : option FulfillmentConfig;
}.

Record Product := {
  p_id : string;
  p_title : string;
  p_description : option string;
  p_price : Q;
  p_currency : string;
  p_images : list string;            (* the images' urls *)
  p_variants : list ProductVariant;
  p_fulfillmentProvider : string;
}.

Record QuoteItemInput := {
  productId : string;
  variantId : option string;
  quantity : Z;
}.

Record ShippingAddress := {
  companyName : option string;
  firstName : string;
  lastName : string;
  addressLine1 : string;
  addressLine2 : option string;
  city : string;
  state : string;
  postCode : string;
  country : string;
  email : string;
  phone : option string;
}.

(** ** Quote data (schema.ts) *)

Record ProviderShippingOption := {
  so_provider : string;
  so_rateId : string;
  so_rateName : string;
  so_shippingCost : Q;
  so_currency : string;
  so_minDeliveryDays : option Q;
  so_maxDeliveryDays : option Q;
}.

Record ProviderBreakdown := {
  pb_provider : string;
  pb_itemCount : nat;
  pb_subtotal : Q;
  pb_selectedShipping : ProviderShippingOption;
  pb_availableRates : list ProviderShippingOption;
}.

Record EstimatedDelivery := {
  minDays : Q;
  maxDays : Q;
}.

Record QuoteOutput := {
  q_subtotal : Q;
  q_shippingCost : Q;
  q_total : Q;
  q_currency : string;
  q_providerBreakdown : list ProviderBreakdown;
  q_estimatedDelivery : option EstimatedDelivery;
}.

(** ** Fulfilment gateway data (the fulfillment contract's schema) *)

Record FulfillmentFile := {
  ff_url : string;
  ff_type : string;
  ff_placement : string;
}.

Record FulfillmentOrderItem := {
  foi_externalVariantId : option string;
  foi_productId : option Z;
  foi_variantId : option Z;
  foi_quantity : Z;
  foi_files : option (list FulfillmentFile);
}.

Record FulfillmentAddress := {
  fa_name : string;
  fa_company : option string;
  fa_address1 : string;
  fa_address2 : option string;
  fa_city : string;
  fa_stateCode : string;
  fa_countryCode : string;
  fa_zip : string;
  fa_phone : option string;
  fa_email : string;
}.

Record ShippingRate := {
  r_id : string;
  r_name : string;
  r_rate : Q;
  r_currency : string;
  r_minDeliveryDays : option Q;
  r_maxDeliveryDays : option Q;
}.

Record ShippingQuoteInput := {
  sqi_recipient : FulfillmentAddress;
  sqi_items : list FulfillmentOrderItem;
  sqi_currency : string;
}.

(** [rates] is optional here because the orchestrator reads it as
    [quoteResult.rates || []]. *)
Record ShippingQuoteOutput := {
  sqo_rates : option (list ShippingRate);
}.

Record FulfillmentOrderInput := {
  foin_externalId : string;
  foin_recipient : FulfillmentAddress;
  foin_items : list FulfillmentOrderItem;
  foin_retailCurrency : string;
}.

Record FulfillmentOrder := {
  fo_id : string;
}.

(** ** Payment gateway data (payment/schema.ts) *)

Record PaymentLineItem := {
  li_name : string;
  li_description : option string;
  li_image : option string;
  li_unitAmount : Z;
  li_quantity : Z;
}.

(** [metadata.draftOrderIds] is [JSON.stringify] of the record in the
    source; the record itself is kept here. *)
Record CheckoutSessionInput := {
  cs_orderId : string;
  cs_amount : Z;
  cs_currency : string;
  cs_items : list PaymentLineItem;
  cs_successUrl : string;
  cs_cancelUrl : string;
  cs_metadata_draftOrderIds : list (string * string);
}.

Record CheckoutSessionOutput := {
  cso_sessionId : string;
  cso_url : string;
}.

(** ** Orders (schema.ts and the tables [orders], [order_items]) *)

Inductive OrderStatus :=
| pending | draft_created | paid | paid_pending_fulfillment | processing
| shipped | delivered | cancelled | partially_cancelled | refunded.

Record CreateOrderItemInput := {
  coi_productId : string;
  coi_variantId : option string;
  coi_productName : string;
  coi_quantity : Z;
  coi_unitPrice : Q;
  coi_fulfillmentProvider : option string;
  coi_fulfillmentConfig : option FulfillmentConfig;
}.

Record CreateOrderInput := {
  co_userId : string;
  co_items : list CreateOrderItemInput;
  co_totalAmount : Q;
  co_currency : string;
  co_shippingMethod : option string;
}.

(** A row of table [orders] without its primary key [id], which is the
    key of the table; amounts are integer cents, dates are milliseconds.
    The columns no operation below writes (shippingAddress,
    fulfillmentOrderId, trackingInfo, deliveryEstimate) are left out. *)
Record OrderRow := {
  row_userId : string;
  row_status : OrderStatus;
  row_totalAmount : Z;
  row_currency : string;
  row_checkoutSessionId : option string;
  row_checkoutProvider : option string;
  row_draftOrderIds : option (list (string * string));
  row_shippingMethod : option string;
  row_fulfillmentReferenceId : option string;
  row_createdAt : Z;
  row_updatedAt : Z;
}.

(** A row of table [order_items]. *)
Record OrderItemRow := {
  ir_id : string;
  ir_orderId : string;
  ir_productId : string;
  ir_variantId : option string;
  ir_productName : string;
  ir_quantity : Z;
  ir_unitPrice : Z;
  ir_fulfillmentProvider : option string;
  ir_fulfillmentConfig : option FulfillmentConfig;
  ir_createdAt : Z;
}.

Record OrderItem := {
  oi_id : string;
  oi_orderId : string;
  oi_productId : string;
  oi_variantId : option string;
  oi_productName : string;
  oi_quantity : Z;
  oi_unitPrice : Q;
  oi_fulfillmentProvider : option string;
  oi_fulfillmentConfig : option FulfillmentConfig;
}.

Record OrderWithItems := {
  o_id : string;
  o_userId : string;
  o_status : OrderStatus;
  o_totalAmount : Q;
  o_currency : string;
  o_checkoutSessionId : option string;
  o_checkoutProvider : option string;
  o_draftOrderIds : option (list (string * string));
  o_shippingMethod : option string;
  o_fulfillmentReferenceId : option string;
  o_createdAt : Z;
  o_updatedAt : Z;
  o_items : list OrderItem;
}.

(** ** The world: database, clock, id source, and the trace of calls *)

Inductive Event :=
| EvQuoteOrder (provider : string) (input : ShippingQuoteInput)
| EvCreateOrder (provider : string) (input : FulfillmentOrderInput)
| EvCancelOrder (provider : string) (id : string)
| EvPaymentCheckout (input : CheckoutSessionInput)
| EvStoreCreate (input : CreateOrderInput)
| EvStoreUpdateCheckout (orderId sessionId provider : string)
| EvStoreUpdateDraftOrderIds (orderId : string) (ids : list (string * string))
| EvStoreUpdateStatus (orderId : string) (status : OrderStatus).

Record World := {
  w_products : gmap string Product;     (* table products, joined *)
  w_orders : gmap string OrderRow;      (* table orders, by primary key *)
  w_orderItems : list OrderItemRow;     (* table order_items *)
  w_clock : Z;                          (* Date.now() *)
  w_uuid : nat -> string;               (* what crypto.randomUUID returns *)
  w_uuidNext : nat;
  w_insertError : string -> OrderRow -> string;
                                        (* String(error) of what the driver
                                           throws when the insert of the
                                           row under a taken id is rejected *)
  w_trace : list Event;                 (* oldest first *)
}.

Definition M (A : Type) : Type := World -> Result A * World.

Definition ret {A} (a : A) : M A := fun w => (Ok a, w).
Definition fail {A} (msg : string) : M A := fun w => (Err msg, w).
Definition bind {A B} (m : M A) (k : A -> M B) : M B :=
  fun w =>
    match m w with
    | (Ok a, w') => k a w'
    | (Err e, w') => (Err e, w')
    end.

Notation "x <- m ;; k" := (bind m (fun x => k))
  (at level 100, m at next level, right associativity).
Notation "m ;;; k" := (bind m (fun _ => k))
  (at level 100, right associativity).

Definition emit (e : Event) : M unit :=
  fun w =>
    (Ok tt,
     {| w_products := w_products w; w_orders := w_orders w;
        w_orderItems := w_orderItems w; w_clock := w_clock w;
        w_uuid := w_uuid w; w_uuidNext := w_uuidNext w;
        w_insertError := w_insertError w;
        w_trace := w_trace w ++ [e] |}).

Definition now : M Z := fun w => (Ok (w_clock w), w).

Definition randomUUID : M string :=
  fun w =>
    (Ok (w_uuid w (w_uuidNext w)),
     {| w_products := w_products w; w_orders := w_orders w;
        w_orderItems := w_orderItems w; w_clock := w_clock w;
        w_uuid := w_uuid w; w_uuidNext := S (w_uuidNext w);
        w_insertError := w_insertError w;
        w_trace := w_trace w |}).

Definition set_orders (f : gmap string OrderRow -> gmap string OrderRow) : M unit :=
  fun w =>
    (Ok tt,
     {| w_products := w_products w; w_orders := f (w_orders w);
        w_orderItems := w_orderItems w; w_clock := w_clock w;
        w_uuid := w_uuid w; w_uuidNext := w_uuidNext w;
        w_insertError := w_insertError w;
        w_trace := w_trace w |}).

Definition add_orderItems (rows : list OrderItemRow) : M unit :=
  fun w =>
    (Ok tt,
     {| w_products := w_products w; w_orders := w_orders w;
        w_orderItems := w_orderItems w ++ rows; w_clock := w_clock w;
        w_uuid := w_uuid w; w_uuidNext := w_uuidNext w;
        w_insertError := w_insertError w;
        w_trace := w_trace w |}).

(** ** Product store: [find] *)

Definition productStore_find (id : string) : M (option Product) :=
  fun w => (Ok (w_products w !! id), w).

(** ** Order store (store/orders.ts) *)

Definition cents_to_number (c : Z) : Q := (inject_Z c / 100)%Q.

Definition rowToItem (item : OrderItemRow) : OrderItem :=
  {| oi_id := ir_id item;
     oi_orderId := ir_orderId item;
     oi_productId := ir_productId item;
     oi_variantId := or_undefined (ir_variantId item);
     oi_productName := ir_productName item;
     oi_quantity := ir_quantity item;
     oi_unitPrice := cents_to_number (ir_unitPrice item);
     oi_fulfillmentProvider := or_undefined (ir_fulfillmentProvider item);
     oi_fulfillmentConfig := ir_fulfillmentConfig item |}.

Definition getOrderItems (orderId : string) : M (list OrderItem) :=
  fun w =>
    (Ok (map rowToItem
           (List.filter (fun r => String.eqb (ir_orderId r) orderId)
                        (w_orderItems w))),
     w).

Definition rowToOrder (id : string) (row : OrderRow) : M OrderWithItems :=
  items <- getOrderItems id ;;
  ret {| o_id := id;
         o_userId := row_userId row;
         o_status := row_status row;
         o_totalAmount := cents_to_number (row_totalAmount row);
         o_currency := row_currency row;
         o_checkoutSessionId := or_undefined (row_checkoutSessionId row);
         o_checkoutProvider :=
           match row_checkoutProvider row with
           | Some p =>
               if String.eqb p "stripe" || String.eqb p "near"
               then Some p else None
           | None => None
           end;
         o_draftOrderIds := row_draftOrderIds row;
         o_shippingMethod := or_undefined (row_shippingMethod row);
         o_fulfillmentReferenceId := or_undefined (row_fulfillmentReferenceId row);
         o_createdAt := row_createdAt row;
         o_updatedAt := row_updatedAt row;
         o_items := items |}.

Definition findOrderById (id : string) : M (option OrderWithItems) :=
  fun w =>
    match w_orders w !! id with
    | None => (Ok None, w)
    | Some row =>
        match rowToOrder id row w with
        | (Ok o, w') => (Ok (Some o), w')
        | (Err e, w') => (Err e, w')
        end
    end.

(** The row [create] inserts at time [t]; [created_at] and [updated_at]
    keep its second. *)
Definition newOrderRow (input : CreateOrderInput) (t : Z) : OrderRow :=
  {| row_userId := co_userId input;
     row_status := pending;
     row_totalAmount := Math_round (co_totalAmount input * 100)%Q;
     row_currency := co_currency input;
     row_checkoutSessionId := None;
     row_checkoutProvider := None;
     row_draftOrderIds := None;
     row_shippingMethod := or_undefined (co_shippingMethod input);
     row_fulfillmentReferenceId :=
       Some ("order_" +:+ pretty t +:+ "_" +:+ co_userId input);
     row_createdAt := toTimestamp t;
     row_updatedAt := toTimestamp t |}.

Definition newItemRow (orderId : string) (t : Z) (index : nat) (item : CreateOrderItemInput)
  : OrderItemRow :=
  {| ir_id := orderId +:+ "-item-" +:+ pretty index;
     ir_orderId := orderId;
     ir_productId := coi_productId item;
     ir_variantId := or_undefined (coi_variantId item);
     ir_productName := coi_productName item;
     ir_quantity := coi_quantity item;
     ir_unitPrice := Math_round (coi_unitPrice item * 100)%Q;
     ir_fulfillmentProvider := or_undefined (coi_fulfillmentProvider item);
     ir_fulfillmentConfig := coi_fulfillmentConfig item;
     ir_createdAt := toTimestamp t |}.

(** [db.insert(orders).values(row)]: rejected when the id is taken, with
    whatever the driver throws, which [create] reports as
    ['Failed to create order: ' + String(error)]. *)
Definition insertOrder (id : string) (row : OrderRow) : M unit :=
  fun w =>
    match w_orders w !! id with
    | Some _ => (Err ("Failed to create order: " +:+ w_insertError w id row), w)
    | None => set_orders (fun m => <[id := row]> m) w
    end.

Definition orderStore_create (input : CreateOrderInput) : M OrderWithItems :=
  emit (EvStoreCreate input) ;;;
  t <- now ;;
  orderId <- randomUUID ;;
  insertOrder orderId (newOrderRow input t) ;;;
  (if (0 <? length (co_items input))%nat
   then add_orderItems (imap (newItemRow orderId t) (co_items input))
   else ret tt) ;;;
  order <- findOrderById orderId ;;
  match order with
  | None => fail "Failed to create order: Error: Failed to create order"
  | Some order => ret order
  end.

(** [.set({ checkoutSessionId, checkoutProvider, updatedAt: new Date() })] *)
Definition withCheckout (sessionId provider : string) (t : Z) (r : OrderRow) : OrderRow :=
  {| row_userId := row_userId r; row_status := row_status r;
     row_totalAmount := row_totalAmount r; row_currency := row_currency r;
     row_checkoutSessionId := Some sessionId;
     row_checkoutProvider := Some provider;
     row_draftOrderIds := row_draftOrderIds r;
     row_shippingMethod := row_shippingMethod r;
     row_fulfillmentReferenceId := row_fulfillmentReferenceId r;
     row_createdAt := row_createdAt r; row_updatedAt := toTimestamp t |}.

(** [.set({ draftOrderIds, updatedAt: new Date() })] *)
Definition withDraftOrderIds (ids : list (string * string)) (t : Z) (r : OrderRow) : OrderRow :=
  {| row_userId := row_userId r; row_status := row_status r;
     row_totalAmount := row_totalAmount r; row_currency := row_currency r;
     row_checkoutSessionId := row_checkoutSessionId r;
     row_checkoutProvider := row_checkoutProvider r;
     row_draftOrderIds := Some ids;
     row_shippingMethod := row_shippingMethod r;
     row_fulfillmentReferenceId := row_fulfillmentReferenceId r;
     row_createdAt := row_createdAt r; row_updatedAt := toTimestamp t |}.

(** [.set({ status, updatedAt: new Date() })] *)
Definition withStatus (status : OrderStatus) (t : Z) (r : OrderRow) : OrderRow :=
  {| row_userId := row_userId r; row_status := status;
     row_totalAmount := row_totalAmount r; row_currency := row_currency r;
     row_checkoutSessionId := row_checkoutSessionId r;
     row_checkoutProvider := row_checkoutProvider r;
     row_draftOrderIds := row_draftOrderIds r;
     row_shippingMethod := row_shippingMethod r;
     row_fulfillmentReferenceId := row_fulfillmentReferenceId r;
     row_createdAt := row_createdAt r; row_updatedAt := toTimestamp t |}.

(** [db.update(orders).set(..).where(id = orderId)], then the re-read
    every update method of the store ends with. *)
Definition updateWhereId (what : string) (orderId : string) (f : Z -> OrderRow -> OrderRow)
  : M OrderWithItems :=
  t <- now ;;
  set_orders (alter (f t) orderId) ;;;
  order <- findOrderById orderId ;;
  match order with
  | None => fail ("Failed to update " +:+ what +:+ ": Error: Order not found")
  | Some order => ret order
  end.

Definition orderStore_updateCheckout (orderId sessionId provider : string) : M OrderWithItems :=
  emit (EvStoreUpdateCheckout orderId sessionId provider) ;;;
  updateWhereId "order checkout" orderId (withCheckout sessionId provider).

Definition orderStore_updateDraftOrderIds (orderId : string) (ids : list (string * string))
  : M OrderWithItems :=
  emit (EvStoreUpdateDraftOrderIds orderId ids) ;;;
  updateWhereId "draft order IDs" orderId (withDraftOrderIds ids).

Definition orderStore_updateStatus (orderId : string) (status : OrderStatus) : M OrderWithItems :=
  emit (EvStoreUpdateStatus orderId status) ;;;
  updateWhereId "order status" orderId (withStatus status).

(** [orderBy(desc(createdAt))]. *)
Definition newer_first (a b : string * OrderRow) : Prop :=
  (row_createdAt (snd b) <= row_createdAt (snd a))%Z.

#[local] Instance newer_first_dec a b : Decision (newer_first a b).
Proof. unfold newer_first. apply _. Defined.

Definition is_draft_created (s : OrderStatus) : bool :=
  match s with draft_created => true | _ => false end.

Fixpoint mapM {A B} (f : A -> M B) (l : list A) : M (list B) :=
  match l with
  | [] => ret []
  | a :: rest => b <- f a ;; bs <- mapM f rest ;; ret (b :: bs)
  end.

Definition orderStore_findAbandonedDrafts (olderThanHours : Z) : M (list OrderWithItems) :=
  t <- now ;;
  let cutoffTime := (t - olderThanHours * 60 * 60 * 1000)%Z in
  fun w =>
    let results :=
      merge_sort newer_first
        (List.filter (fun r => is_draft_created (row_status (snd r)))
                     (map_to_list (w_orders w))) in
    let abandoned :=
      List.filter (fun r => (row_createdAt (snd r) <? cutoffTime)%Z) results in
    mapM (fun r => rowToOrder (fst r) (snd r)) abandoned w.

(** ** Provider registry ([createMarketplaceRuntime]) *)

Record FulfillmentClient := {
  quoteOrder : ShippingQuoteInput -> Result ShippingQuoteOutput;
  createOrder : FulfillmentOrderInput -> Result FulfillmentOrder;
  cancelOrder : string -> Result unit;
}.

Record PaymentClient := {
  pay_createCheckout : CheckoutSessionInput -> Result CheckoutSessionOutput;
}.

Record FulfillmentProvider := {
  fp_name : string;
  fp_client : FulfillmentClient;
}.

Record PaymentProvider := {
  pp_name : string;
  pp_client : PaymentClient;
}.

Record MarketplaceRuntime := {
  providers : list FulfillmentProvider;
  paymentProviders : list PaymentProvider;
}.

Definition getProvider (rt : MarketplaceRuntime) (name : string) : option FulfillmentProvider :=
  List.find (fun p => String.eqb (fp_name p) name) (providers rt).

Definition getPaymentProvider (rt : MarketplaceRuntime) (name : string) : option PaymentProvider :=
  List.find (fun p => String.eqb (pp_name p) name) (paymentProviders rt).

(** Each argument is the client of a plugin that was configured and
    initialised, [None] when it was not configured or failed to start. *)
Definition createMarketplaceRuntime
    (printful gelato : option FulfillmentClient) (stripe : option PaymentClient)
  : MarketplaceRuntime :=
  {| providers :=
       match printful with
       | Some c => [ {| fp_name := "printful"; fp_client := c |} ]
       | None => []
       end ++
       match gelato with
       | Some c => [ {| fp_name := "gelato"; fp_client := c |} ]
       | None => []
       end;
     paymentProviders :=
       match stripe with
       | Some c => [ {| pp_name := "stripe"; pp_client := c |} ]
       | None => []
       end |}.

(** ** Checkout service ([CheckoutServiceLive]) *)

Record ProviderItemGroup := {
  pi_item : QuoteItemInput;
  pi_productId : string;
  pi_variantId : option string;
  pi_price : Q;
  pi_currency : string;
  pi_fulfillmentConfig : option FulfillmentConfig;
  pi_productTitle : string;
  pi_productDescription : option string;
  pi_productImage : option string;
  pi_fulfillmentProvider : string;
}.

Record CreateCheckoutParams := {
  cp_userId : string;
  cp_items : list QuoteItemInput;
  cp_address : ShippingAddress;
  cp_selectedRates : gmap string string;
  cp_shippingCost : Q;
  cp_successUrl : string;
  cp_cancelUrl : string;
}.

Record CreateCheckoutOutput := {
  out_orderId : string;
  out_checkoutSessionId : string;
  out_checkoutUrl : string;
  out_draftOrderIds : list (string * string);
}.

Definition buildRecipient (address : ShippingAddress) : FulfillmentAddress :=
  {| fa_name := firstName address +:+ " " +:+ lastName address;
     fa_company := companyName address;
     fa_address1 := addressLine1 address;
     fa_address2 := addressLine2 address;
     fa_city := city address;
     fa_stateCode := state address;
     fa_countryCode := country address;
     fa_zip := postCode address;
     fa_phone := phone address;
     fa_email := email address |}.

Definition toFulfillmentItem (pi : ProviderItemGroup) : FulfillmentOrderItem :=
  let config := pi_fulfillmentConfig pi in
  {| foi_externalVariantId :=
       or_undefined (match config with
                     | Some c => fc_externalVariantId c
                     | None => None
                     end);
     foi_productId := match config with Some c => fc_catalogProductId c | None => None end;
     foi_variantId := match config with Some c => fc_catalogVariantId c | None => None end;
     foi_quantity := quantity (pi_item pi);
     foi_files :=
       match config with
       | Some c =>
           match fc_designFiles c with
           | Some dfs =>
               Some (map (fun df => {| ff_url := df_url df;
                                       ff_type := "default";
                                       ff_placement := df_placement df |}) dfs)
           | None => None
           end
       | None => None
       end |}.

Definition mapToFulfillmentItems (providerItems : list ProviderItemGroup)
  : list FulfillmentOrderItem :=
  map toFulfillmentItem providerItems.

(** *** The [Map<string, ProviderItemGroup[]>] of both operations *)

Definition ItemsByProvider : Type := list (string * list ProviderItemGroup).

Fixpoint map_has (m : ItemsByProvider) (k : string) : bool :=
  match m with
  | [] => false
  | (k', _) :: rest => if String.eqb k' k then true else map_has rest k
  end.

(** [m.get(k)!.push(x)] *)
Fixpoint map_push (k : string) (x : ProviderItemGroup) (m : ItemsByProvider) : ItemsByProvider :=
  match m with
  | [] => []
  | (k', l) :: rest =>
      if String.eqb k' k then (k', l ++ [x]) :: rest
      else (k', l) :: map_push k x rest
  end.

(** *** Resolving one cart item *)

(** [item.variantId ? product.variants.find(v => v.id === item.variantId)
                     : product.variants[0]] *)
Definition selectVariant (item : QuoteItemInput) (product : Product) : option ProductVariant :=
  match variantId item with
  | Some vid =>
      if truthy vid
      then List.find (fun v => String.eqb (v_id v) vid) (p_variants product)
      else head (p_variants product)
  | None => head (p_variants product)
  end.

(** [selectedVariant?.price ?? product.price] *)
Definition unitPriceOf (item : QuoteItemInput) (product : Product) : Q :=
  match selectVariant item product with
  | Some v => v_price v
  | None => p_price product
  end.

(** [product.fulfillmentProvider || 'manual'] *)
Definition providerOf (product : Product) : string :=
  if truthy (p_fulfillmentProvider product) then p_fulfillmentProvider product
  else "manual".

Definition resolveItem (item : QuoteItemInput) (product : Product) : ProviderItemGroup :=
  let selectedVariant := selectVariant item product in
  {| pi_item := item;
     pi_productId := p_id product;
     pi_variantId := option_map v_id selectedVariant;
     pi_price := unitPriceOf item product;
     pi_currency :=
       match selectedVariant with
       | Some v => v_currency v
       | None => p_currency product
       end;
     pi_fulfillmentConfig :=
       match selectedVariant with
       | Some v => v_fulfillmentConfig v
       | None => None
       end;
     pi_productTitle := p_title product;
     pi_productDescription := p_description product;
     pi_productImage := head (p_images product);
     pi_fulfillmentProvider := p_fulfillmentProvider product |}.

(** The first loop of [getQuote], repeated verbatim as the first loop of
    [createCheckout]. *)
Fixpoint groupItems (items : list QuoteItemInput)
    (itemsByProvider : ItemsByProvider) (totalSubtotal : Q)
  : M (ItemsByProvider * Q) :=
  match items with
  | [] => ret (itemsByProvider, totalSubtotal)
  | item :: rest =>
      product <- productStore_find (productId item) ;;
      match product with
      | None => fail ("Product not found: " +:+ productId item)
      | Some product =>
          let unitPrice := unitPriceOf item product in
          let itemSubtotal := (unitPrice * inject_Z (quantity item))%Q in
          let provider := providerOf product in
          let itemsByProvider :=
            if map_has itemsByProvider provider then itemsByProvider
            else itemsByProvider ++ [(provider, [])] in
          groupItems rest
            (map_push provider (resolveItem item product) itemsByProvider)
            (totalSubtotal + itemSubtotal)%Q
      end
  end.

(** [providerItems.reduce((sum, pi) => sum + pi.price * pi.item.quantity, 0)] *)
Definition bucketSubtotal (providerItems : list ProviderItemGroup) : Q :=
  fold_left (fun sum pi => (sum + pi_price pi * inject_Z (quantity (pi_item pi)))%Q)
            providerItems 0%Q.

(** *** getQuote *)

Definition currency : string := "USD".

Definition manualShipping : ProviderShippingOption :=
  {| so_provider := "manual";
     so_rateId := "manual-standard";
     so_rateName := "Standard Shipping";
     so_shippingCost := 0;
     so_currency := currency;
     so_minDeliveryDays := Some 5%Q;
     so_maxDeliveryDays := Some 10%Q |}.

Definition toShippingOption (providerName : string) (rate : ShippingRate)
  : ProviderShippingOption :=
  {| so_provider := providerName;
     so_rateId := r_id rate;
     so_rateName := r_name rate;
     so_shippingCost := r_rate rate;
     so_currency := r_currency rate;
     so_minDeliveryDays := r_minDeliveryDays rate;
     so_maxDeliveryDays := r_maxDeliveryDays rate |}.

(** [rates.reduce((cheapest, rate) => rate.rate < cheapest.rate ? rate : cheapest)] *)
Definition cheapestRate (first : ShippingRate) (others : list ShippingRate) : ShippingRate :=
  fold_left (fun cheapest rate => if Qltb (r_rate rate) (r_rate cheapest) then rate else cheapest)
            others first.

(** [if (cur === undefined || d < cur) cur = d] *)
Definition lowerTo (cur : option Q) (d : Q) : option Q :=
  match cur with
  | None => Some d
  | Some c => if Qltb d c then Some d else Some c
  end.

(** [if (cur === undefined || d > cur) cur = d] *)
Definition raiseTo (cur : option Q) (d : Q) : option Q :=
  match cur with
  | None => Some d
  | Some c => if Qltb c d then Some d else Some c
  end.

(** The variables the second loop of [getQuote] updates. *)
Record QuoteAcc := {
  providerBreakdown : list ProviderBreakdown;
  totalShippingCost : Q;
  minDeliveryDays : option Q;
  maxDeliveryDays : option Q;
}.

Definition quoteAcc0 : QuoteAcc :=
  {| providerBreakdown := []; totalShippingCost := 0;
     minDeliveryDays := None; maxDeliveryDays := None |}.

Definition quoteRequest (address : ShippingAddress) (providerItems : list ProviderItemGroup)
  : ShippingQuoteInput :=
  {| sqi_recipient := buildRecipient address;
     sqi_items := mapToFulfillmentItems providerItems;
     sqi_currency := currency |}.

(** What the loop body leaves behind for the ['manual'] bucket. *)
Definition addManualBucket (acc : QuoteAcc) (providerItems : list ProviderItemGroup) : QuoteAcc :=
  {| providerBreakdown :=
       providerBreakdown acc ++
       [ {| pb_provider := "manual";
            pb_itemCount := length providerItems;
            pb_subtotal := bucketSubtotal providerItems;
            pb_selectedShipping := manualShipping;
            pb_availableRates := [manualShipping] |} ];
     totalShippingCost := totalShippingCost acc;
     minDeliveryDays := lowerTo (minDeliveryDays acc) 5;
     maxDeliveryDays := raiseTo (maxDeliveryDays acc) 10 |}.

(** What the loop body leaves behind for a bucket whose provider answered
    with the rates [first :: others]. *)
Definition addQuotedBucket (acc : QuoteAcc) (providerName : string)
    (providerItems : list ProviderItemGroup) (first : ShippingRate) (others : list ShippingRate)
  : QuoteAcc :=
  let rates := first :: others in
  let selectedRate := cheapestRate first others in
  {| providerBreakdown :=
       providerBreakdown acc ++
       [ {| pb_provider := providerName;
            pb_itemCount := length providerItems;
            pb_subtotal := bucketSubtotal providerItems;
            pb_selectedShipping := toShippingOption providerName selectedRate;
            pb_availableRates := map (toShippingOption providerName) rates |} ];
     totalShippingCost := (totalShippingCost acc + r_rate selectedRate)%Q;
     minDeliveryDays :=
       match r_minDeliveryDays selectedRate with
       | Some d => lowerTo (minDeliveryDays acc) d
       | None => minDeliveryDays acc
       end;
     maxDeliveryDays :=
       match r_maxDeliveryDays selectedRate with
       | Some d => raiseTo (maxDeliveryDays acc) d
       | None => maxDeliveryDays acc
       end |}.

(** One iteration of [for (const [providerName, providerItems] of
    itemsByProvider.entries())] in [getQuote]. *)
Definition quoteProvider (rt : MarketplaceRuntime) (address : ShippingAddress)
    (acc : QuoteAcc) (providerName : string) (providerItems : list ProviderItemGroup)
  : M QuoteAcc :=
  match getProvider rt providerName with
  | None =>
      if String.eqb providerName "manual" then ret (addManualBucket acc providerItems)
      else fail ("Provider not configured: " +:+ providerName)
  | Some provider =>
      let request := quoteRequest address providerItems in
      emit (EvQuoteOrder providerName request) ;;;
      match quoteOrder (fp_client provider) request with
      | Err message =>
          fail ("Failed to get quote from " +:+ providerName +:+ ": " +:+ message)
      | Ok quoteResult =>
          match default [] (sqo_rates quoteResult) with
          | [] => fail ("No shipping rates available from " +:+ providerName)
          | first :: others =>
              ret (addQuotedBucket acc providerName providerItems first others)
          end
      end
  end.

Fixpoint quoteProviders (rt : MarketplaceRuntime) (address : ShippingAddress)
    (buckets : ItemsByProvider) (acc : QuoteAcc) : M QuoteAcc :=
  match buckets with
  | [] => ret acc
  | (providerName, providerItems) :: rest =>
      acc' <- quoteProvider rt address acc providerName providerItems ;;
      quoteProviders rt address rest acc'
  end.

Definition getQuote (rt : MarketplaceRuntime) (items : list QuoteItemInput)
    (address : ShippingAddress) : M QuoteOutput :=
  grouped <- groupItems items [] 0%Q ;;
  let itemsByProvider := fst grouped in
  let totalSubtotal := snd grouped in
  acc <- quoteProviders rt address itemsByProvider quoteAcc0 ;;
  ret {| q_subtotal := totalSubtotal;
         q_shippingCost := totalShippingCost acc;
         q_total := (totalSubtotal + totalShippingCost acc)%Q;
         q_currency := currency;
         q_providerBreakdown := providerBreakdown acc;
         q_estimatedDelivery :=
           match minDeliveryDays acc, maxDeliveryDays acc with
           | Some lo, Some hi => Some {| minDays := lo; maxDays := hi |}
           | _, _ => None
           end |}.

(** *** createCheckout *)

(** [record[k] = v] on a [Record<string, string>] *)
Fixpoint record_set (k v : string) (r : list (string * string)) : list (string * string) :=
  match r with
  | [] => [(k, v)]
  | (k', v') :: rest =>
      if String.eqb k' k then (k, v) :: rest else (k', v') :: record_set k v rest
  end.

(** [Array.from(itemsByProvider.values()).flat()] *)
Definition allItems (itemsByProvider : ItemsByProvider) : list ProviderItemGroup :=
  concat (map snd itemsByProvider).

Definition toOrderItem (pi : ProviderItemGroup) : CreateOrderItemInput :=
  {| coi_productId := pi_productId pi;
     coi_variantId := pi_variantId pi;
     coi_productName := pi_productTitle pi;
     coi_quantity := quantity (pi_item pi);
     coi_unitPrice := pi_price pi;
     coi_fulfillmentProvider := Some (pi_fulfillmentProvider pi);
     coi_fulfillmentConfig := pi_fulfillmentConfig pi |}.

Definition toLineItem (pi : ProviderItemGroup) : PaymentLineItem :=
  {| li_name := pi_productTitle pi;
     li_description := pi_productDescription pi;
     li_image := pi_productImage pi;
     li_unitAmount := Math_round (pi_price pi * 100)%Q;
     li_quantity := quantity (pi_item pi) |}.

Definition draftRequest (orderId : string) (address : ShippingAddress)
    (providerItems : list ProviderItemGroup) : FulfillmentOrderInput :=
  {| foin_externalId := orderId;
     foin_recipient := buildRecipient address;
     foin_items := mapToFulfillmentItems providerItems;
     foin_retailCurrency := currency |}.

(** One iteration of the draft-order loop of [createCheckout]; the value
    is the [draftOrderIds] record after the iteration. *)
Definition draftProvider (rt : MarketplaceRuntime) (order : OrderWithItems)
    (address : ShippingAddress) (selectedRates : gmap string string)
    (draftOrderIds : list (string * string))
    (providerName : string) (providerItems : list ProviderItemGroup)
  : M (list (string * string)) :=
  match or_undefined (selectedRates !! providerName) with
  | None => fail ("No shipping rate selected for provider: " +:+ providerName)
  | Some _ =>
      if String.eqb providerName "manual" then ret draftOrderIds
      else
        match getProvider rt providerName with
        | None => fail ("Provider not configured: " +:+ providerName)
        | Some provider =>
            let request := draftRequest (o_id order) address providerItems in
            emit (EvCreateOrder providerName request) ;;;
            match createOrder (fp_client provider) request with
            | Err message =>
                fail ("Failed to create draft order at " +:+ providerName +:+ ": " +:+ message)
            | Ok draftOrder =>
                ret (record_set providerName (fo_id draftOrder) draftOrderIds)
            end
        end
  end.

Fixpoint draftProviders (rt : MarketplaceRuntime) (order : OrderWithItems)
    (address : ShippingAddress) (selectedRates : gmap string string)
    (buckets : ItemsByProvider) (draftOrderIds : list (string * string))
  : M (list (string * string)) :=
  match buckets with
  | [] => ret draftOrderIds
  | (providerName, providerItems) :: rest =>
      ids <- draftProvider rt order address selectedRates draftOrderIds
               providerName providerItems ;;
      draftProviders rt order address selectedRates rest ids
  end.

Definition createCheckout (rt : MarketplaceRuntime) (params : CreateCheckoutParams)
  : M CreateCheckoutOutput :=
  let shippingCost := cp_shippingCost params in
  grouped <- groupItems (cp_items params) [] 0%Q ;;
  let itemsByProvider := fst grouped in
  let totalSubtotal := snd grouped in
  let totalAmount := (totalSubtotal + shippingCost)%Q in
  let orderItems := map toOrderItem (allItems itemsByProvider) in
  order <- orderStore_create
             {| co_userId := cp_userId params;
                co_items := orderItems;
                co_totalAmount := totalAmount;
                co_currency := currency;
                co_shippingMethod := None |} ;;
  draftOrderIds <- draftProviders rt order (cp_address params)
                     (cp_selectedRates params) itemsByProvider [] ;;
  match getPaymentProvider rt "stripe" with
  | None => fail "Payment provider not configured"
  | Some paymentProvider =>
      let lineItems :=
        map toLineItem (allItems itemsByProvider) ++
        (if Qltb 0 shippingCost
         then [ {| li_name := "Shipping";
                   li_description := None;
                   li_image := None;
                   li_unitAmount := Math_round (shippingCost * 100)%Q;
                   li_quantity := 1 |} ]
         else []) in
      let request :=
        {| cs_orderId := o_id order;
           cs_amount := Math_round (totalAmount * 100)%Q;
           cs_currency := currency;
           cs_items := lineItems;
           cs_successUrl := cp_successUrl params;
           cs_cancelUrl := cp_cancelUrl params;
           cs_metadata_draftOrderIds := draftOrderIds |} in
      emit (EvPaymentCheckout request) ;;;
      match pay_createCheckout (pp_client paymentProvider) request with
      | Err message => fail ("Failed to create payment checkout: " +:+ message)
      | Ok checkout =>
          orderStore_updateCheckout (o_id order) (cso_sessionId checkout) "stripe" ;;;
          orderStore_updateDraftOrderIds (o_id order) draftOrderIds ;;;
          orderStore_updateStatus (o_id order) draft_created ;;;
          ret {| out_orderId := o_id order;
                 out_checkoutSessionId := cso_sessionId checkout;
                 out_checkoutUrl := cso_url checkout;
                 out_draftOrderIds := draftOrderIds |}
      end
  end.

(** ** Abandoned-draft sweeper ([cleanupAbandonedDrafts]) *)

Record CleanupError := {
  ce_orderId : string;
  ce_provider : string;
  ce_error : string;
}.

Record CleanupResult := {
  totalProcessed : nat;
  cancelled_count : nat;
  partiallyCancelled : nat;
  failed : nat;
  errors : list CleanupError;
}.

Record CancellationResult := {
  cr_provider : string;
  cr_success : bool;
  cr_error : option string;
}.

(** [cancelResult.error || 'Unknown error'] *)
Definition or_unknown (e : option string) : string :=
  match or_undefined e with Some m => m | None => "Unknown error" end.

(** One iteration of [for (const [providerName, draftId] of
    Object.entries(order.draftOrderIds))]: the new [cancellationResults]
    and [errors]. *)
Definition cancelDraft (rt : MarketplaceRuntime) (orderId : string)
    (st : list CancellationResult * list CleanupError)
    (providerName draftId : string)
  : M (list CancellationResult * list CleanupError) :=
  let cancellationResults := fst st in
  let errs := snd st in
  match getProvider rt providerName with
  | None =>
      ret (cancellationResults ++
             [ {| cr_provider := providerName; cr_success := false;
                  cr_error := Some "Provider not found" |} ],
           errs ++
             [ {| ce_orderId := orderId; ce_provider := providerName;
                  ce_error := "Provider not found" |} ])
  | Some provider =>
      emit (EvCancelOrder providerName draftId) ;;;
      let cancelResult :=
        match cancelOrder (fp_client provider) draftId with
        | Ok _ => {| cr_provider := providerName; cr_success := true; cr_error := None |}
        | Err message =>
            {| cr_provider := providerName; cr_success := false; cr_error := Some message |}
        end in
      let errs :=
        if cr_success cancelResult then errs
        else errs ++ [ {| ce_orderId := orderId; ce_provider := providerName;
                          ce_error := or_unknown (cr_error cancelResult) |} ] in
      ret (cancellationResults ++ [cancelResult], errs)
  end.

Fixpoint cancelDrafts (rt : MarketplaceRuntime) (orderId : string)
    (entries : list (string * string))
    (st : list CancellationResult * list CleanupError)
  : M (list CancellationResult * list CleanupError) :=
  match entries with
  | [] => ret st
  | (providerName, draftId) :: rest =>
      st' <- cancelDraft rt orderId st providerName draftId ;;
      cancelDrafts rt orderId rest st'
  end.

(** The counters and the error list the sweep carries from order to order. *)
Record SweepAcc := {
  sw_cancelled : nat;
  sw_partiallyCancelled : nat;
  sw_failed : nat;
  sw_errors : list CleanupError;
}.

(** [!order.draftOrderIds || Object.keys(order.draftOrderIds).length === 0] *)
Definition noDraftIds (order : OrderWithItems) : bool :=
  match o_draftOrderIds order with
  | None => true
  | Some ids => (length ids =? 0)%nat
  end.

(** One iteration of [for (const order of abandonedOrders)]. *)
Definition sweepOrder (rt : MarketplaceRuntime) (acc : SweepAcc) (order : OrderWithItems)
  : M SweepAcc :=
  if noDraftIds order then
    orderStore_updateStatus (o_id order) cancelled ;;;
    ret {| sw_cancelled := S (sw_cancelled acc);
           sw_partiallyCancelled := sw_partiallyCancelled acc;
           sw_failed := sw_failed acc;
           sw_errors := sw_errors acc |}
  else
    st <- cancelDrafts rt (o_id order) (default [] (o_draftOrderIds order))
            ([], sw_errors acc) ;;
    let cancellationResults := fst st in
    let errs := snd st in
    let allSucceeded := forallb cr_success cancellationResults in
    let anySucceeded := existsb cr_success cancellationResults in
    if allSucceeded then
      orderStore_updateStatus (o_id order) cancelled ;;;
      ret {| sw_cancelled := S (sw_cancelled acc);
             sw_partiallyCancelled := sw_partiallyCancelled acc;
             sw_failed := sw_failed acc;
             sw_errors := errs |}
    else if anySucceeded then
      orderStore_updateStatus (o_id order) partially_cancelled ;;;
      ret {| sw_cancelled := sw_cancelled acc;
             sw_partiallyCancelled := S (sw_partiallyCancelled acc);
             sw_failed := sw_failed acc;
             sw_errors := errs |}
    else
      ret {| sw_cancelled := sw_cancelled acc;
             sw_partiallyCancelled := sw_partiallyCancelled acc;
             sw_failed := S (sw_failed acc);
             sw_errors := errs |}.

Fixpoint sweepOrders (rt : MarketplaceRuntime) (orders : list OrderWithItems) (acc : SweepAcc)
  : M SweepAcc :=
  match orders with
  | [] => ret acc
  | order :: rest =>
      acc' <- sweepOrder rt acc order ;;
      sweepOrders rt rest acc'
  end.

Definition cleanupAbandonedDrafts (rt : MarketplaceRuntime) (maxAgeHours : Z)
  : M CleanupResult :=
  abandonedOrders <- orderStore_findAbandonedDrafts maxAgeHours ;;
  if (length abandonedOrders =? 0)%nat then
    ret {| totalProcessed := 0; cancelled_count := 0; partiallyCancelled := 0;
           failed := 0; errors := [] |}
  else
    acc <- sweepOrders rt abandonedOrders
             {| sw_cancelled := 0; sw_partiallyCancelled := 0;
                sw_failed := 0; sw_errors := [] |} ;;
    ret {| totalProcessed := length abandonedOrders;
           cancelled_count := sw_cancelled acc;
           partiallyCancelled := sw_partiallyCancelled acc;
           failed := sw_failed acc;
           errors := sw_errors acc |}.


(** ** Order store: the read operations (store/orders.ts) *)

Definition orderStore_find (id : string) : M (option OrderWithItems) :=
  findOrderById id.

(** [db.select().from(orders).where(..).limit(1)] followed by
    [rowToOrder] of the row found, if any. *)
Definition firstWhere (p : OrderRow -> bool) : M (option OrderWithItems) :=
  fun w =>
    match List.filter (fun r => p (snd r)) (map_to_list (w_orders w)) with
    | [] => (Ok None, w)
    | r :: _ => bind (rowToOrder (fst r) (snd r)) (fun o => ret (Some o)) w
    end.

Definition orderStore_findByCheckoutSession (checkoutSessionId : string)
  : M (option OrderWithItems) :=
  firstWhere (fun r => match row_checkoutSessionId r with
                       | Some s => String.eqb s checkoutSessionId
                       | None => false
                       end).

Definition orderStore_findByFulfillmentRef (fulfillmentReferenceId : string)
  : M (option OrderWithItems) :=
  firstWhere (fun r => match row_fulfillmentReferenceId r with
                       | Some s => String.eqb s fulfillmentReferenceId
                       | None => false
                       end).

(** [limit] and [offset] are natural numbers, as the routes that reach
    the store validate them; both are optional, 10 and 0 by default. *)
Definition orderStore_findByUser (userId : string) (limit offset : option nat)
  : M (list OrderWithItems * nat) :=
  let limit := default 10%nat limit in
  let offset := default 0%nat offset in
  fun w =>
    let allOrders :=
      List.filter (fun r => String.eqb (row_userId (snd r)) userId)
                  (map_to_list (w_orders w)) in
    let total := length allOrders in
    let results := take limit (drop offset (merge_sort newer_first allOrders)) in
    bind (mapM (fun r => rowToOrder (fst r) (snd r)) results)
         (fun orders => ret (orders, total)) w.

(** ** Gelato service ([GelatoService]): the requests it builds *)

(** The character [' '] (code 32). *)
Definition space : Ascii.ascii :=
  Ascii.Ascii false false false false false true false false.

(** [s.split(' ')] *)
Fixpoint split_space (s : string) : list string :=
  match s with
  | EmptyString => [EmptyString]
  | String c rest =>
      if Ascii.eqb c space then EmptyString :: split_space rest
      else match split_space rest with
           | part :: parts => String c part :: parts
           | [] => [String c EmptyString]
           end
  end.

(** [parts.join(' ')] *)
Fixpoint join_space (parts : list string) : string :=
  match parts with
  | [] => EmptyString
  | part :: rest =>
      match rest with
      | [] => part
      | _ :: _ => part +:+ " " +:+ join_space rest
      end
  end.

(** [a || b] where [a] may be undefined *)
Definition or_string (a : option string) (b : string) : string :=
  match or_undefined a with
  | Some s => s
  | None => b
  end.

(** The first lines of [createOrder] and of [quoteOrderDetailed]:
    [nameParts = name.split(' ')], [firstName = nameParts[0] || ''],
    [lastName = nameParts.slice(1).join(' ') || firstName]. *)
Definition recipientNames (name : string) : string * string :=
  let nameParts := split_space name in
  let first := or_string (head nameParts) EmptyString in
  let last := or_string (Some (join_space (tail nameParts))) first in
  (first, last).

Record GelatoAddress := {
  ga_firstName : string;
  ga_lastName : string;
  ga_companyName : option string;
  ga_addressLine1 : string;
  ga_addressLine2 : option string;
  ga_city : string;
  ga_state : string;
  ga_postCode : string;
  ga_country : string;
  ga_email : string;
  ga_phone : option string;
}.

Definition gelatoAddress (recipient : FulfillmentAddress) : GelatoAddress :=
  let names := recipientNames (fa_name recipient) in
  {| ga_firstName := fst names;
     ga_lastName := snd names;
     ga_companyName := fa_company recipient;
     ga_addressLine1 := fa_address1 recipient;
     ga_addressLine2 := fa_address2 recipient;
     ga_city := fa_city recipient;
     ga_state := fa_stateCode recipient;
     ga_postCode := fa_zip recipient;
     ga_country := fa_countryCode recipient;
     ga_email := fa_email recipient;
     ga_phone := fa_phone recipient |}.

Record GelatoFile := {
  gf_type : string;
  gf_url : string;
}.

Record GelatoItem := {
  gi_itemReferenceId : string;
  gi_productUid : string;
  gi_files : list GelatoFile;
  gi_quantity : Z;
}.

Inductive GelatoOrderType := gelato_order | gelato_draft.

Record GelatoOrderData := {
  god_orderType : GelatoOrderType;
  god_orderReferenceId : string;
  god_customerReferenceId : string;
  god_currency : string;
  god_items : list GelatoItem;
  god_shipmentMethodUid : string;
  god_shippingAddress : GelatoAddress;
  god_returnAddress : GelatoAddress;
}.

(** [getDefaultReturnAddress] *)
Definition getDefaultReturnAddress (returnAddress : option GelatoAddress) : GelatoAddress :=
  match returnAddress with
  | Some a => a
  | None =>
      {| ga_firstName := "Returns"; ga_lastName := "Department";
         ga_companyName := Some "Returns Dept";
         ga_addressLine1 := "123 Return St"; ga_addressLine2 := None;
         ga_city := "Los Angeles"; ga_state := "CA"; ga_postCode := "90001";
         ga_country := "US"; ga_email := "returns@example.com"; ga_phone := None |}
  end.

(** The body [createOrder] posts to [/orders]. *)
Definition gelatoOrderData (returnAddress : option GelatoAddress)
    (input : FulfillmentOrderInput) (orderType : GelatoOrderType) : GelatoOrderData :=
  {| god_orderType := orderType;
     god_orderReferenceId := foin_externalId input;
     god_customerReferenceId := foin_externalId input;
     god_currency := or_string (Some (foin_retailCurrency input)) "USD";
     god_items :=
       imap (fun index item =>
               {| gi_itemReferenceId :=
                    "item_" +:+ foin_externalId input +:+ "_" +:+ pretty index;
                  gi_productUid :=
                    or_string (pretty <$> foi_productId item) EmptyString;
                  gi_files :=
                    match foi_files item with
                    | Some files =>
                        map (fun f => {| gf_type := or_string (Some (ff_type f)) "default";
                                         gf_url := ff_url f |}) files
                    | None => []
                    end;
                  gi_quantity := foi_quantity item |})
            (foin_items input);
     god_shipmentMethodUid := "standard";
     god_shippingAddress := gelatoAddress (foin_recipient input);
     god_returnAddress := getDefaultReturnAddress returnAddress |}.

Record GelatoQuoteProduct := {
  gq_itemReferenceId : string;
  gq_productUid : string;
  gq_files : list FulfillmentFile;
  gq_quantity : Z;
}.

Record GelatoQuoteRequest := {
  gqr_orderReferenceId : string;
  gqr_customerReferenceId : string;
  gqr_currency : string;
  gqr_allowMultipleQuotes : bool;
  gqr_recipient : GelatoAddress;
  gqr_products : list GelatoQuoteProduct;
}.

(** The body [quoteOrder] has [quoteOrderDetailed] post to
    [/orders:quote], for a non-empty list of items, at time [t]. *)
Definition gelatoQuoteRequest (t : Z) (input : ShippingQuoteInput) : GelatoQuoteRequest :=
  {| gqr_orderReferenceId := "quote_" +:+ pretty t;
     gqr_customerReferenceId := "quote_" +:+ pretty t;
     gqr_currency := or_string (Some (sqi_currency input)) "USD";
     gqr_allowMultipleQuotes := true;
     gqr_recipient := gelatoAddress (sqi_recipient input);
     gqr_products :=
       imap (fun index item =>
               {| gq_itemReferenceId := "item_" +:+ pretty index;
                  gq_productUid :=
                    or_string (pretty <$> foi_productId item)
                              (or_string (foi_externalVariantId item) EmptyString);
                  gq_files := default [] (foi_files item);
                  gq_quantity := foi_quantity item |})
            (sqi_items input) |}.

(** The body [quoteOrder] sends, if any: for an empty list of items it
    answers with no rates and sends nothing. *)
Definition gelatoQuoteCall (t : Z) (input : ShippingQuoteInput) : option GelatoQuoteRequest :=
  if (length (sqi_items input) =? 0)%nat then None
  else Some (gelatoQuoteRequest t input).

(** ** Storefront (the checkout form of the collection page) *)


(** ** Gelato service: [verifyWebhookSignature] *)

(** [hmac k b] stands for
    [crypto.createHmac('sha256', k).update(b).digest('hex')].
    [crypto.timingSafeEqual] throws when its two buffers differ in length,
    and the [catch] then compares the signature with the secret itself. *)
Definition verifyWebhookSignature (hmac : string -> string -> string)
    (webhookSecret : option string) (body signature : string) : bool :=
  match or_undefined webhookSecret with
  | None => false
  | Some secret =>
      if negb (truthy signature) then false
      else
        let calculatedSignature := hmac secret body in
        if (String.length signature =? String.length calculatedSignature)%nat
        then String.eqb signature calculatedSignature
        else String.eqb signature secret
  end.
(** * Vocabulary of the properties *)

(** The sum of a list of numbers, added up from the left. *)
Definition sumQ (l : list Q) : Q := fold_left Qplus l 0%Q.

(** The shipping cost of the rate selected for a bucket. *)
Definition selectedCost (b : ProviderBreakdown) : Q :=
  so_shippingCost (pb_selectedShipping b).

(** The day bounds the buckets' selected rates report, in bucket order. *)
Definition reportedMinDays (bs : list ProviderBreakdown) : list Q :=
  omap (fun b => so_minDeliveryDays (pb_selectedShipping b)) bs.

Definition reportedMaxDays (bs : list ProviderBreakdown) : list Q :=
  omap (fun b => so_maxDeliveryDays (pb_selectedShipping b)) bs.

Definition is_minimum (m : Q) (l : list Q) : Prop :=
  In m l /\ forall d, In d l -> (m <= d)%Q.

Definition is_maximum (m : Q) (l : list Q) : Prop :=
  In m l /\ forall d, In d l -> (d <= m)%Q.

(** The loop invariant behind the totals of a quote. *)
Definition totals_agree (rt : MarketplaceRuntime) (acc : QuoteAcc) : Prop :=
  totalShippingCost acc = sumQ (map selectedCost (providerBreakdown acc)) /\
  (getProvider rt "manual" = None ->
   forall b, In b (providerBreakdown acc) -> pb_provider b = "manual" ->
             selectedCost b = 0%Q).

(** What holds of every entry of a quote's breakdown. *)
Definition cheapest_selected (b : ProviderBreakdown) : Prop :=
  In (pb_selectedShipping b) (pb_availableRates b) /\
  forall r, In r (pb_availableRates b) -> (selectedCost b <= so_shippingCost r)%Q.

(** ** A sample shop *)

Definition sampleAddress : ShippingAddress :=
  {| companyName := None; firstName := "Ada"; lastName := "Byron";
     addressLine1 := "1 Main St"; addressLine2 := None; city := "Austin";
     state := "TX"; postCode := "73301"; country := "US";
     email := "ada@example.com"; phone := None |}.

Definition mug : Product :=
  {| p_id := "manual-1"; p_title := "Mug"; p_description := None;
     p_price := 10; p_currency := "USD"; p_images := [];
     p_variants := []; p_fulfillmentProvider := "manual" |}.

Definition teeConfig : FulfillmentConfig :=
  {| fc_externalVariantId := Some "pf-4011"; fc_externalProductId := Some "pf-71";
     fc_designFiles := Some [ {| df_placement := "front"; df_url := "https://img/tee.png" |} ];
     fc_catalogProductId := Some 71%Z; fc_catalogVariantId := Some 4011%Z |}.

Definition tee : Product :=
  {| p_id := "tee"; p_title := "Tee"; p_description := Some "A shirt";
     p_price := 25; p_currency := "USD"; p_images := ["https://img/tee.jpg"];
     p_variants :=
       [ {| v_id := "tee-m"; v_price := 27; v_currency := "USD";
            v_fulfillmentConfig := Some teeConfig |} ];
     p_fulfillmentProvider := "printful" |}.

Definition poster : Product :=
  {| p_id := "poster"; p_title := "Poster"; p_description := None;
     p_price := 15; p_currency := "USD"; p_images := [];
     p_variants := []; p_fulfillmentProvider := "gelato" |}.

Definition shop : World :=
  {| w_products := {[ "manual-1" := mug; "tee" := tee; "poster" := poster ]};
     w_orders := ∅;
     w_orderItems := [];
     w_clock := 1700000000000;
     w_uuid := fun n => "order-" +:+ pretty n;
     w_uuidNext := 0;
     w_insertError := fun id _ => "Error: Failed query: insert into orders, id " +:+ id;
     w_trace := [] |}.

Definition rate_r1 : ShippingRate :=
  {| r_id := "r1"; r_name := "Flat"; r_rate := 5; r_currency := "USD";
     r_minDeliveryDays := None; r_maxDeliveryDays := None |}.

Definition rate_r2 : ShippingRate :=
  {| r_id := "r2"; r_name := "Express"; r_rate := 8; r_currency := "USD";
     r_minDeliveryDays := None; r_maxDeliveryDays := None |}.

(** A printful gateway that quotes [r1] and [r2], creates draft ["d1"]
    and cancels whatever it is asked to. *)
Definition printfulUp : FulfillmentClient :=
  {| quoteOrder := fun _ => Ok {| sqo_rates := Some [rate_r1; rate_r2] |};
     createOrder := fun _ => Ok {| fo_id := "d1" |};
     cancelOrder := fun _ => Ok tt |}.

(** A printful gateway that quotes the dearer rate first. *)
Definition printfulDearFirst : FulfillmentClient :=
  {| quoteOrder := fun _ => Ok {| sqo_rates := Some [rate_r2; rate_r1] |};
     createOrder := fun _ => Ok {| fo_id := "d1" |};
     cancelOrder := fun _ => Ok tt |}.

(** A gelato gateway that rejects every call. *)
Definition gelatoDown : FulfillmentClient :=
  {| quoteOrder := fun _ => Err "timeout";
     createOrder := fun _ => Err "service unavailable";
     cancelOrder := fun _ => Err "already shipped" |}.

Definition stripeUp : PaymentClient :=
  {| pay_createCheckout := fun _ =>
       Ok {| cso_sessionId := "cs_1"; cso_url := "https://pay/cs_1" |} |}.

Definition item_mug2 : QuoteItemInput :=
  {| productId := "manual-1"; variantId := None; quantity := 2 |}.

Definition item_tee : QuoteItemInput :=
  {| productId := "tee"; variantId := Some "tee-m"; quantity := 1 |}.

(** A tee whose variant id is the empty string. *)
Definition item_tee_blank : QuoteItemInput :=
  {| productId := "tee"; variantId := Some EmptyString; quantity := 1 |}.

Definition item_poster : QuoteItemInput :=
  {| productId := "poster"; variantId := None; quantity := 1 |}.

Definition rtPrintful : MarketplaceRuntime :=
  createMarketplaceRuntime (Some printfulUp) None (Some stripeUp).

Definition rtBoth : MarketplaceRuntime :=
  createMarketplaceRuntime (Some printfulUp) (Some gelatoDown) (Some stripeUp).

(** The loop invariant behind the delivery estimate: the two running
    bounds are the folds of [lowerTo] and [raiseTo] over the reported
    days. *)
Definition days_agree (acc : QuoteAcc) : Prop :=
  minDeliveryDays acc = fold_left lowerTo (reportedMinDays (providerBreakdown acc)) None /\
  maxDeliveryDays acc = fold_left raiseTo (reportedMaxDays (providerBreakdown acc)) None.

(** The presence of the estimate as the specification words it: present
    as soon as one bucket reported a day bound. *)
Definition estimate_present_as_claimed (q : QuoteOutput) : Prop :=
  reportedMinDays (q_providerBreakdown q) <> [] \/
  reportedMaxDays (q_providerBreakdown q) <> [] ->
  q_estimatedDelivery q <> None.

(** A printful gateway whose only rate reports a lower day bound and no
    upper one. *)
Definition printfulMinOnly : FulfillmentClient :=
  {| quoteOrder := fun _ =>
       Ok {| sqo_rates :=
               Some [ {| r_id := "std"; r_name := "Standard"; r_rate := 4;
                         r_currency := "USD";
                         r_minDeliveryDays := Some 3%Q;
                         r_maxDeliveryDays := None |} ] |};
     createOrder := fun _ => Ok {| fo_id := "d1" |};
     cancelOrder := fun _ => Ok tt |}.

(** ** Why a quote fails *)

(** Some cart item's product id resolves to no product. *)
Definition productMissing (w : World) (items : list QuoteItemInput) : Prop :=
  exists item, In item items /\ w_products w !! productId item = None.

(** The provider buckets of a cart (none when a product is missing). *)
Definition bucketsOf (w : World) (items : list QuoteItemInput) : ItemsByProvider :=
  match fst (groupItems items [] 0%Q w) with
  | Ok grouped => fst grouped
  | Err _ => []
  end.

(** The breakdown entry [b] is the answer to the bucket: for the
    ['manual'] bucket of a runtime without such a provider, the manual
    rate; for a bucket whose provider is configured, the rates the
    provider's [quoteOrder] returned for the bucket, all of them and in
    order, with one of least cost among them selected. *)
Definition answered_by (rt : MarketplaceRuntime) (address : ShippingAddress)
    (bucket : string * list ProviderItemGroup) (b : ProviderBreakdown) : Prop :=
  pb_provider b = fst bucket /\
  ((fst bucket = "manual" /\ getProvider rt "manual" = None /\
    pb_availableRates b = [manualShipping] /\
    pb_selectedShipping b = manualShipping) \/
   (exists provider result rate,
      getProvider rt (fst bucket) = Some provider /\
      quoteOrder (fp_client provider) (quoteRequest address (snd bucket)) = Ok result /\
      pb_availableRates b
        = map (toShippingOption (fst bucket)) (default [] (sqo_rates result)) /\
      In rate (default [] (sqo_rates result)) /\
      pb_selectedShipping b = toShippingOption (fst bucket) rate /\
      forall r, In r (default [] (sqo_rates result)) -> (r_rate rate <= r_rate r)%Q)).

(** The bucket is not ['manual'] and its provider is not configured. *)
Definition providerNotConfigured (rt : MarketplaceRuntime)
    (bucket : string * list ProviderItemGroup) : Prop :=
  getProvider rt (fst bucket) = None /\ fst bucket <> "manual".

(** The bucket's provider is configured and its [quoteOrder] call is
    rejected. *)
Definition quoteCallFails (rt : MarketplaceRuntime) (address : ShippingAddress)
    (bucket : string * list ProviderItemGroup) : Prop :=
  exists provider message,
    getProvider rt (fst bucket) = Some provider /\
    quoteOrder (fp_client provider) (quoteRequest address (snd bucket)) = Err message.

(** The bucket's provider is configured and answers with no rate. *)
Definition noRatesReturned (rt : MarketplaceRuntime) (address : ShippingAddress)
    (bucket : string * list ProviderItemGroup) : Prop :=
  exists provider result,
    getProvider rt (fst bucket) = Some provider /\
    quoteOrder (fp_client provider) (quoteRequest address (snd bucket)) = Ok result /\
    default [] (sqo_rates result) = [].

Definition bucketFails (rt : MarketplaceRuntime) (address : ShippingAddress)
    (bucket : string * list ProviderItemGroup) : Prop :=
  providerNotConfigured rt bucket \/
  quoteCallFails rt address bucket \/
  noRatesReturned rt address bucket.

Definition quoteFails (rt : MarketplaceRuntime) (items : list QuoteItemInput)
    (address : ShippingAddress) (w : World) : Prop :=
  exists message w', getQuote rt items address w = (Err message, w').


(** ** What a step may do to the world *)

Definition notQuoteEvent (e : Event) : Prop :=
  match e with EvQuoteOrder _ _ => False | _ => True end.

(** Every order present before is present after with the same amount. *)
Definition keeps_amounts (w w' : World) : Prop :=
  forall id row, w_orders w !! id = Some row ->
    exists row', w_orders w' !! id = Some row' /\
                 row_totalAmount row' = row_totalAmount row.

(** The step appends events, none of them a quote request, and keeps the
    amounts of the orders. *)
Definition quiet_step (w w' : World) : Prop :=
  (exists evs, w_trace w' = w_trace w ++ evs /\ Forall notQuoteEvent evs) /\
  keeps_amounts w w'.

Definition Quiet {A} (m : M A) : Prop :=
  forall w r w', m w = (r, w') -> quiet_step w w'.

(** The id the next [crypto.randomUUID()] returns. *)
Definition nextOrderId (w : World) : string := w_uuid w (w_uuidNext w).

(** ** Sample checkouts *)

(** A mug and a tee, with a shipping cost (99) that no gateway quoted. *)
Definition checkoutOverpriced : CreateCheckoutParams :=
  {| cp_userId := "ada.near";
     cp_items := [item_mug2; item_tee];
     cp_address := sampleAddress;
     cp_selectedRates := {[ "manual" := "manual-standard"; "printful" := "r1" ]};
     cp_shippingCost := 99;
     cp_successUrl := "https://shop/success";
     cp_cancelUrl := "https://shop/cancel" |}.

(** The same cart, with a shipping cost that is no whole number of cents. *)
Definition checkoutFractionalShipping : CreateCheckoutParams :=
  {| cp_userId := "ada.near";
     cp_items := [item_mug2; item_tee];
     cp_address := sampleAddress;
     cp_selectedRates := {[ "manual" := "manual-standard"; "printful" := "r1" ]};
     cp_shippingCost := 4999 # 1000;
     cp_successUrl := "https://shop/success";
     cp_cancelUrl := "https://shop/cancel" |}.

(** A tee (printful) and a poster (gelato), a rate selected for each. *)
Definition checkoutTwoProviders : CreateCheckoutParams :=
  {| cp_userId := "ada.near";
     cp_items := [item_tee; item_poster];
     cp_address := sampleAddress;
     cp_selectedRates := {[ "printful" := "r1"; "gelato" := "g1" ]};
     cp_shippingCost := 9;
     cp_successUrl := "https://shop/success";
     cp_cancelUrl := "https://shop/cancel" |}.

(** Two mugs and no selected rate at all. *)
Definition checkoutMugNoRate : CreateCheckoutParams :=
  {| cp_userId := "ada.near";
     cp_items := [item_mug2];
     cp_address := sampleAddress;
     cp_selectedRates := ∅;
     cp_shippingCost := 0;
     cp_successUrl := "https://shop/success";
     cp_cancelUrl := "https://shop/cancel" |}.

(** The persisted [draftOrderIds] as the specification words them for a
    failure at the second provider: exactly the first provider's entry. *)
Definition drafts_persisted_as_claimed (w' : World) (orderId provider draftId : string) : Prop :=
  exists row, w_orders w' !! orderId = Some row /\
              row_draftOrderIds row = Some [(provider, draftId)].

(** The same cart with the ['manual'] rate the quote offers. *)
Definition checkoutMugWithRate : CreateCheckoutParams :=
  {| cp_userId := "ada.near";
     cp_items := [item_mug2];
     cp_address := sampleAddress;
     cp_selectedRates := {[ "manual" := "manual-standard" ]};
     cp_shippingCost := 0;
     cp_successUrl := "https://shop/success";
     cp_cancelUrl := "https://shop/cancel" |}.

(** The bucket of provider [name] holds the entry [e]. *)
Definition bucket_has (g : ItemsByProvider) (name : string) (e : ProviderItemGroup) : Prop :=
  exists its, In (name, its) g /\ In e its.

(** A tee asked for in a size the catalog does not have. *)
Definition item_tee_xxl : QuoteItemInput :=
  {| productId := "tee"; variantId := Some "tee-xxl"; quantity := 3 |}.

(** ** Vocabulary of the sweep *)

(** The draft ids recorded on an order, in [Object.entries] order. *)
Definition draftEntries (order : OrderWithItems) : list (string * string) :=
  default [] (o_draftOrderIds order).

(** The cancellation of one recorded draft succeeds when its provider is
    configured and accepts the [cancelOrder] call. *)
Definition cancellationSucceeds (rt : MarketplaceRuntime) (entry : string * string) : bool :=
  match getProvider rt (fst entry) with
  | None => false
  | Some provider => is_ok (cancelOrder (fp_client provider) (snd entry))
  end.

(** The entry a failed cancellation adds to the error list. *)
Definition cancellationError (rt : MarketplaceRuntime) (orderId : string)
    (entry : string * string) : option CleanupError :=
  match getProvider rt (fst entry) with
  | None =>
      Some {| ce_orderId := orderId; ce_provider := fst entry;
              ce_error := "Provider not found" |}
  | Some provider =>
      match cancelOrder (fp_client provider) (snd entry) with
      | Ok _ => None
      | Err message =>
          Some {| ce_orderId := orderId; ce_provider := fst entry;
                  ce_error := or_unknown (Some message) |}
      end
  end.

Definition cancellationErrors (rt : MarketplaceRuntime) (order : OrderWithItems)
  : list CleanupError :=
  omap (cancellationError rt (o_id order)) (draftEntries order).

Inductive SweepOutcome :=
| NothingToCancel | AllCancelled | PartlyCancelled | NoneCancelled.

Definition sweepOutcome (rt : MarketplaceRuntime) (order : OrderWithItems) : SweepOutcome :=
  if noDraftIds order then NothingToCancel
  else if forallb (cancellationSucceeds rt) (draftEntries order) then AllCancelled
  else if existsb (cancellationSucceeds rt) (draftEntries order) then PartlyCancelled
  else NoneCancelled.

Definition is_outcome (a b : SweepOutcome) : bool :=
  match a, b with
  | NothingToCancel, NothingToCancel | AllCancelled, AllCancelled
  | PartlyCancelled, PartlyCancelled | NoneCancelled, NoneCancelled => true
  | _, _ => false
  end.

Definition countOutcome (rt : MarketplaceRuntime) (oc : SweepOutcome)
    (orders : list OrderWithItems) : nat :=
  length (List.filter (fun o => is_outcome (sweepOutcome rt o) oc) orders).

Definition statusAfterSweep (before : OrderStatus) (oc : SweepOutcome) : OrderStatus :=
  match oc with
  | NothingToCancel | AllCancelled => cancelled
  | PartlyCancelled => partially_cancelled
  | NoneCancelled => before
  end.

(** The status column of an order, if the order exists. *)
Definition status_in (w : World) (id : string) : option OrderStatus :=
  row_status <$> w_orders w !! id.

(** The step leaves tables and clock alone (it may add to the trace). *)
Definition same_store (w w' : World) : Prop :=
  w_orders w' = w_orders w /\ w_orderItems w' = w_orderItems w /\ w_clock w' = w_clock w.

(** The step rewrites the status of order [id], if present, and nothing
    else in the tables. *)
Definition status_written (id : string) (s : OrderStatus) (w w' : World) : Prop :=
  w_orders w' = alter (withStatus s (w_clock w)) id (w_orders w) /\
  w_orderItems w' = w_orderItems w /\ w_clock w' = w_clock w.

(** The result recorded for the cancellation of one draft. *)
Definition cancellationResult (rt : MarketplaceRuntime) (entry : string * string)
  : CancellationResult :=
  match getProvider rt (fst entry) with
  | None =>
      {| cr_provider := fst entry; cr_success := false;
         cr_error := Some "Provider not found" |}
  | Some provider =>
      match cancelOrder (fp_client provider) (snd entry) with
      | Ok _ => {| cr_provider := fst entry; cr_success := true; cr_error := None |}
      | Err message =>
          {| cr_provider := fst entry; cr_success := false; cr_error := Some message |}
      end
  end.

(** ** A sample store for the sweep *)

(** An order left in ['draft_created'] two days before [sweepShop]'s
    clock, with one printful draft and one gelato draft recorded. *)
Definition staleRow : OrderRow :=
  {| row_userId := "ada.near"; row_status := draft_created;
     row_totalAmount := 4200; row_currency := "USD";
     row_checkoutSessionId := Some "cs_0"; row_checkoutProvider := Some "stripe";
     row_draftOrderIds := Some [("printful", "d1"); ("gelato", "g7")];
     row_shippingMethod := None; row_fulfillmentReferenceId := Some "order_1_ada.near";
     row_createdAt := 1700000000000 - 2 * 24 * 60 * 60 * 1000;
     row_updatedAt := 1700000000000 - 2 * 24 * 60 * 60 * 1000 |}.

Definition sweepShop : World :=
  {| w_products := ∅;
     w_orders := {[ "o1" := staleRow ]};
     w_orderItems := [];
     w_clock := 1700000000000;
     w_uuid := fun n => "order-" +:+ pretty n;
     w_uuidNext := 1;
     w_insertError := fun id _ => "Error: Failed query: insert into orders, id " +:+ id;
     w_trace := [] |}.


(** * Vocabulary of the further properties *)

(** What [orderStore.create] stores for one line of the order, as it is
    read back; the unit price is stored in cents, and is the requested one
    when that is a whole number of cents. *)
Definition stored_line (orderId : string) (item : CreateOrderItemInput) (line : OrderItem)
  : Prop :=
  oi_orderId line = orderId /\
  oi_productId line = coi_productId item /\
  oi_variantId line = or_undefined (coi_variantId item) /\
  oi_productName line = coi_productName item /\
  oi_quantity line = coi_quantity item /\
  (forall cents : Z,
     (coi_unitPrice item == inject_Z cents / 100)%Q ->
     oi_unitPrice line = cents_to_number cents) /\
  oi_fulfillmentConfig line = coi_fulfillmentConfig item.

(** A store with three orders of two users. *)
Definition ordersShop : World :=
  {| w_products := ∅;
     w_orders :=
       {[ "o1" := staleRow;
          "o2" := {| row_userId := "bob.near"; row_status := paid;
                     row_totalAmount := 1500; row_currency := "USD";
                     row_checkoutSessionId := Some "cs_2";
                     row_checkoutProvider := Some "stripe";
                     row_draftOrderIds := None; row_shippingMethod := None;
                     row_fulfillmentReferenceId := None;
                     row_createdAt := 1699900000000; row_updatedAt := 1699900000000 |};
          "o3" := {| row_userId := "ada.near"; row_status := pending;
                     row_totalAmount := 900; row_currency := "USD";
                     row_checkoutSessionId := None; row_checkoutProvider := None;
                     row_draftOrderIds := None; row_shippingMethod := None;
                     row_fulfillmentReferenceId := None;
                     row_createdAt := 1699990000000; row_updatedAt := 1699990000000 |} ]};
     w_orderItems := [];
     w_clock := 1700000000000;
     w_uuid := fun n => "order-" +:+ pretty n;
     w_uuidNext := 4;
     w_insertError := fun id _ => "Error: Failed query: insert into orders, id " +:+ id;
     w_trace := [] |}.

(** ** Steps, by what they do to the trace and to the tables *)


(** The step leaves the tables, the clock and the id source alone. *)
Definition unchanged_but_trace (w w' : World) : Prop :=
  w_products w' = w_products w /\ w_orders w' = w_orders w /\
  w_orderItems w' = w_orderItems w /\ w_clock w' = w_clock w /\
  w_uuid w' = w_uuid w /\ w_uuidNext w' = w_uuidNext w.

(** The sum of the buckets' subtotals. *)
Definition bucketsTotal (g : ItemsByProvider) : Q :=
  sumQ (map (fun b => bucketSubtotal (snd b)) g).

(** What one cart line adds to the subtotal. *)
Definition lineTotal (pi : ProviderItemGroup) : Q :=
  (pi_price pi * inject_Z (quantity (pi_item pi)))%Q.


(** ** The cart, line by line *)

(** The cart lines the catalog knows, each with the provider that
    fulfils it and resolved against its product. *)
Fixpoint cartLines (w : World) (items : list QuoteItemInput)
  : list (string * ProviderItemGroup) :=
  match items with
  | [] => []
  | item :: rest =>
      match w_products w !! productId item with
      | Some product => (providerOf product, resolveItem item product) :: cartLines w rest
      | None => cartLines w rest
      end
  end.

(** The lines of one provider, in cart order. *)
Definition linesFor (name : string) (lines : list (string * ProviderItemGroup))
  : list ProviderItemGroup :=
  map snd (List.filter (fun p => String.eqb (fst p) name) lines).

(** The buckets [acc] and the running subtotal [sub] are what the grouping
    loop has made of the lines [seen]; the subtotal is the sum of the
    lines' totals, added in cart order. *)
Definition grouped_as (seen : list (string * ProviderItemGroup))
    (acc : ItemsByProvider) (sub : Q) : Prop :=
  List.NoDup (map fst acc) /\
  (forall name its, In (name, its) acc -> its = linesFor name seen) /\
  (forall name, In name (map fst seen) -> In name (map fst acc)) /\
  Permutation (allItems acc) (map snd seen) /\
  sub = sumQ (map lineTotal (map snd seen)).

(** The breakdown entry [pb] reports the bucket [b]. *)
Definition reports (b : string * list ProviderItemGroup) (pb : ProviderBreakdown) : Prop :=
  pb_provider pb = fst b /\
  pb_itemCount pb = length (snd b) /\
  pb_subtotal pb = bucketSubtotal (snd b).

(** ** The steps of a checkout *)

(** The order [createCheckout] asks the store to create. *)
Definition checkoutOrderInput (params : CreateCheckoutParams)
    (groups : ItemsByProvider) (sub : Q) : CreateOrderInput :=
  {| co_userId := cp_userId params;
     co_items := map toOrderItem (allItems groups);
     co_totalAmount := (sub + cp_shippingCost params)%Q;
     co_currency := currency;
     co_shippingMethod := None |}.

(** The line [createCheckout] adds for shipping. *)
Definition shippingLine (shippingCost : Q) : list PaymentLineItem :=
  if Qltb 0 shippingCost
  then [ {| li_name := "Shipping"; li_description := None; li_image := None;
            li_unitAmount := Math_round (shippingCost * 100)%Q;
            li_quantity := 1 |} ]
  else [].

(** The session [createCheckout] asks the payment provider for. *)
Definition paymentRequest (params : CreateCheckoutParams) (orderId : string)
    (groups : ItemsByProvider) (sub : Q) (draftOrderIds : list (string * string))
  : CheckoutSessionInput :=
  {| cs_orderId := orderId;
     cs_amount := Math_round ((sub + cp_shippingCost params) * 100)%Q;
     cs_currency := currency;
     cs_items := map toLineItem (allItems groups) ++ shippingLine (cp_shippingCost params);
     cs_successUrl := cp_successUrl params;
     cs_cancelUrl := cp_cancelUrl params;
     cs_metadata_draftOrderIds := draftOrderIds |}.

(** The buckets a draft order is created for: all but ['manual']. *)
Definition needsDraft (b : string * list ProviderItemGroup) : bool :=
  negb (String.eqb (fst b) "manual").

(** The [createOrder] call made for a bucket. *)
Definition draftEvent (orderId : string) (address : ShippingAddress)
    (b : string * list ProviderItemGroup) : Event :=
  EvCreateOrder (fst b) (draftRequest orderId address (snd b)).

(** The entry [e] of [draftOrderIds] records the draft the bucket's
    provider created for the bucket. *)
Definition draft_of (rt : MarketplaceRuntime) (orderId : string) (address : ShippingAddress)
    (b : string * list ProviderItemGroup) (e : string * string) : Prop :=
  fst e = fst b /\
  exists provider draft,
    getProvider rt (fst b) = Some provider /\
    createOrder (fp_client provider) (draftRequest orderId address (snd b)) = Ok draft /\
    snd e = fo_id draft.

(** A call to a fulfillment provider or to the payment provider. *)
Definition isGatewayCall (e : Event) : Prop :=
  match e with
  | EvCreateOrder _ _ | EvPaymentCheckout _ => True
  | _ => False
  end.

(** The row of an order whose checkout completed. *)
Definition checkedOutRow (input : CreateOrderInput) (t : Z) (sessionId : string)
    (draftOrderIds : list (string * string)) : OrderRow :=
  withStatus draft_created t
    (withDraftOrderIds draftOrderIds t
       (withCheckout sessionId "stripe" t (newOrderRow input t))).

(** The charged amount, as the sum of the session's lines. *)
Definition linesAmount (lines : list PaymentLineItem) : Z :=
  fold_right (fun li acc => (li_unitAmount li * li_quantity li + acc)%Z) 0%Z lines.

(** The amount is a whole number of cents. *)
Definition whole_cents (x : Q) : Prop :=
  (x == cents_to_number (Math_round (x * 100)))%Q.


(** ** The sweep, order by order *)

(** The row of a swept order: its status follows the outcome of the
    cancellations, and nothing else but [updatedAt] changes. *)
Definition sweptRow (rt : MarketplaceRuntime) (order : OrderWithItems) (t : Z)
    (row : OrderRow) : OrderRow :=
  match sweepOutcome rt order with
  | NoneCancelled => row
  | oc => withStatus (statusAfterSweep draft_created oc) t row
  end.


(** The order is a stale draft of the store: ['draft_created'] and
    created before the cutoff. *)
Definition stale_draft (w : World) (maxAgeHours : Z) (row : OrderRow) : Prop :=
  row_status row = draft_created /\
  (row_createdAt row < w_clock w - maxAgeHours * 60 * 60 * 1000)%Z.

(** Why the draft order of bucket [b] could not be made, with the message
    of the failure. *)
Definition draftFailure (rt : MarketplaceRuntime) (orderId : string)
    (address : ShippingAddress) (rates : gmap string string)
    (b : string * list ProviderItemGroup) (message : string) : Prop :=
  (or_undefined (rates !! fst b) = None /\
   message = "No shipping rate selected for provider: " +:+ fst b) \/
  (fst b <> "manual" /\ getProvider rt (fst b) = None /\
   message = "Provider not configured: " +:+ fst b) \/
  (exists provider reason,
     fst b <> "manual" /\ getProvider rt (fst b) = Some provider /\
     createOrder (fp_client provider) (draftRequest orderId address (snd b)) = Err reason /\
     message = "Failed to create draft order at " +:+ fst b +:+ ": " +:+ reason).

(** Why a checkout whose order was created failed. *)
Definition failsAfterCreate (rt : MarketplaceRuntime) (params : CreateCheckoutParams)
    (orderId : string) (groups : ItemsByProvider) (sub : Q) (message : string) : Prop :=
  (exists b, In b groups /\
     draftFailure rt orderId (cp_address params) (cp_selectedRates params) b message) \/
  (getPaymentProvider rt "stripe" = None /\ message = "Payment provider not configured") \/
  (exists pp ids reason,
     getPaymentProvider rt "stripe" = Some pp /\
     pay_createCheckout (pp_client pp) (paymentRequest params orderId groups sub ids)
       = Err reason /\
     message = "Failed to create payment checkout: " +:+ reason).



(** The same checkout with other selected rates. *)
Definition withRates (params : CreateCheckoutParams) (rates : gmap string string)
  : CreateCheckoutParams :=
  {| cp_userId := cp_userId params;
     cp_items := cp_items params;
     cp_address := cp_address params;
     cp_selectedRates := rates;
     cp_shippingCost := cp_shippingCost params;
     cp_successUrl := cp_successUrl params;
     cp_cancelUrl := cp_cancelUrl params |}.

(** Both maps select a rate for the provider, or neither does. *)
Definition same_selection (rates rates' : gmap string string) (name : string) : Prop :=
  is_Some (or_undefined (rates !! name)) <-> is_Some (or_undefined (rates' !! name)).

(** ** Names *)

(** The string has no space in it. *)
Fixpoint no_space (s : string) : Prop :=
  match s with
  | EmptyString => True
  | String c rest => Ascii.eqb c space = false /\ no_space rest
  end.

(** A customer with a middle name typed into the first-name field. *)
Definition maryAnn : ShippingAddress :=
  {| companyName := None; firstName := "Mary Ann"; lastName := "Smith";
     addressLine1 := "1 Main St"; addressLine2 := None; city := "Austin";
     state := "TX"; postCode := "73301"; country := "US";
     email := "mary@example.com"; phone := None |}.

(** A poster to be printed by Gelato: its configuration names Gelato's
    product by external variant id and has no catalog product id. *)
Definition posterLine : ProviderItemGroup :=
  {| pi_item := item_poster;
     pi_productId := "poster";
     pi_variantId := None;
     pi_price := 15;
     pi_currency := "USD";
     pi_fulfillmentConfig :=
       Some {| fc_externalVariantId := Some "flat_a3_170-gsm";
               fc_externalProductId := None;
               fc_designFiles :=
                 Some [ {| df_placement := "default"; df_url := "https://img/poster.png" |} ];
               fc_catalogProductId := None; fc_catalogVariantId := None |};
     pi_productTitle := "Poster";
     pi_productDescription := None;
     pi_productImage := None;
     pi_fulfillmentProvider := "gelato" |}.

(** ** Webhooks *)

(** A stand-in for HMAC-SHA256 in examples: 64 hexadecimal digits that
    depend on nothing. *)
Definition constantDigest (key body : string) : string :=
  "0000000000000000000000000000000000000000000000000000000000000000".

(** ** When a checkout completes *)

(** * Properties *)

(** ** Effects *)

Section Effects.
Context {A B : Type}.
Implicit Types (m : M A) (k : A -> M B).

Lemma bind_Ok m k w a w1 : m w = (Ok a, w1) -> bind m k w = k a w1.
Proof. intros H. unfold bind. now rewrite H. Qed.

Lemma bind_Err m k w e w1 : m w = (Err e, w1) -> bind m k w = (Err e, w1).
Proof. intros H. unfold bind. now rewrite H. Qed.

Lemma bind_inv_Ok m k w b w2 :
  bind m k w = (Ok b, w2) ->
  exists a w1, m w = (Ok a, w1) /\ k a w1 = (Ok b, w2).
Proof.
  unfold bind. destruct (m w) as [[a|e] w1]; intros H.
  - now exists a, w1.
  - discriminate.
Qed.

Lemma bind_inv_Err m k w e w2 :
  bind m k w = (Err e, w2) ->
  m w = (Err e, w2) \/ exists a w1, m w = (Ok a, w1) /\ k a w1 = (Err e, w2).
Proof.
  unfold bind. destruct (m w) as [[a|e'] w1]; intros H.
  - right. now exists a, w1.
  - left. injection H as -> ->. reflexivity.
Qed.
End Effects.

(** ** Numbers *)

Lemma Qltb_lt a b : Qltb a b = true <-> (a < b)%Q.
Proof.
  unfold Qltb. rewrite Qlt_alt. destruct (a ?= b)%Q; split; congruence.
Qed.

Lemma Qltb_ge a b : Qltb a b = false -> (b <= a)%Q.
Proof.
  intros H. apply Qnot_lt_le. intros Hlt. apply Qltb_lt in Hlt. congruence.
Qed.

Lemma Qplus_zero_r (x : Q) : (x + 0)%Q = x.
Proof.
  destruct x as [n d]. unfold Qplus. cbn [Qnum Qden].
  now rewrite Z.mul_1_r, Z.add_0_r, Pos.mul_1_r.
Qed.

Lemma Math_round_cents x c : (x == inject_Z c / 100)%Q -> Math_round (x * 100)%Q = c.
Proof.
  intros H. unfold Math_round.
  assert (E : (x * 100 + (1 # 2) == inject_Z c + (1 # 2))%Q) by (rewrite H; field).
  rewrite (Qfloor_comp _ _ E). unfold Qfloor, Qplus, inject_Z. cbn [Qnum Qden].
  rewrite Pos.mul_1_l, Z.mul_1_l.
  change (Z.pos 2) with 2%Z. change (Z.pos 1) with 1%Z.
  rewrite Z.div_add_l by lia. change (1 / 2)%Z with 0%Z. lia.
Qed.

Lemma sumQ_snoc l x : sumQ (l ++ [x]) = (sumQ l + x)%Q.
Proof. unfold sumQ. now rewrite fold_left_app. Qed.

(** ** The grouping loop *)

Lemma groupItems_world items : forall acc sub w,
  snd (groupItems items acc sub w) = w.
Proof.
  induction items as [|item rest IH]; intros acc sub w; cbn [groupItems].
  - reflexivity.
  - unfold bind, productStore_find.
    destruct (w_products w !! productId item) as [product|]; [apply IH | reflexivity].
Qed.

Lemma groupItems_run items acc sub w r w' :
  groupItems items acc sub w = (r, w') -> w' = w.
Proof. intros H. rewrite <- (groupItems_world items acc sub w). now rewrite H. Qed.

(** ** The quote loop *)

Lemma quoteProvider_inv_Ok rt address acc name its w acc' w' :
  quoteProvider rt address acc name its w = (Ok acc', w') ->
  (getProvider rt name = None /\ name = "manual" /\
   acc' = addManualBucket acc its /\ w' = w) \/
  (exists provider result first others,
     getProvider rt name = Some provider /\
     quoteOrder (fp_client provider) (quoteRequest address its) = Ok result /\
     default [] (sqo_rates result) = first :: others /\
     acc' = addQuotedBucket acc name its first others).
Proof.
  unfold quoteProvider. destruct (getProvider rt name) as [provider|] eqn:Hp.
  - intros H. apply bind_inv_Ok in H as (u & w1 & _ & H).
    destruct (quoteOrder (fp_client provider) (quoteRequest address its)) as [result|e] eqn:Hq;
      [|discriminate].
    destruct (default [] (sqo_rates result)) as [|first others] eqn:Hr; [discriminate|].
    injection H as <- _. right. exists provider, result, first, others. auto.
  - destruct (String.eqb name "manual") eqn:Hm; [|discriminate].
    intros H. injection H as <- <-. left. apply String.eqb_eq in Hm. auto.
Qed.

(** A property of the loop variables that every iteration keeps holds
    after the loop. *)
Lemma quoteProviders_invariant (P : QuoteAcc -> Prop) rt address :
  (forall acc name its w acc' w',
     P acc -> quoteProvider rt address acc name its w = (Ok acc', w') -> P acc') ->
  forall buckets acc w acc' w',
    P acc -> quoteProviders rt address buckets acc w = (Ok acc', w') -> P acc'.
Proof.
  intros Hstep. induction buckets as [|[name its] rest IH]; intros acc w acc' w' HP H.
  - injection H as <- _. exact HP.
  - cbn [quoteProviders] in H. apply bind_inv_Ok in H as (acc1 & w1 & H1 & H2).
    eapply IH; [|exact H2]. eapply Hstep; eauto.
Qed.

Lemma getQuote_inv_Ok rt items address w q w' :
  getQuote rt items address w = (Ok q, w') ->
  exists groups sub acc,
    groupItems items [] 0%Q w = (Ok (groups, sub), w) /\
    quoteProviders rt address groups quoteAcc0 w = (Ok acc, w') /\
    q = {| q_subtotal := sub;
           q_shippingCost := totalShippingCost acc;
           q_total := (sub + totalShippingCost acc)%Q;
           q_currency := currency;
           q_providerBreakdown := providerBreakdown acc;
           q_estimatedDelivery :=
             match minDeliveryDays acc, maxDeliveryDays acc with
             | Some lo, Some hi => Some {| minDays := lo; maxDays := hi |}
             | _, _ => None
             end |}.
Proof.
  unfold getQuote. intros H.
  apply bind_inv_Ok in H as ([groups sub] & w1 & Hg & H).
  pose proof (groupItems_run _ _ _ _ _ _ Hg) as ->.
  apply bind_inv_Ok in H as (acc & w2 & Hq & H).
  injection H as <- <-. exists groups, sub, acc. auto.
Qed.

(** *** Totals *)

Lemma totals_agree_step rt address acc name its w acc' w' :
  totals_agree rt acc ->
  quoteProvider rt address acc name its w = (Ok acc', w') ->
  totals_agree rt acc'.
Proof.
  intros [Hsum Hman] H. apply quoteProvider_inv_Ok in H
    as [(Hp & -> & -> & _) | (provider & result & first & others & Hp & _ & _ & ->)].
  - split; unfold addManualBucket; cbn [providerBreakdown totalShippingCost].
    + rewrite map_app. cbn [map]. rewrite sumQ_snoc.
      cbn [selectedCost pb_selectedShipping].
      change (so_shippingCost manualShipping) with 0%Q.
      now rewrite Qplus_zero_r.
    + intros Hnone b Hb Hname. apply in_app_or in Hb as [Hb|[<-|[]]]; [auto|reflexivity].
  - split; unfold addQuotedBucket; cbn [providerBreakdown totalShippingCost].
    + rewrite map_app. cbn [map]. rewrite sumQ_snoc.
      unfold selectedCost at 2. cbn [pb_selectedShipping toShippingOption so_shippingCost].
      now rewrite Hsum.
    + intros Hnone b Hb Hname. apply in_app_or in Hb as [Hb|[<-|[]]]; [auto|].
      cbn in Hname. subst name. congruence.
Qed.

(** C2. A successful quote has [total = subtotal + shippingCost], and
    [shippingCost] is the sum of the selected rates' costs over the
    breakdown, to which a ['manual'] bucket contributes zero. *)
Theorem quote_totals rt items address w q w' :
  getQuote rt items address w = (Ok q, w') ->
  q_total q = (q_subtotal q + q_shippingCost q)%Q /\
  q_shippingCost q = sumQ (map selectedCost (q_providerBreakdown q)) /\
  (getProvider rt "manual" = None ->
   forall b, In b (q_providerBreakdown q) -> pb_provider b = "manual" ->
             selectedCost b = 0%Q).
Proof.
  intros H. apply getQuote_inv_Ok in H as (groups & sub & acc & _ & Hq & ->).
  cbn [q_total q_subtotal q_shippingCost q_providerBreakdown].
  split; [reflexivity|].
  apply (quoteProviders_invariant (totals_agree rt) rt address
           (totals_agree_step rt address) groups quoteAcc0 w acc w'); [|exact Hq].
  split; [reflexivity|]. intros _ b [].
Qed.

Lemma quote_totals_witness :
  exists q w',
    getQuote rtPrintful [item_mug2; item_tee] sampleAddress shop = (Ok q, w') /\
    q_total q = (q_subtotal q + q_shippingCost q)%Q /\
    q_shippingCost q = sumQ (map selectedCost (q_providerBreakdown q)).
Proof.
  eexists _, _. split; [vm_compute; reflexivity|].
  pose proof (quote_totals rtPrintful [item_mug2; item_tee] sampleAddress shop _ _
                ltac:(vm_compute; reflexivity)) as (H1 & H2 & _).
  split; [exact H1 | exact H2].
Defined.

(** *** The cheapest rate *)

Lemma cheapestRate_spec others : forall first,
  In (cheapestRate first others) (first :: others) /\
  forall r, In r (first :: others) ->
            (r_rate (cheapestRate first others) <= r_rate r)%Q.
Proof.
  induction others as [|r rest IH]; intros first.
  - cbn. split; [auto|]. intros r [<-|[]]. apply Qle_refl.
  - change (cheapestRate first (r :: rest))
      with (cheapestRate (if Qltb (r_rate r) (r_rate first) then r else first) rest).
    destruct (IH (if Qltb (r_rate r) (r_rate first) then r else first)) as [Hin Hle].
    split.
    + destruct Hin as [Hin|Hin]; [|right; right; exact Hin].
      rewrite <- Hin. destruct (Qltb (r_rate r) (r_rate first)); [right; left|left]; reflexivity.
    + intros x [<-|[<-|Hx]].
      * eapply Qle_trans; [apply Hle; left; reflexivity|].
        destruct (Qltb (r_rate r) (r_rate first)) eqn:Hlt; [|apply Qle_refl].
        apply Qlt_le_weak, Qltb_lt, Hlt.
      * eapply Qle_trans; [apply Hle; left; reflexivity|].
        destruct (Qltb (r_rate r) (r_rate first)) eqn:Hlt; [apply Qle_refl|].
        apply Qltb_ge, Hlt.
      * apply Hle. right. exact Hx.
Qed.

Lemma cheapest_selected_step rt address acc name its w acc' w' :
  Forall cheapest_selected (providerBreakdown acc) ->
  quoteProvider rt address acc name its w = (Ok acc', w') ->
  Forall cheapest_selected (providerBreakdown acc').
Proof.
  intros Hall H. apply quoteProvider_inv_Ok in H
    as [(_ & _ & -> & _) | (provider & result & first & others & _ & _ & _ & ->)];
    cbn [addManualBucket addQuotedBucket providerBreakdown];
    apply Forall_app; (split; [exact Hall|]); apply Forall_cons; (split; [|constructor]).
  - split; cbn; [auto|]. intros r [<-|[]]. apply Qle_refl.
  - destruct (cheapestRate_spec others first) as [Hin Hle].
    split; cbn [pb_selectedShipping pb_availableRates].
    + apply in_map, Hin.
    + intros r Hr. apply in_map_iff in Hr as (x & <- & Hx).
      unfold selectedCost. cbn. apply Hle, Hx.
Qed.

Lemma groupItems_cons item rest acc sub w product :
  w_products w !! productId item = Some product ->
  groupItems (item :: rest) acc sub w =
  groupItems rest
    (map_push (providerOf product) (resolveItem item product)
       (if map_has acc (providerOf product) then acc
        else acc ++ [(providerOf product, [])]))
    (sub + unitPriceOf item product * inject_Z (quantity item))%Q w.
Proof.
  intros H. cbn [groupItems]. unfold bind, productStore_find. now rewrite H.
Qed.

Lemma groupItems_cons_missing item rest acc sub w :
  w_products w !! productId item = None ->
  groupItems (item :: rest) acc sub w =
  (Err ("Product not found: " +:+ productId item), w).
Proof.
  intros H. cbn [groupItems]. unfold bind, productStore_find. now rewrite H.
Qed.

Lemma quoteProviders_answered rt address buckets : forall acc w acc' w',
  quoteProviders rt address buckets acc w = (Ok acc', w') ->
  exists new,
    providerBreakdown acc' = providerBreakdown acc ++ new /\
    Forall2 (answered_by rt address) buckets new.
Proof.
  induction buckets as [|[name its] rest IH]; intros acc w acc' w' H.
  - injection H as <- _. exists []. split; [now rewrite app_nil_r | constructor].
  - cbn [quoteProviders] in H. apply bind_inv_Ok in H as (acc1 & w1 & H1 & H2).
    apply IH in H2 as (new & Hbd & Hall).
    apply quoteProvider_inv_Ok in H1
      as [(Hp & -> & -> & _)|(provider & result & first & others & Hp & Hq & Hr & ->)];
      cbn [addManualBucket addQuotedBucket providerBreakdown] in Hbd;
      rewrite <- app_assoc in Hbd; cbn [app] in Hbd;
      eexists; (split; [exact Hbd|]); (constructor; [|exact Hall]);
      (split; [reflexivity|]); cbn [fst snd pb_availableRates pb_selectedShipping].
    + left. auto.
    + right. destruct (cheapestRate_spec others first) as [Hin Hle].
      exists provider, result, (cheapestRate first others). rewrite Hr. auto 10.
Qed.

Lemma getQuote_answered rt items address w q w' :
  getQuote rt items address w = (Ok q, w') ->
  Forall2 (answered_by rt address) (bucketsOf w items) (q_providerBreakdown q).
Proof.
  intros H. apply getQuote_inv_Ok in H as (groups & sub & acc & Hg & Hq & ->).
  unfold bucketsOf. rewrite Hg. cbn [fst q_providerBreakdown].
  apply quoteProviders_answered in Hq as (new & Hbd & Hall).
  cbn [quoteAcc0 providerBreakdown app] in Hbd. now rewrite Hbd.
Qed.

Lemma Forall2_In_left {A B} (P : A -> B -> Prop) l l' x :
  Forall2 P l l' -> In x l -> exists y, In y l' /\ P x y.
Proof.
  induction 1 as [|a b l l' Hab _ IH]; intros Hin; [destruct Hin|].
  destruct Hin as [->|Hin].
  - exists b. split; [now left | exact Hab].
  - destruct (IH Hin) as (y & Hy & HP). exists y. split; [now right | exact HP].
Qed.

(** C3. In every entry of a successful quote's breakdown the selected
    rate is one of the available rates and no available rate is cheaper.
    The available rates are what the bucket's provider answered: for
    every bucket of the cart, in order, the entry lists the rates the
    provider's [quoteOrder] returned for that bucket, all of them, and
    the selected rate is one of least cost among them (the manual rate
    for the ['manual'] bucket).  So whatever the provider and the cart, a
    bucket whose provider returns r1 at 5 and r2 at 8, in either order,
    selects r1 at cost 5; when it is the cart's only bucket, the quote's
    shipping cost is 5. *)
Theorem selected_rate_is_cheapest :
  (forall rt items address w q w',
     getQuote rt items address w = (Ok q, w') ->
     forall b, In b (q_providerBreakdown q) ->
       In (pb_selectedShipping b) (pb_availableRates b) /\
       forall r, In r (pb_availableRates b) ->
                 (so_shippingCost (pb_selectedShipping b) <= so_shippingCost r)%Q) /\
  (forall rt items address w q w',
     getQuote rt items address w = (Ok q, w') ->
     Forall2 (answered_by rt address) (bucketsOf w items) (q_providerBreakdown q)) /\
  (forall rt items address w q w' bucket provider result r1 r2,
     getQuote rt items address w = (Ok q, w') ->
     In bucket (bucketsOf w items) ->
     getProvider rt (fst bucket) = Some provider ->
     quoteOrder (fp_client provider) (quoteRequest address (snd bucket)) = Ok result ->
     default [] (sqo_rates result) = [r1; r2] \/
     default [] (sqo_rates result) = [r2; r1] ->
     r_id r1 = "r1" -> r_rate r1 = 5%Q -> r_id r2 = "r2" -> r_rate r2 = 8%Q ->
     exists b,
       In b (q_providerBreakdown q) /\
       pb_provider b = fst bucket /\
       pb_selectedShipping b = toShippingOption (fst bucket) r1 /\
       so_rateId (pb_selectedShipping b) = "r1" /\
       so_shippingCost (pb_selectedShipping b) = 5%Q) /\
  (forall rt item product provider result address w r1 r2,
     w_products w !! productId item = Some product ->
     getProvider rt (providerOf product) = Some provider ->
     quoteOrder (fp_client provider) (quoteRequest address [resolveItem item product])
       = Ok result ->
     default [] (sqo_rates result) = [r1; r2] \/
     default [] (sqo_rates result) = [r2; r1] ->
     r_id r1 = "r1" -> r_rate r1 = 5%Q -> r_id r2 = "r2" -> r_rate r2 = 8%Q ->
     exists q w' b,
       getQuote rt [item] address w = (Ok q, w') /\
       q_providerBreakdown q = [b] /\
       pb_provider b = providerOf product /\
       so_rateId (pb_selectedShipping b) = "r1" /\
       so_shippingCost (pb_selectedShipping b) = 5%Q /\
       q_shippingCost q = 5%Q).
Proof.
  split; [|split; [|split]].
  - intros rt items address w q w' H b Hb.
    apply getQuote_inv_Ok in H as (groups & sub & acc & _ & Hq & ->).
    cbn [q_providerBreakdown] in Hb.
    assert (Hall : Forall cheapest_selected (providerBreakdown acc)).
    { apply (quoteProviders_invariant
               (fun a => Forall cheapest_selected (providerBreakdown a)) rt address
               (cheapest_selected_step rt address) groups quoteAcc0 w acc w');
        [constructor | exact Hq]. }
    rewrite Forall_forall in Hall. apply Hall. now apply list_elem_of_In.
  - intros rt items address w q w'. apply getQuote_answered.
  - intros rt items address w q w' bucket provider result r1 r2
           H Hb Hp Hquote Hrates Hid1 Hrate1 Hid2 Hrate2.
    apply getQuote_answered in H.
    destruct (Forall2_In_left _ _ _ _ H Hb) as (b & Hin & Hname & Hans).
    exists b. split; [exact Hin|]. split; [exact Hname|].
    destruct Hans as [(Hm & Hnone & _)|(p' & res' & rate & Hp' & Hq' & _ & Hrin & Hsel & Hle)].
    { rewrite Hm in Hp. congruence. }
    assert (p' = provider) as -> by congruence.
    assert (res' = result) as -> by congruence.
    assert (rate = r1) as ->.
    { assert (Hr1 : In r1 (default [] (sqo_rates result)))
        by (destruct Hrates as [-> | ->]; cbn; auto).
      specialize (Hle r1 Hr1). rewrite Hrate1 in Hle.
      assert (Hcases : rate = r1 \/ rate = r2)
        by (destruct Hrates as [E|E]; rewrite E in Hrin; cbn in Hrin; intuition auto).
      destruct Hcases as [->| ->]; [reflexivity|].
      rewrite Hrate2 in Hle. now apply Qle_bool_iff in Hle. }
    rewrite Hsel. cbn [toShippingOption so_rateId so_shippingCost]. auto.
  - intros rt item product provider result address w r1 r2
           Hfind Hp Hquote Hrates Hid1 Hrate1 Hid2 Hrate2.
    unfold getQuote. rewrite (bind_Ok _ _ _ _ _ (groupItems_cons _ [] [] 0%Q _ _ Hfind)).
    cbn [map_has app map_push fst snd groupItems ret].
    rewrite String.eqb_refl. cbn [app quoteProviders].
    unfold quoteProvider, bind at 2. rewrite Hp.
    unfold bind at 2. cbn [emit]. rewrite Hquote.
    assert (Hsel : exists others first,
              default [] (sqo_rates result) = first :: others /\
              cheapestRate first others = r1).
    { destruct Hrates as [E|E]; rewrite E; eexists _, _; (split; [reflexivity|]);
        unfold cheapestRate; cbn [fold_left]; now rewrite Hrate1, Hrate2. }
    destruct Hsel as (others & first & -> & Hsel).
    unfold bind. cbn [ret].
    eexists _, _, _. split; [reflexivity|].
    split; [reflexivity|].
    cbn [q_shippingCost totalShippingCost addQuotedBucket quoteAcc0 pb_provider
         pb_selectedShipping toShippingOption so_rateId so_shippingCost].
    rewrite Hsel, Hid1, Hrate1. repeat split; reflexivity.
Qed.

Lemma selected_rate_is_cheapest_witness :
  exists q w' b,
    getQuote (createMarketplaceRuntime (Some printfulDearFirst) None (Some stripeUp))
      [item_mug2; item_tee] sampleAddress shop = (Ok q, w') /\
    In b (q_providerBreakdown q) /\
    pb_provider b = "printful" /\
    so_rateId (pb_selectedShipping b) = "r1" /\
    so_shippingCost (pb_selectedShipping b) = 5%Q.
Proof.
  destruct (proj1 (proj2 (proj2 selected_rate_is_cheapest))
              (createMarketplaceRuntime (Some printfulDearFirst) None (Some stripeUp))
              [item_mug2; item_tee] sampleAddress shop
              (match fst (getQuote
                            (createMarketplaceRuntime (Some printfulDearFirst) None
                                                      (Some stripeUp))
                            [item_mug2; item_tee] sampleAddress shop) with
               | Ok q => q
               | Err _ =>
                   {| q_subtotal := 0; q_shippingCost := 0; q_total := 0;
                      q_currency := currency; q_providerBreakdown := [];
                      q_estimatedDelivery := None |}
               end)
              (snd (getQuote
                      (createMarketplaceRuntime (Some printfulDearFirst) None (Some stripeUp))
                      [item_mug2; item_tee] sampleAddress shop))
              ("printful", [resolveItem item_tee tee])
              {| fp_name := "printful"; fp_client := printfulDearFirst |}
              {| sqo_rates := Some [rate_r2; rate_r1] |} rate_r1 rate_r2
              ltac:(vm_compute; reflexivity) ltac:(vm_compute; auto)
              ltac:(reflexivity) ltac:(reflexivity) ltac:(right; reflexivity)
              ltac:(reflexivity) ltac:(reflexivity) ltac:(reflexivity) ltac:(reflexivity))
    as (b & Hin & Hname & _ & Hid & Hcost).
  eexists _, _, b. split; [vm_compute; reflexivity|].
  split; [exact Hin|]. split; [exact Hname|]. split; [exact Hid | exact Hcost].
Defined.

(** *** The delivery estimate *)

Lemma fold_lowerTo_Some l : forall c,
  exists m, fold_left lowerTo l (Some c) = Some m /\ is_minimum m (c :: l).
Proof.
  induction l as [|a l IH]; intros c.
  - exists c. split; [reflexivity|]. split; [left; reflexivity|].
    intros d [<-|[]]. apply Qle_refl.
  - cbn [fold_left lowerTo].
    assert (Hc : exists c', (if Qltb a c then Some a else Some c) = Some c' /\
                            (c' = a \/ c' = c) /\ (c' <= a)%Q /\ (c' <= c)%Q).
    { destruct (Qltb a c) eqn:Hlt.
      - exists a. repeat split; auto using Qle_refl. apply Qlt_le_weak, Qltb_lt, Hlt.
      - exists c. repeat split; auto using Qle_refl. apply Qltb_ge, Hlt. }
    destruct Hc as (c' & -> & Hc' & Hca & Hcc).
    destruct (IH c') as (m & Hm & Hin & Hle). exists m. split; [exact Hm|]. split.
    + destruct Hin as [<-|Hin]; [|right; right; exact Hin].
      destruct Hc' as [->| ->]; [right; left|left]; reflexivity.
    + assert (Hmc : (m <= c')%Q) by (apply Hle; left; reflexivity).
      intros d [<-|[<-|Hd]].
      * eapply Qle_trans; eauto.
      * eapply Qle_trans; eauto.
      * apply Hle. right. exact Hd.
Qed.

Lemma fold_raiseTo_Some l : forall c,
  exists m, fold_left raiseTo l (Some c) = Some m /\ is_maximum m (c :: l).
Proof.
  induction l as [|a l IH]; intros c.
  - exists c. split; [reflexivity|]. split; [left; reflexivity|].
    intros d [<-|[]]. apply Qle_refl.
  - cbn [fold_left raiseTo].
    assert (Hc : exists c', (if Qltb c a then Some a else Some c) = Some c' /\
                            (c' = a \/ c' = c) /\ (a <= c')%Q /\ (c <= c')%Q).
    { destruct (Qltb c a) eqn:Hlt.
      - exists a. repeat split; auto using Qle_refl. apply Qlt_le_weak, Qltb_lt, Hlt.
      - exists c. repeat split; auto using Qle_refl. apply Qltb_ge, Hlt. }
    destruct Hc as (c' & -> & Hc' & Hca & Hcc).
    destruct (IH c') as (m & Hm & Hin & Hle). exists m. split; [exact Hm|]. split.
    + destruct Hin as [<-|Hin]; [|right; right; exact Hin].
      destruct Hc' as [->| ->]; [right; left|left]; reflexivity.
    + assert (Hmc : (c' <= m)%Q) by (apply Hle; left; reflexivity).
      intros d [<-|[<-|Hd]].
      * eapply Qle_trans; eauto.
      * eapply Qle_trans; eauto.
      * apply Hle. right. exact Hd.
Qed.

Lemma fold_lowerTo_spec l :
  (fold_left lowerTo l None = None <-> l = []) /\
  (forall m, fold_left lowerTo l None = Some m -> is_minimum m l).
Proof.
  destruct l as [|c l]; cbn [fold_left lowerTo].
  - split; [tauto|]. discriminate.
  - destruct (fold_lowerTo_Some l c) as (m & Hm & Hmin). rewrite Hm. split.
    + split; discriminate.
    + intros m' [= <-]. exact Hmin.
Qed.

Lemma fold_raiseTo_spec l :
  (fold_left raiseTo l None = None <-> l = []) /\
  (forall m, fold_left raiseTo l None = Some m -> is_maximum m l).
Proof.
  destruct l as [|c l]; cbn [fold_left raiseTo].
  - split; [tauto|]. discriminate.
  - destruct (fold_raiseTo_Some l c) as (m & Hm & Hmax). rewrite Hm. split.
    + split; discriminate.
    + intros m' [= <-]. exact Hmax.
Qed.

Lemma days_agree_step rt address acc name its w acc' w' :
  days_agree acc ->
  quoteProvider rt address acc name its w = (Ok acc', w') ->
  days_agree acc'.
Proof.
  intros [Hmin Hmax] H. apply quoteProvider_inv_Ok in H
    as [(_ & _ & -> & _) | (provider & result & first & others & _ & _ & _ & ->)];
    unfold days_agree, reportedMinDays, reportedMaxDays;
    cbn [addManualBucket addQuotedBucket providerBreakdown minDeliveryDays maxDeliveryDays];
    rewrite !omap_app, !fold_left_app; fold (reportedMinDays (providerBreakdown acc));
    fold (reportedMaxDays (providerBreakdown acc)); rewrite <- Hmin, <- Hmax.
  - split; reflexivity.
  - cbn [omap list_omap pb_selectedShipping toShippingOption
         so_minDeliveryDays so_maxDeliveryDays].
    split.
    + destruct (r_minDeliveryDays (cheapestRate first others)); reflexivity.
    + destruct (r_maxDeliveryDays (cheapestRate first others)); reflexivity.
Qed.

(** C9, as the code has it.  The estimate of a successful quote is
    absent exactly when no bucket's selected rate reported a lower day
    bound or none reported an upper one; when present, its lower end is
    the least reported lower bound and its upper end the greatest reported
    upper bound. *)
Theorem delivery_estimate_window rt items address w q w' :
  getQuote rt items address w = (Ok q, w') ->
  (q_estimatedDelivery q = None <->
   reportedMinDays (q_providerBreakdown q) = [] \/
   reportedMaxDays (q_providerBreakdown q) = []) /\
  (forall e, q_estimatedDelivery q = Some e ->
     is_minimum (minDays e) (reportedMinDays (q_providerBreakdown q)) /\
     is_maximum (maxDays e) (reportedMaxDays (q_providerBreakdown q))).
Proof.
  intros H. apply getQuote_inv_Ok in H as (groups & sub & acc & _ & Hq & ->).
  cbn [q_estimatedDelivery q_providerBreakdown].
  assert (Hd : days_agree acc).
  { apply (quoteProviders_invariant days_agree rt address (days_agree_step rt address)
             groups quoteAcc0 w acc w'); [split; reflexivity | exact Hq]. }
  destruct Hd as [Hmin Hmax].
  destruct (fold_lowerTo_spec (reportedMinDays (providerBreakdown acc))) as [Hn1 Hs1].
  destruct (fold_raiseTo_spec (reportedMaxDays (providerBreakdown acc))) as [Hn2 Hs2].
  rewrite <- Hmin in Hn1, Hs1. rewrite <- Hmax in Hn2, Hs2.
  destruct (minDeliveryDays acc) as [lo|], (maxDeliveryDays acc) as [hi|].
  - split.
    + split; [discriminate|]. intros [E|E]; [apply Hn1 in E|apply Hn2 in E]; discriminate.
    + intros e [= <-]. cbn. auto.
  - split; [|discriminate]. split; [|reflexivity]. intros _. right. now apply Hn2.
  - split; [|discriminate]. split; [|reflexivity]. intros _. left. now apply Hn1.
  - split; [|discriminate]. split; [|reflexivity]. intros _. left. now apply Hn1.
Qed.

Lemma delivery_estimate_window_witness :
  exists q w',
    getQuote rtPrintful [item_mug2; item_tee] sampleAddress shop = (Ok q, w') /\
    q_estimatedDelivery q = Some {| minDays := 5; maxDays := 10 |} /\
    is_minimum 5 (reportedMinDays (q_providerBreakdown q)) /\
    is_maximum 10 (reportedMaxDays (q_providerBreakdown q)).
Proof.
  eexists _, _. split; [vm_compute; reflexivity|]. split; [reflexivity|].
  exact (proj2 (delivery_estimate_window rtPrintful [item_mug2; item_tee] sampleAddress shop
                  _ _ ltac:(vm_compute; reflexivity)) _ eq_refl).
Defined.

(** Where the presence of the estimate differs from the specification's
    wording: the only bucket reports a lower bound of 3 days and no upper
    bound, and the quote carries no estimate. *)
Lemma estimate_absent_despite_bound :
  exists q w',
    getQuote (createMarketplaceRuntime (Some printfulMinOnly) None None)
             [item_tee] sampleAddress shop = (Ok q, w') /\
    reportedMinDays (q_providerBreakdown q) = [3%Q] /\
    q_estimatedDelivery q = None /\
    ~ estimate_present_as_claimed q.
Proof.
  eexists _, _. split; [vm_compute; reflexivity|].
  split; [reflexivity|]. split; [reflexivity|].
  intros H. apply H; [left; discriminate | reflexivity].
Qed.

(** ** Failure of a quote *)

Lemma groupItems_Err_iff items : forall acc sub w,
  (exists message, groupItems items acc sub w = (Err message, w)) <->
  productMissing w items.
Proof.
  induction items as [|item rest IH]; intros acc sub w.
  - split; [intros [m H]; discriminate | intros (i & [] & _)].
  - destruct (w_products w !! productId item) as [product|] eqn:Hfind.
    + rewrite (groupItems_cons _ _ _ _ _ _ Hfind), IH. split.
      * intros (i & Hi & Hn). exists i. split; [right; exact Hi | exact Hn].
      * intros (i & [<-|Hi] & Hn); [congruence|]. now exists i.
    + rewrite (groupItems_cons_missing _ _ _ _ _ Hfind). split.
      * intros _. exists item. split; [left; reflexivity | exact Hfind].
      * intros _. eexists. reflexivity.
Qed.

Lemma groupItems_cases items acc sub w :
  (exists grouped, groupItems items acc sub w = (Ok grouped, w)) \/
  (exists message, groupItems items acc sub w = (Err message, w)).
Proof.
  destruct (groupItems items acc sub w) as [[g|m] w1] eqn:H;
    pose proof (groupItems_run _ _ _ _ _ _ H) as ->; eauto.
Qed.

Lemma quoteProvider_Err_iff rt address acc name its w :
  (exists message w', quoteProvider rt address acc name its w = (Err message, w')) <->
  bucketFails rt address (name, its).
Proof.
  unfold bucketFails, providerNotConfigured, quoteCallFails, noRatesReturned, quoteProvider.
  cbn [fst snd].
  destruct (getProvider rt name) as [provider|] eqn:Hp.
  - unfold bind at 1. cbn [emit].
    destruct (quoteOrder (fp_client provider) (quoteRequest address its)) as [result|e] eqn:Hq.
    + destruct (default [] (sqo_rates result)) as [|first others] eqn:Hr.
      * split; [|intros _; eexists _, _; reflexivity].
        intros _. right. right. exists provider, result. auto.
      * split; [intros (m & w' & H); discriminate|].
        intros [[H _]|[(p & m & H & H')|(p & r & H & H' & H'')]]; try discriminate.
        -- injection H as <-. congruence.
        -- injection H as <-. rewrite Hq in H'. injection H' as <-. congruence.
    + split; [|intros _; eexists _, _; reflexivity].
      intros _. right. left. exists provider, e. auto.
  - destruct (String.eqb name "manual") eqn:Hm.
    + apply String.eqb_eq in Hm. split; [intros (m & w' & H); discriminate|].
      intros [[_ H]|[(p & m & H & _)|(p & r & H & _)]]; [contradiction|discriminate..].
    + apply String.eqb_neq in Hm. split; [|intros _; eexists _, _; reflexivity].
      intros _. left. auto.
Qed.

Lemma quoteProvider_cases rt address acc name its w :
  (exists acc' w', quoteProvider rt address acc name its w = (Ok acc', w')) \/
  (exists message w', quoteProvider rt address acc name its w = (Err message, w')).
Proof. destruct (quoteProvider rt address acc name its w) as [[a|m] w1]; eauto. Qed.

Lemma quoteProviders_Err_iff rt address buckets : forall acc w,
  (exists message w', quoteProviders rt address buckets acc w = (Err message, w')) <->
  exists bucket, In bucket buckets /\ bucketFails rt address bucket.
Proof.
  induction buckets as [|[name its] rest IH]; intros acc w.
  - split; [intros (m & w' & H); discriminate | intros (b & [] & _)].
  - cbn [quoteProviders].
    destruct (quoteProvider_cases rt address acc name its w)
      as [(acc1 & w1 & H1)|(m1 & w1 & H1)].
    + rewrite (bind_Ok _ _ _ _ _ H1), IH. split.
      * intros (b & Hb & Hf). exists b. split; [right; exact Hb | exact Hf].
      * intros (b & [<-|Hb] & Hf); [|now exists b].
        apply quoteProvider_Err_iff with (acc := acc) (w := w) in Hf as (m & w' & Hf).
        congruence.
    + rewrite (bind_Err _ _ _ _ _ H1). split.
      * intros _. exists (name, its). split; [left; reflexivity|].
        apply (quoteProvider_Err_iff rt address acc name its w). eauto.
      * intros _. eauto.
Qed.


Lemma quoteFails_iff rt items address w :
  quoteFails rt items address w <->
  productMissing w items \/
  exists bucket, In bucket (bucketsOf w items) /\ bucketFails rt address bucket.
Proof.
  unfold quoteFails, getQuote, bucketsOf.
  destruct (groupItems_cases items [] 0%Q w) as [([groups sub] & Hg)|(m & Hg)].
  - rewrite (bind_Ok _ _ _ _ _ Hg), Hg. cbn [fst snd].
    assert (Hno : ~ productMissing w items).
    { intros Hm. apply (groupItems_Err_iff items [] 0%Q w) in Hm as (m & Hm). congruence. }
    rewrite <- (quoteProviders_Err_iff rt address groups quoteAcc0 w).
    destruct (quoteProviders rt address groups quoteAcc0 w) as [[acc|m] w1] eqn:Hq.
    + rewrite (bind_Ok _ _ _ _ _ Hq). split.
      * intros (m & w' & H). discriminate.
      * intros [Hm|(m & w' & H)]; [contradiction|discriminate].
    + rewrite (bind_Err _ _ _ _ _ Hq). split; eauto.
  - rewrite (bind_Err _ _ _ _ _ Hg). split; [|eauto].
    intros _. left. apply (groupItems_Err_iff items [] 0%Q w). eauto.
Qed.




(** ** Carts of locally fulfilled items *)

Lemma manual_never_configured printful gelato stripe :
  getProvider (createMarketplaceRuntime printful gelato stripe) "manual" = None.
Proof. destruct printful, gelato; reflexivity. Qed.

Lemma groupItems_manual_acc items : forall l sub w,
  (forall item, In item items ->
     exists product, w_products w !! productId item = Some product /\
                     providerOf product = "manual") ->
  exists entries sub',
    groupItems items [("manual", l)] sub w = (Ok ([("manual", entries)], sub'), w) /\
    length entries = (length l + length items)%nat.
Proof.
  induction items as [|item rest IH]; intros l sub w Hall.
  - exists l, sub. split; [reflexivity|]. cbn. lia.
  - destruct (Hall item (or_introl eq_refl)) as (product & Hfind & Hprov).
    rewrite (groupItems_cons _ _ _ _ _ _ Hfind), Hprov.
    cbn [map_has map_push String.eqb Ascii.eqb Bool.eqb].
    destruct (IH (l ++ [resolveItem item product])
                 (sub + unitPriceOf item product * inject_Z (quantity item))%Q w)
      as (entries & sub' & Hrun & Hlen).
    { intros i Hi. apply Hall. right. exact Hi. }
    exists entries, sub'. split; [exact Hrun|].
    rewrite Hlen, length_app. cbn. lia.
Qed.

Lemma groupItems_manual item rest w :
  (forall i, In i (item :: rest) ->
     exists product, w_products w !! productId i = Some product /\
                     providerOf product = "manual") ->
  exists entries sub,
    groupItems (item :: rest) [] 0%Q w = (Ok ([("manual", entries)], sub), w) /\
    length entries = length (item :: rest) /\
    (rest = [] -> forall product, w_products w !! productId item = Some product ->
       sub = (0 + unitPriceOf item product * inject_Z (quantity item))%Q).
Proof.
  intros Hall. destruct (Hall item (or_introl eq_refl)) as (product & Hfind & Hprov).
  rewrite (groupItems_cons _ _ _ _ _ _ Hfind), Hprov.
  cbn [map_has map_push app String.eqb Ascii.eqb Bool.eqb].
  destruct (groupItems_manual_acc rest [resolveItem item product]
              (0 + unitPriceOf item product * inject_Z (quantity item))%Q w)
    as (entries & sub & Hrun & Hlen).
  { intros i Hi. apply Hall. right. exact Hi. }
  exists entries, sub. split; [exact Hrun|]. split; [exact Hlen|].
  intros Hrest product' Hfind'. subst rest. cbn in Hrun. injection Hrun as _ <-. congruence.
Qed.

(** C6. A cart of ['manual'] items only is quoted without any gateway
    call (the world, and with it the trace of calls, is unchanged); the
    quote has one breakdown entry, whose only available rate is the
    zero-cost rate ['manual-standard'], "Standard Shipping", 5 to 10 days.
    A single item of quantity 2 at unit price 10 gives subtotal 20,
    shipping cost 0 and total 20. *)
Theorem manual_cart_quote printful gelato stripe items address w :
  items <> [] ->
  (forall item, In item items ->
     exists product, w_products w !! productId item = Some product /\
                     providerOf product = "manual") ->
  exists q b,
    getQuote (createMarketplaceRuntime printful gelato stripe) items address w = (Ok q, w) /\
    q_providerBreakdown q = [b] /\
    pb_provider b = "manual" /\
    pb_itemCount b = length items /\
    pb_selectedShipping b = manualShipping /\
    pb_availableRates b =
      [ {| so_provider := "manual"; so_rateId := "manual-standard";
           so_rateName := "Standard Shipping"; so_shippingCost := 0;
           so_currency := "USD";
           so_minDeliveryDays := Some 5%Q; so_maxDeliveryDays := Some 10%Q |} ] /\
    q_shippingCost q = 0%Q /\
    q_estimatedDelivery q = Some {| minDays := 5; maxDays := 10 |} /\
    (forall item product,
       items = [item] -> w_products w !! productId item = Some product ->
       unitPriceOf item product = 10%Q -> quantity item = 2%Z ->
       q_subtotal q = 20%Q /\ q_total q = 20%Q).
Proof.
  intros Hne Hall. destruct items as [|item rest]; [contradiction|].
  destruct (groupItems_manual item rest w Hall) as (entries & sub & Hrun & Hlen & Hsub).
  unfold getQuote. rewrite (bind_Ok _ _ _ _ _ Hrun). cbn [fst snd quoteProviders].
  unfold quoteProvider. rewrite manual_never_configured.
  cbn [String.eqb Ascii.eqb Bool.eqb]. unfold bind, ret.
  eexists _, _. split; [reflexivity|]. split; [reflexivity|].
  cbn [pb_provider pb_itemCount pb_selectedShipping pb_availableRates q_shippingCost
       q_estimatedDelivery q_subtotal q_total addManualBucket quoteAcc0
       totalShippingCost minDeliveryDays maxDeliveryDays lowerTo raiseTo].
  repeat (split; [first [reflexivity | exact Hlen]|]).
  intros i product Heq Hfind Hprice Hqty. injection Heq as Hi Hrest. subst i rest.
  rewrite (Hsub eq_refl product Hfind), Hprice, Hqty. split; reflexivity.
Qed.

Lemma manual_cart_quote_witness :
  exists q b,
    getQuote rtPrintful [item_mug2] sampleAddress shop = (Ok q, shop) /\
    q_providerBreakdown q = [b] /\
    so_rateId (pb_selectedShipping b) = "manual-standard" /\
    q_subtotal q = 20%Q /\ q_shippingCost q = 0%Q /\ q_total q = 20%Q.
Proof.
  destruct (manual_cart_quote (Some printfulUp) None (Some stripeUp)
              [item_mug2] sampleAddress shop)
    as (q & b & Hrun & Hb & _ & _ & Hsel & _ & Hship & _ & Hscen).
  - discriminate.
  - intros item [<-|[]]. exists mug. split; reflexivity.
  - exists q, b. destruct (Hscen item_mug2 mug eq_refl eq_refl eq_refl eq_refl) as [H1 H2].
    rewrite Hsel. repeat (split; [assumption || reflexivity|]). exact H2.
Defined.

(** ** Steps that ask for no quote and keep the orders' amounts *)

Ltac world_simpl :=
  cbn [w_orders w_trace w_products w_clock w_orderItems w_uuid w_uuidNext
       w_insertError] in *.

Lemma quiet_refl w : quiet_step w w.
Proof.
  split.
  - exists []. now rewrite app_nil_r.
  - intros id row H. now exists row.
Qed.

Lemma quiet_trans w1 w2 w3 : quiet_step w1 w2 -> quiet_step w2 w3 -> quiet_step w1 w3.
Proof.
  intros [(e1 & He1 & Hf1) K1] [(e2 & He2 & Hf2) K2]. split.
  - exists (e1 ++ e2). rewrite He2, He1, app_assoc. split; [reflexivity|].
    apply Forall_app. auto.
  - intros id row H. destruct (K1 id row H) as (row1 & H1 & E1).
    destruct (K2 id row1 H1) as (row2 & H2 & E2). exists row2. split; [exact H2|congruence].
Qed.

Lemma Quiet_run {A} (m : M A) w r w' : Quiet m -> m w = (r, w') -> quiet_step w w'.
Proof. intros H. apply H. Qed.

Lemma Quiet_ret {A} (a : A) : Quiet (ret a).
Proof. intros w r w' [= _ <-]. apply quiet_refl. Qed.

Lemma Quiet_fail {A} (msg : string) : Quiet (@fail A msg).
Proof. intros w r w' [= _ <-]. apply quiet_refl. Qed.

Lemma Quiet_bind {A B} (m : M A) (k : A -> M B) :
  Quiet m -> (forall a, Quiet (k a)) -> Quiet (bind m k).
Proof.
  intros Hm Hk w r w'. unfold bind. destruct (m w) as [[a|e] w1] eqn:H1; intros H.
  - eapply quiet_trans; [eapply Hm; exact H1 | eapply Hk; exact H].
  - injection H as _ <-. eapply Hm; exact H1.
Qed.

Lemma Quiet_emit e : notQuoteEvent e -> Quiet (emit e).
Proof.
  intros He w r w' [= _ <-]. split; cbn [w_orders w_trace].
  - exists [e]. split; [reflexivity|]. now constructor.
  - intros id row H. now exists row.
Qed.

Lemma Quiet_now : Quiet now.
Proof. intros w r w' [= _ <-]. apply quiet_refl. Qed.

Lemma Quiet_randomUUID : Quiet randomUUID.
Proof.
  intros w r w' [= _ <-]. split; cbn [w_orders w_trace].
  - exists []. now rewrite app_nil_r.
  - intros id row H. now exists row.
Qed.

Lemma Quiet_add_orderItems rows : Quiet (add_orderItems rows).
Proof.
  intros w r w' [= _ <-]. split; cbn [w_orders w_trace].
  - exists []. now rewrite app_nil_r.
  - intros id row H. now exists row.
Qed.

Lemma Quiet_findOrderById id : Quiet (findOrderById id).
Proof.
  intros w r w'. unfold findOrderById, rowToOrder, getOrderItems, bind, ret.
  destruct (w_orders w !! id); intros [= _ <-]; apply quiet_refl.
Qed.

Lemma Quiet_insertOrder id row : Quiet (insertOrder id row).
Proof.
  intros w r w'. unfold insertOrder, set_orders.
  destruct (w_orders w !! id) eqn:Hid; intros [= _ <-]; [apply quiet_refl|].
  split; cbn [w_orders w_trace].
  - exists []. now rewrite app_nil_r.
  - intros id' row' H. world_simpl. exists row'. split; [|reflexivity].
    rewrite lookup_insert_ne; [exact H|]. intros ->. congruence.
Qed.

Lemma Quiet_alter (f : OrderRow -> OrderRow) id :
  (forall row, row_totalAmount (f row) = row_totalAmount row) ->
  Quiet (set_orders (alter f id)).
Proof.
  intros Hf w r w' [= _ <-]. split; cbn [w_orders w_trace].
  - exists []. now rewrite app_nil_r.
  - intros id' row H. world_simpl. rewrite lookup_alter. destruct (decide (id = id')) as [->|Hne].
    + rewrite H. cbn [fmap option_fmap option_map]. eauto.
    + eauto.
Qed.

Lemma Quiet_updateWhereId what id (f : Z -> OrderRow -> OrderRow) :
  (forall t row, row_totalAmount (f t row) = row_totalAmount row) ->
  Quiet (updateWhereId what id f).
Proof.
  intros Hf. unfold updateWhereId.
  apply Quiet_bind; [apply Quiet_now|]. intros t.
  apply Quiet_bind; [apply Quiet_alter, Hf|]. intros _.
  apply Quiet_bind; [apply Quiet_findOrderById|]. intros [o|];
    [apply Quiet_ret | apply Quiet_fail].
Qed.

Lemma Quiet_updateCheckout id s p : Quiet (orderStore_updateCheckout id s p).
Proof.
  apply Quiet_bind; [now apply Quiet_emit|]. intros _.
  now apply Quiet_updateWhereId.
Qed.

Lemma Quiet_updateDraftOrderIds id ids : Quiet (orderStore_updateDraftOrderIds id ids).
Proof.
  apply Quiet_bind; [now apply Quiet_emit|]. intros _.
  now apply Quiet_updateWhereId.
Qed.

Lemma Quiet_updateStatus id s : Quiet (orderStore_updateStatus id s).
Proof.
  apply Quiet_bind; [now apply Quiet_emit|]. intros _.
  now apply Quiet_updateWhereId.
Qed.

Lemma Quiet_draftProvider rt order address rates ids name its :
  Quiet (draftProvider rt order address rates ids name its).
Proof.
  unfold draftProvider.
  destruct (or_undefined (rates !! name)); [|apply Quiet_fail].
  destruct (String.eqb name "manual"); [apply Quiet_ret|].
  destruct (getProvider rt name) as [provider|]; [|apply Quiet_fail].
  apply Quiet_bind; [now apply Quiet_emit|]. intros _.
  destruct (createOrder _ _); [apply Quiet_ret | apply Quiet_fail].
Qed.

Lemma Quiet_draftProviders rt order address rates buckets : forall ids,
  Quiet (draftProviders rt order address rates buckets ids).
Proof.
  induction buckets as [|[name its] rest IH]; intros ids; cbn [draftProviders].
  - apply Quiet_ret.
  - apply Quiet_bind; [apply Quiet_draftProvider | exact IH].
Qed.

(** ** Creating the order *)

Lemma orderStore_create_fresh input w :
  w_orders w !! nextOrderId w = None ->
  exists order w1,
    orderStore_create input w = (Ok order, w1) /\
    o_id order = nextOrderId w /\
    w_orders w1 = <[nextOrderId w := newOrderRow input (w_clock w)]> (w_orders w) /\
    w_trace w1 = w_trace w ++ [EvStoreCreate input] /\
    w_products w1 = w_products w /\
    w_uuid w1 = w_uuid w.
Proof.
  unfold nextOrderId. intros Hfresh.
  unfold orderStore_create, bind, emit, now, randomUUID, insertOrder, set_orders; world_simpl.
  rewrite Hfresh.
  destruct (0 <? length (co_items input))%nat;
    unfold add_orderItems, ret, findOrderById; world_simpl;
    rewrite lookup_insert_eq; unfold rowToOrder, bind, getOrderItems, ret; world_simpl;
    eexists _, _; (split; [reflexivity|]); world_simpl; cbn [o_id]; auto.
Qed.

Lemma orderStore_create_trace input w r w1 :
  orderStore_create input w = (r, w1) ->
  w_trace w1 = w_trace w ++ [EvStoreCreate input].
Proof.
  unfold orderStore_create, bind, emit, now, randomUUID, insertOrder, set_orders; world_simpl.
  destruct (w_orders w !! w_uuid w (w_uuidNext w)) eqn:Hid.
  - intros [= _ <-]. reflexivity.
  - destruct (0 <? length (co_items input))%nat;
      unfold add_orderItems, ret, findOrderById; world_simpl;
      rewrite lookup_insert_eq; unfold rowToOrder, bind, getOrderItems, ret; world_simpl;
      intros [= _ <-]; reflexivity.
Qed.

Lemma Quiet_create input : Quiet (orderStore_create input).
Proof.
  unfold orderStore_create.
  apply Quiet_bind; [now apply Quiet_emit|]. intros _.
  apply Quiet_bind; [apply Quiet_now|]. intros t.
  apply Quiet_bind; [apply Quiet_randomUUID|]. intros id.
  apply Quiet_bind; [apply Quiet_insertOrder|]. intros _.
  apply Quiet_bind.
  { destruct (0 <? length (co_items input))%nat;
      [apply Quiet_add_orderItems | apply Quiet_ret]. }
  intros _. apply Quiet_bind; [apply Quiet_findOrderById|].
  intros [o|]; [apply Quiet_ret | apply Quiet_fail].
Qed.

(** ** Checkout *)

Lemma Quiet_checkout_tail rt params order groups (total : Q) :
  Quiet (bind (draftProviders rt order (cp_address params) (cp_selectedRates params) groups [])
           (fun draftOrderIds =>
              match getPaymentProvider rt "stripe" with
              | None => fail "Payment provider not configured"
              | Some paymentProvider =>
                  let lineItems :=
                    map toLineItem (allItems groups) ++
                    (if Qltb 0 (cp_shippingCost params)
                     then [ {| li_name := "Shipping"; li_description := None;
                               li_image := None;
                               li_unitAmount := Math_round (cp_shippingCost params * 100)%Q;
                               li_quantity := 1 |} ]
                     else []) in
                  let request :=
                    {| cs_orderId := o_id order;
                       cs_amount := Math_round (total * 100)%Q;
                       cs_currency := currency;
                       cs_items := lineItems;
                       cs_successUrl := cp_successUrl params;
                       cs_cancelUrl := cp_cancelUrl params;
                       cs_metadata_draftOrderIds := draftOrderIds |} in
                  emit (EvPaymentCheckout request) ;;;
                  match pay_createCheckout (pp_client paymentProvider) request with
                  | Err message => fail ("Failed to create payment checkout: " +:+ message)
                  | Ok checkout =>
                      orderStore_updateCheckout (o_id order) (cso_sessionId checkout) "stripe" ;;;
                      orderStore_updateDraftOrderIds (o_id order) draftOrderIds ;;;
                      orderStore_updateStatus (o_id order) draft_created ;;;
                      ret {| out_orderId := o_id order;
                             out_checkoutSessionId := cso_sessionId checkout;
                             out_checkoutUrl := cso_url checkout;
                             out_draftOrderIds := draftOrderIds |}
                  end
              end)).
Proof.
  apply Quiet_bind; [apply Quiet_draftProviders|]. intros ids.
  destruct (getPaymentProvider rt "stripe") as [pp|]; [|apply Quiet_fail].
  cbv zeta. apply Quiet_bind; [now apply Quiet_emit|]. intros _.
  destruct (pay_createCheckout _ _) as [checkout|m]; [|apply Quiet_fail].
  apply Quiet_bind; [apply Quiet_updateCheckout|]. intros _.
  apply Quiet_bind; [apply Quiet_updateDraftOrderIds|]. intros _.
  apply Quiet_bind; [apply Quiet_updateStatus|]. intros _.
  apply Quiet_ret.
Qed.

(** C8, as the code has it.  Once the cart is resolved against the
    current catalog, the order is created with
    [totalAmount = subtotal + shippingCost] for whatever [shippingCost]
    the caller passed: that sum is what [orderStore.create] is called
    with, and no [quoteOrder] request is made on the way.  The order row
    holds the amount in whole cents: when the sum is a whole number of
    cents, the row holds exactly that many cents when [createCheckout]
    returns, and the order's [totalAmount] is the sum. *)
Theorem checkout_total_trusts_shipping rt params w groups sub :
  groupItems (cp_items params) [] 0%Q w = (Ok (groups, sub), w) ->
  w_orders w !! nextOrderId w = None ->
  exists r w' input evs row,
    createCheckout rt params w = (r, w') /\
    w_trace w' = w_trace w ++ EvStoreCreate input :: evs /\
    co_totalAmount input = (sub + cp_shippingCost params)%Q /\
    Forall notQuoteEvent evs /\
    w_orders w' !! nextOrderId w = Some row /\
    (forall cents : Z,
       (sub + cp_shippingCost params == inject_Z cents / 100)%Q ->
       row_totalAmount row = cents /\
       (cents_to_number (row_totalAmount row) == sub + cp_shippingCost params)%Q).
Proof.
  intros Hg Hfresh. unfold createCheckout. rewrite (bind_Ok _ _ _ _ _ Hg). cbn [fst snd].
  match goal with
  | |- context [orderStore_create ?i] =>
      destruct (orderStore_create_fresh i w Hfresh)
        as (order & w1 & Hc & Hid & Ho & Ht & _ & _)
  end.
  rewrite (bind_Ok _ _ _ _ _ Hc).
  match goal with
  | |- context [bind ?m ?k w1] => destruct (bind m k w1) as [r w'] eqn:Htail
  end.
  apply Quiet_run in Htail; [|apply Quiet_checkout_tail].
  destruct Htail as [(evs & Hevs & Hnq) Hkeep].
  destruct (Hkeep (nextOrderId w) _ ltac:(rewrite Ho; apply lookup_insert_eq))
    as (row & Hrow & Hamount).
  eexists r, w', _, evs, row. split; [reflexivity|].
  split; [rewrite Hevs, Ht, <- app_assoc; reflexivity|].
  split; [reflexivity|]. split; [exact Hnq|]. split; [exact Hrow|].
  intros cents Hcents. rewrite Hamount. cbn [newOrderRow row_totalAmount co_totalAmount].
  rewrite (Math_round_cents _ _ Hcents). split; [reflexivity|].
  unfold cents_to_number. now rewrite Hcents.
Qed.

Lemma checkout_total_trusts_shipping_witness :
  exists w' input evs row,
    createCheckout rtPrintful checkoutOverpriced shop
      = (Ok {| out_orderId := "order-0"; out_checkoutSessionId := "cs_1";
               out_checkoutUrl := "https://pay/cs_1";
               out_draftOrderIds := [("printful", "d1")] |}, w') /\
    w_trace w' = EvStoreCreate input :: evs /\
    co_totalAmount input = ((0 + 10 * 2 + 27 * 1) + 99)%Q /\
    w_orders w' !! "order-0" = Some row /\
    row_totalAmount row = 14600%Z.
Proof.
  destruct (checkout_total_trusts_shipping rtPrintful checkoutOverpriced shop
              [("manual", [resolveItem item_mug2 mug]); ("printful", [resolveItem item_tee tee])]
              (0 + 10 * 2 + 27 * 1)%Q
              ltac:(vm_compute; reflexivity) ltac:(vm_compute; reflexivity))
    as (r & w' & input & evs & row & Hrun & Htrace & Htotal & _ & Hrow & Hcents).
  destruct (Hcents 14600%Z ltac:(vm_compute; reflexivity)) as [Hamount _].
  exists w', input, evs, row.
  assert (Hr : fst (createCheckout rtPrintful checkoutOverpriced shop)
               = Ok {| out_orderId := "order-0"; out_checkoutSessionId := "cs_1";
                       out_checkoutUrl := "https://pay/cs_1";
                       out_draftOrderIds := [("printful", "d1")] |})
    by (vm_compute; reflexivity).
  rewrite Hrun in Hr. cbn [fst] in Hr. subst r.
  repeat (split; [assumption|]). exact Hamount.
Defined.

(** Where the stored amount differs from the specification's wording: with
    a shipping cost of 4.999 on a subtotal of 47, [orderStore.create] is
    called with 51.999, the order row holds 5200 cents, and the created
    order's [totalAmount] (52) is not [subtotal + shippingCost]. *)
Lemma stored_total_is_whole_cents :
  exists out w' input evs row,
    createCheckout rtPrintful checkoutFractionalShipping shop = (Ok out, w') /\
    w_trace w' = EvStoreCreate input :: evs /\
    (co_totalAmount input == (0 + 10 * 2 + 27 * 1) + (4999 # 1000))%Q /\
    w_orders w' !! out_orderId out = Some row /\
    row_totalAmount row = 5200%Z /\
    ~ (cents_to_number (row_totalAmount row)
       == (0 + 10 * 2 + 27 * 1) + cp_shippingCost checkoutFractionalShipping)%Q.
Proof.
  eexists _, _, _, _, _. split; [vm_compute; reflexivity|].
  split; [reflexivity|]. split; [vm_compute; reflexivity|].
  split; [vm_compute; reflexivity|]. split; [reflexivity|].
  vm_compute. discriminate.
Qed.

Lemma draftProvider_created rt order address rates ids name its w rate provider draft :
  or_undefined (rates !! name) = Some rate ->
  name <> "manual" ->
  getProvider rt name = Some provider ->
  createOrder (fp_client provider) (draftRequest (o_id order) address its) = Ok draft ->
  draftProvider rt order address rates ids name its w
  = (Ok (record_set name (fo_id draft) ids),
     snd (emit (EvCreateOrder name (draftRequest (o_id order) address its)) w)).
Proof.
  intros Hrate Hname Hp Hc. unfold draftProvider.
  apply String.eqb_neq in Hname. rewrite Hrate, Hname, Hp. unfold bind. cbn [emit snd].
  now rewrite Hc.
Qed.

Lemma draftProvider_rejected rt order address rates ids name its w rate provider message :
  or_undefined (rates !! name) = Some rate ->
  name <> "manual" ->
  getProvider rt name = Some provider ->
  createOrder (fp_client provider) (draftRequest (o_id order) address its) = Err message ->
  draftProvider rt order address rates ids name its w
  = (Err ("Failed to create draft order at " +:+ name +:+ ": " +:+ message),
     snd (emit (EvCreateOrder name (draftRequest (o_id order) address its)) w)).
Proof.
  intros Hrate Hname Hp Hc. unfold draftProvider.
  apply String.eqb_neq in Hname. rewrite Hrate, Hname, Hp. unfold bind. cbn [emit snd].
  now rewrite Hc.
Qed.

(** C1, as the code has it.  When the second provider's [createOrder] is
    rejected, the caller gets an error naming that provider and the order
    stays ['pending']; the first provider's draft id, held in the
    [draftOrderIds] record of the running call, is not written to the
    order: the order row has no [draftOrderIds], and the store was asked
    for nothing but the creation of the order. *)
Theorem draft_failure_leaves_order_pending
    rt params w a itsA b itsB sub rateA rateB provA provB draftA message :
  groupItems (cp_items params) [] 0%Q w = (Ok ([(a, itsA); (b, itsB)], sub), w) ->
  w_orders w !! nextOrderId w = None ->
  a <> "manual" -> b <> "manual" ->
  or_undefined (cp_selectedRates params !! a) = Some rateA ->
  or_undefined (cp_selectedRates params !! b) = Some rateB ->
  getProvider rt a = Some provA ->
  getProvider rt b = Some provB ->
  createOrder (fp_client provA) (draftRequest (nextOrderId w) (cp_address params) itsA)
    = Ok draftA ->
  createOrder (fp_client provB) (draftRequest (nextOrderId w) (cp_address params) itsB)
    = Err message ->
  exists w' input row order w1 w2,
    createCheckout rt params w
      = (Err ("Failed to create draft order at " +:+ b +:+ ": " +:+ message), w') /\
    w_trace w' =
      w_trace w ++
      [ EvStoreCreate input;
        EvCreateOrder a (draftRequest (nextOrderId w) (cp_address params) itsA);
        EvCreateOrder b (draftRequest (nextOrderId w) (cp_address params) itsB) ] /\
    w_orders w' !! nextOrderId w = Some row /\
    row_status row = pending /\
    row_draftOrderIds row = None /\
    orderStore_create input w = (Ok order, w1) /\
    draftProviders rt order (cp_address params) (cp_selectedRates params) [(a, itsA)] [] w1
      = (Ok [(a, fo_id draftA)], w2).
Proof.
  intros Hg Hfresh Ha Hb HrA HrB HpA HpB HcA HcB.
  unfold createCheckout. rewrite (bind_Ok _ _ _ _ _ Hg). cbn [fst snd].
  match goal with
  | |- context [orderStore_create ?i] =>
      destruct (orderStore_create_fresh i w Hfresh)
        as (order & w1 & Hc & Hid & Ho & Ht & _ & _)
  end.
  rewrite (bind_Ok _ _ _ _ _ Hc). rewrite <- Hid in HcA, HcB.
  pose proof (draftProvider_created rt order (cp_address params) (cp_selectedRates params)
                [] a itsA w1 rateA provA draftA HrA Ha HpA HcA) as H1.
  match type of H1 with _ = (_, ?w) => set (w2 := w) in * end.
  pose proof (draftProvider_rejected rt order (cp_address params) (cp_selectedRates params)
                (record_set a (fo_id draftA) []) b itsB w2 rateB provB message
                HrB Hb HpB HcB) as H2.
  match type of H2 with _ = (_, ?w) => set (w3 := w) in * end.
  assert (Hloop : draftProviders rt order (cp_address params) (cp_selectedRates params)
                    [(a, itsA); (b, itsB)] [] w1
                  = (Err ("Failed to create draft order at " +:+ b +:+ ": " +:+ message), w3)).
  { cbn [draftProviders]. rewrite (bind_Ok _ _ _ _ _ H1). now rewrite (bind_Err _ _ _ _ _ H2). }
  rewrite (bind_Err _ _ _ _ _ Hloop).
  eexists w3, _, (newOrderRow _ (w_clock w)), order, w1, w2.
  split; [reflexivity|]. split.
  { subst w3 w2. cbn [emit snd w_trace]. rewrite Ht, Hid, <- !app_assoc. reflexivity. }
  split.
  { subst w3 w2. cbn [emit snd w_orders]. rewrite Ho. apply lookup_insert_eq. }
  split; [reflexivity|]. split; [reflexivity|]. split; [exact Hc|].
  cbn [draftProviders]. now rewrite (bind_Ok _ _ _ _ _ H1).
Qed.

Lemma draft_failure_leaves_order_pending_witness :
  exists w' row,
    createCheckout rtBoth checkoutTwoProviders shop
      = (Err "Failed to create draft order at gelato: service unavailable", w') /\
    w_orders w' !! "order-0" = Some row /\
    row_status row = pending /\
    row_draftOrderIds row = None.
Proof.
  destruct (draft_failure_leaves_order_pending rtBoth checkoutTwoProviders shop
              "printful" [resolveItem item_tee tee] "gelato" [resolveItem item_poster poster]
              (0 + 27 * 1 + 15 * 1)%Q "r1" "g1"
              {| fp_name := "printful"; fp_client := printfulUp |}
              {| fp_name := "gelato"; fp_client := gelatoDown |}
              {| fo_id := "d1" |} "service unavailable"
              ltac:(vm_compute; reflexivity) ltac:(vm_compute; reflexivity)
              ltac:(discriminate) ltac:(discriminate)
              ltac:(vm_compute; reflexivity) ltac:(vm_compute; reflexivity)
              ltac:(reflexivity) ltac:(reflexivity) ltac:(reflexivity) ltac:(reflexivity))
    as (w' & input & row & order & w1 & w2 & Hrun & _ & Hrow & Hst & Hids & _).
  exists w', row. auto.
Defined.

(** Where the failure path differs from the specification's wording: the
    printful draft ["d1"] was created before gelato rejected its draft,
    yet the persisted order has no [draftOrderIds] at all. *)
Lemma drafts_not_persisted_on_failure :
  exists message w',
    createCheckout rtBoth checkoutTwoProviders shop = (Err message, w') /\
    In (EvCreateOrder "printful"
          (draftRequest "order-0" sampleAddress [resolveItem item_tee tee]))
       (w_trace w') /\
    (exists row, w_orders w' !! "order-0" = Some row /\ row_draftOrderIds row = None) /\
    ~ drafts_persisted_as_claimed w' "order-0" "printful" "d1".
Proof.
  eexists _, _. split; [vm_compute; reflexivity|].
  split; [right; left; reflexivity|].
  split; [eexists; split; [vm_compute; reflexivity | reflexivity]|].
  intros (row & Hrow & Hids). vm_compute in Hrow. injection Hrow as <-. discriminate.
Qed.

Lemma draftProviders_missing_rate rt order address rates name its buckets : forall ids w,
  In (name, its) buckets ->
  or_undefined (rates !! name) = None ->
  exists message w', draftProviders rt order address rates buckets ids w = (Err message, w').
Proof.
  induction buckets as [|[n i] rest IH]; intros ids w Hin Hnone; [destruct Hin|].
  cbn [draftProviders].
  destruct (draftProvider rt order address rates ids n i w) as [[ids'|m] w1] eqn:Hstep.
  - rewrite (bind_Ok _ _ _ _ _ Hstep). destruct Hin as [[= -> ->]|Hin]; [|now apply IH].
    unfold draftProvider in Hstep. rewrite Hnone in Hstep. discriminate.
  - rewrite (bind_Err _ _ _ _ _ Hstep). eauto.
Qed.

(** C7, as the code has it.  [createCheckout] requires a selected rate for
    every provider bucket, the ['manual'] bucket included, and fails as a
    whole when one is missing; a cart whose only bucket is ['manual'] and
    for which no ['manual'] rate is selected is rejected with "No shipping
    rate selected for provider: manual". *)
Theorem checkout_requires_rate_for_every_bucket rt params w groups sub :
  groupItems (cp_items params) [] 0%Q w = (Ok (groups, sub), w) ->
  (forall name its,
     In (name, its) groups ->
     or_undefined (cp_selectedRates params !! name) = None ->
     exists message w', createCheckout rt params w = (Err message, w')) /\
  (forall its,
     groups = [("manual", its)] ->
     w_orders w !! nextOrderId w = None ->
     or_undefined (cp_selectedRates params !! "manual") = None ->
     exists w',
       createCheckout rt params w
         = (Err "No shipping rate selected for provider: manual", w')).
Proof.
  intros Hg. unfold createCheckout. rewrite (bind_Ok _ _ _ _ _ Hg). cbn [fst snd]. split.
  - intros name its Hin Hnone.
    match goal with
    | |- context [orderStore_create ?i] =>
        destruct (orderStore_create i w) as [[order|m] w1] eqn:Hc
    end.
    + rewrite (bind_Ok _ _ _ _ _ Hc).
      destruct (draftProviders_missing_rate rt order (cp_address params)
                  (cp_selectedRates params) name its groups [] w1 Hin Hnone)
        as (m & w' & Hd).
      rewrite (bind_Err _ _ _ _ _ Hd). eauto.
    + rewrite (bind_Err _ _ _ _ _ Hc). eauto.
  - intros its -> Hfresh Hnone.
    match goal with
    | |- context [orderStore_create ?i] =>
        destruct (orderStore_create_fresh i w Hfresh) as (order & w1 & Hc & _)
    end.
    rewrite (bind_Ok _ _ _ _ _ Hc). cbn [draftProviders].
    unfold draftProvider. rewrite Hnone. unfold bind at 2, fail. unfold bind. eauto.
Qed.

Lemma checkout_requires_rate_for_every_bucket_witness :
  exists w',
    createCheckout rtPrintful checkoutMugNoRate shop
      = (Err "No shipping rate selected for provider: manual", w').
Proof.
  apply (proj2 (checkout_requires_rate_for_every_bucket rtPrintful checkoutMugNoRate shop
                  [("manual", [resolveItem item_mug2 mug])] (0 + 10 * 2)%Q
                  ltac:(vm_compute; reflexivity))
               [resolveItem item_mug2 mug] eq_refl
               ltac:(vm_compute; reflexivity) ltac:(vm_compute; reflexivity)).
Defined.

(** Where the rate check differs from the specification's wording: the
    cart's only bucket is ['manual'], no ['manual'] rate is selected, and
    the checkout fails on that account; with the rate selected the same
    checkout succeeds. *)
Lemma manual_bucket_needs_rate :
  bucketsOf shop (cp_items checkoutMugNoRate) = [("manual", [resolveItem item_mug2 mug])] /\
  cp_selectedRates checkoutMugNoRate !! "manual" = None /\
  fst (createCheckout rtPrintful checkoutMugNoRate shop)
    = Err "No shipping rate selected for provider: manual" /\
  is_ok (fst (createCheckout rtPrintful checkoutMugNoRate shop)) = false /\
  is_ok (fst (createCheckout rtPrintful checkoutMugWithRate shop)) = true.
Proof. repeat split; vm_compute; reflexivity. Qed.

(** ** Items whose variant id matches no variant *)

Lemma find_variant_none vid variants :
  (forall v, In v variants -> v_id v <> vid) ->
  List.find (fun v => String.eqb (v_id v) vid) variants = None.
Proof.
  induction variants as [|v rest IH]; intros H; [reflexivity|].
  cbn [List.find]. destruct (String.eqb (v_id v) vid) eqn:E.
  - apply String.eqb_eq in E. exfalso. apply (H v); [left; reflexivity | exact E].
  - apply IH. intros v' Hv'. apply H. right. exact Hv'.
Qed.

Lemma map_has_new g k : map_has (g ++ [(k, [])]) k = true.
Proof.
  induction g as [|[k' l] g IH]; cbn [app map_has].
  - now rewrite String.eqb_refl.
  - destruct (String.eqb k' k); [reflexivity | exact IH].
Qed.

Lemma map_push_has g k x : map_has g k = true -> bucket_has (map_push k x g) k x.
Proof.
  induction g as [|[k' l] g IH]; cbn [map_has map_push]; [discriminate|].
  destruct (String.eqb k' k) eqn:E; intros H.
  - apply String.eqb_eq in E as ->. exists (l ++ [x]). split; [left; reflexivity|].
    apply in_or_app. right. left. reflexivity.
  - destruct (IH H) as (its & Hin & Hx). exists its. split; [right; exact Hin | exact Hx].
Qed.

Lemma bucket_has_push g n e k x : bucket_has g n e -> bucket_has (map_push k x g) n e.
Proof.
  induction g as [|[k' l] g IH]; intros (its & Hin & He); [destruct Hin|].
  cbn [map_push]. destruct Hin as [[= -> ->]|Hin].
  - destruct (String.eqb n k).
    + exists (its ++ [x]). split; [left; reflexivity|]. apply in_or_app. left. exact He.
    + exists its. split; [left; reflexivity | exact He].
  - destruct (String.eqb k' k).
    + exists its. split; [right; exact Hin | exact He].
    + destruct IH as (its' & Hin' & He'); [now exists its|].
      exists its'. split; [right; exact Hin' | exact He'].
Qed.

Lemma bucket_has_app g l n e : bucket_has g n e -> bucket_has (g ++ l) n e.
Proof.
  intros (its & Hin & He). exists its. split; [apply in_or_app; left; exact Hin | exact He].
Qed.

Lemma groupItems_keeps n e items : forall acc sub w g s,
  bucket_has acc n e ->
  groupItems items acc sub w = (Ok (g, s), w) ->
  bucket_has g n e.
Proof.
  induction items as [|item rest IH]; intros acc sub w g s Hhas H.
  - injection H as <- _. exact Hhas.
  - destruct (w_products w !! productId item) as [product|] eqn:Hfind.
    + rewrite (groupItems_cons _ _ _ _ _ _ Hfind) in H. eapply IH; [|exact H].
      apply bucket_has_push. destruct (map_has acc (providerOf product)); [exact Hhas|].
      apply bucket_has_app, Hhas.
    + rewrite (groupItems_cons_missing _ _ _ _ _ Hfind) in H. discriminate.
Qed.

Lemma groupItems_entries item product items : forall acc sub w g s,
  In item items ->
  w_products w !! productId item = Some product ->
  groupItems items acc sub w = (Ok (g, s), w) ->
  bucket_has g (providerOf product) (resolveItem item product).
Proof.
  induction items as [|i rest IH]; intros acc sub w g s Hin Hfind H; [destruct Hin|].
  destruct (w_products w !! productId i) as [p|] eqn:Hfi.
  - rewrite (groupItems_cons _ _ _ _ _ _ Hfi) in H. destruct Hin as [->|Hin].
    + assert (p = product) as -> by congruence.
      eapply groupItems_keeps; [|exact H]. apply map_push_has.
      destruct (map_has acc (providerOf product)) eqn:E; [exact E | apply map_has_new].
    + eapply IH; eauto.
  - rewrite (groupItems_cons_missing _ _ _ _ _ Hfi) in H. discriminate.
Qed.

Lemma createCheckout_trace rt params w groups sub :
  groupItems (cp_items params) [] 0%Q w = (Ok (groups, sub), w) ->
  exists r w' evs,
    createCheckout rt params w = (r, w') /\
    w_trace w' =
      w_trace w ++
      EvStoreCreate {| co_userId := cp_userId params;
                       co_items := map toOrderItem (allItems groups);
                       co_totalAmount := (sub + cp_shippingCost params)%Q;
                       co_currency := currency;
                       co_shippingMethod := None |} :: evs.
Proof.
  intros Hg. unfold createCheckout. rewrite (bind_Ok _ _ _ _ _ Hg). cbn [fst snd].
  match goal with
  | |- context [orderStore_create ?i] =>
      destruct (orderStore_create i w) as [[order|m] w1] eqn:Hc;
      pose proof (orderStore_create_trace _ _ _ _ Hc) as Ht
  end.
  - rewrite (bind_Ok _ _ _ _ _ Hc).
    match goal with
    | |- context [bind ?m ?k w1] => destruct (bind m k w1) as [r w'] eqn:Htail
    end.
    apply Quiet_run in Htail; [|apply Quiet_checkout_tail].
    destruct Htail as [(evs & Hevs & _) _].
    exists r, w', evs. split; [reflexivity|]. now rewrite Hevs, Ht, <- app_assoc.
  - rewrite (bind_Err _ _ _ _ _ Hc). exists (Err m), w1, []. split; [reflexivity | exact Ht].
Qed.

(** C10, as the code has it.  A cart item whose variant id is a non-empty
    string that matches no variant of its product is resolved with the
    product's base price, no variant id and no fulfillment config, and is
    no cause of failure: the grouping
    loop that opens both operations completes with the item in its
    provider's bucket, [getQuote] fails only if some bucket's provider
    fails, and [createCheckout] goes on to create the order with the item
    among its lines. *)
Theorem unmatched_variant_falls_back rt item product vid :
  variantId item = Some vid ->
  truthy vid = true ->
  (forall v, In v (p_variants product) -> v_id v <> vid) ->
  (pi_price (resolveItem item product) = p_price product /\
   pi_variantId (resolveItem item product) = None /\
   pi_fulfillmentConfig (resolveItem item product) = None) /\
  forall items w,
    In item items ->
    w_products w !! productId item = Some product ->
    ~ productMissing w items ->
    (exists groups sub its,
       groupItems items [] 0%Q w = (Ok (groups, sub), w) /\
       In (providerOf product, its) groups /\
       In (resolveItem item product) its) /\
    (forall address,
       quoteFails rt items address w ->
       exists bucket, In bucket (bucketsOf w items) /\ bucketFails rt address bucket) /\
    (forall params,
       cp_items params = items ->
       exists r w' input evs,
         createCheckout rt params w = (r, w') /\
         w_trace w' = w_trace w ++ EvStoreCreate input :: evs /\
         In {| coi_productId := p_id product;
               coi_variantId := None;
               coi_productName := p_title product;
               coi_quantity := quantity item;
               coi_unitPrice := p_price product;
               coi_fulfillmentProvider := Some (p_fulfillmentProvider product);
               coi_fulfillmentConfig := None |} (co_items input)).
Proof.
  intros Hvid Htruthy Hnone.
  assert (Hsel : selectVariant item product = None).
  { unfold selectVariant. rewrite Hvid, Htruthy. now apply find_variant_none. }
  assert (Hres : pi_price (resolveItem item product) = p_price product /\
                 pi_variantId (resolveItem item product) = None /\
                 pi_fulfillmentConfig (resolveItem item product) = None).
  { unfold resolveItem, unitPriceOf. rewrite Hsel. cbn. auto. }
  split; [exact Hres|]. intros items w Hin Hfind Hall.
  destruct (groupItems_cases items [] 0%Q w) as [([groups sub] & Hg)|Hg];
    [|apply groupItems_Err_iff in Hg; contradiction].
  destruct (groupItems_entries item product items [] 0%Q w groups sub Hin Hfind Hg)
    as (its & Hbucket & Hentry).
  split; [now exists groups, sub, its|]. split.
  - intros address Hfail. apply quoteFails_iff in Hfail as [Hm|Hb]; [contradiction | exact Hb].
  - intros params Hitems. rewrite <- Hitems in Hg.
    destruct (createCheckout_trace rt params w groups sub Hg) as (r & w' & evs & Hrun & Ht).
    eexists r, w', _, evs. split; [exact Hrun|]. split; [exact Ht|].
    cbn [co_items].
    replace {| coi_productId := p_id product; coi_variantId := None;
               coi_productName := p_title product; coi_quantity := quantity item;
               coi_unitPrice := p_price product;
               coi_fulfillmentProvider := Some (p_fulfillmentProvider product);
               coi_fulfillmentConfig := None |}
      with (toOrderItem (resolveItem item product)).
    + apply in_map. unfold allItems. apply in_concat. exists its. split; [|exact Hentry].
      apply (in_map snd) in Hbucket. exact Hbucket.
    + unfold toOrderItem. destruct Hres as (-> & -> & ->). reflexivity.
Qed.

(** Where resolution differs from the specification's wording: an empty
    variant id is present and matches no variant of the tee, yet the item
    is resolved like one without a variant id, with the first variant's
    id, price (27, not the base price 25) and fulfillment config. *)
Lemma empty_variant_id_takes_first_variant :
  variantId item_tee_blank = Some EmptyString /\
  (forall v, In v (p_variants tee) -> v_id v <> EmptyString) /\
  pi_price (resolveItem item_tee_blank tee) = 27%Q /\
  ~ (pi_price (resolveItem item_tee_blank tee) == p_price tee)%Q /\
  pi_variantId (resolveItem item_tee_blank tee) = Some "tee-m" /\
  pi_fulfillmentConfig (resolveItem item_tee_blank tee) = Some teeConfig /\
  exists q w',
    getQuote rtPrintful [item_tee_blank] sampleAddress shop = (Ok q, w') /\
    q_subtotal q = (0 + 27 * 1)%Q.
Proof.
  split; [reflexivity|]. split; [intros v [<-|[]]; discriminate|].
  split; [reflexivity|]. split; [vm_compute; discriminate|].
  split; [reflexivity|]. split; [reflexivity|].
  eexists _, _. split; vm_compute; reflexivity.
Qed.

Lemma unmatched_variant_falls_back_witness :
  pi_price (resolveItem item_tee_xxl tee) = 25%Q /\
  pi_fulfillmentConfig (resolveItem item_tee_xxl tee) = None /\
  exists q w',
    getQuote rtPrintful [item_mug2; item_tee_xxl] sampleAddress shop = (Ok q, w') /\
    q_subtotal q = (0 + 10 * 2 + 25 * 3)%Q.
Proof.
  destruct (unmatched_variant_falls_back rtPrintful item_tee_xxl tee "tee-xxl"
              eq_refl eq_refl) as [(Hp & _ & Hc) _].
  - intros v [<-|[]]. discriminate.
  - split; [exact Hp|]. split; [exact Hc|].
    eexists _, _. split; vm_compute; reflexivity.
Defined.

(** ** The sweep *)

Lemma cancellationResult_success rt entry :
  cr_success (cancellationResult rt entry) = cancellationSucceeds rt entry.
Proof.
  unfold cancellationResult, cancellationSucceeds.
  destruct (getProvider rt (fst entry)) as [p|]; [|reflexivity].
  destruct (cancelOrder (fp_client p) (snd entry)); reflexivity.
Qed.

Lemma cancelDraft_run rt orderId st name draftId w :
  exists w',
    cancelDraft rt orderId st name draftId w
    = (Ok (fst st ++ [cancellationResult rt (name, draftId)],
           snd st ++ from_option (fun e => [e]) [] (cancellationError rt orderId (name, draftId))),
       w') /\
    same_store w w'.
Proof.
  unfold cancelDraft, cancellationResult, cancellationError. cbn [fst snd].
  destruct (getProvider rt name) as [provider|].
  - unfold bind. cbn [emit].
    destruct (cancelOrder (fp_client provider) draftId) as [u|m];
      cbn [cr_success cr_error from_option]; eexists;
      (split; [unfold ret; rewrite ?app_nil_r; reflexivity | repeat split]).
  - eexists. split; [reflexivity | repeat split].
Qed.

Lemma cancelDrafts_run rt orderId entries : forall st w,
  exists w',
    cancelDrafts rt orderId entries st w
    = (Ok (fst st ++ map (cancellationResult rt) entries,
           snd st ++ omap (cancellationError rt orderId) entries),
       w') /\
    same_store w w'.
Proof.
  induction entries as [|[name draftId] rest IH]; intros st w.
  - exists w. cbn. rewrite !app_nil_r. destruct st. split; [reflexivity | repeat split].
  - cbn [cancelDrafts].
    destruct (cancelDraft_run rt orderId st name draftId w) as (w1 & H1 & S1).
    rewrite (bind_Ok _ _ _ _ _ H1).
    destruct (IH (fst st ++ [cancellationResult rt (name, draftId)],
                  snd st ++ from_option (fun e => [e]) []
                                        (cancellationError rt orderId (name, draftId))) w1)
      as (w2 & H2 & S2).
    exists w2. split.
    + rewrite H2. cbn [fst snd map omap list_omap]. rewrite <- !app_assoc.
      destruct (cancellationError rt orderId (name, draftId)); reflexivity.
    + destruct S1 as (A1 & B1 & C1), S2 as (A2 & B2 & C2). repeat split; congruence.
Qed.

Lemma updateStatus_run id s w row :
  w_orders w !! id = Some row ->
  exists order w',
    orderStore_updateStatus id s w = (Ok order, w') /\ status_written id s w w'.
Proof.
  intros Hrow.
  unfold orderStore_updateStatus, updateWhereId, bind, emit, now, set_orders, findOrderById;
    world_simpl.
  rewrite lookup_alter, decide_True by reflexivity. rewrite Hrow.
  cbn [fmap option_fmap option_map]. unfold rowToOrder, bind, getOrderItems, ret; world_simpl.
  eexists _, _. split; [reflexivity|]. repeat split.
Qed.

Lemma forallb_results rt entries :
  forallb cr_success (map (cancellationResult rt) entries)
  = forallb (cancellationSucceeds rt) entries.
Proof.
  induction entries as [|e rest IH]; [reflexivity|].
  cbn [map forallb]. now rewrite cancellationResult_success, IH.
Qed.

Lemma existsb_results rt entries :
  existsb cr_success (map (cancellationResult rt) entries)
  = existsb (cancellationSucceeds rt) entries.
Proof.
  induction entries as [|e rest IH]; [reflexivity|].
  cbn [map existsb]. now rewrite cancellationResult_success, IH.
Qed.

Lemma noDraftIds_entries order : noDraftIds order = true -> draftEntries order = [].
Proof.
  unfold noDraftIds, draftEntries. destruct (o_draftOrderIds order) as [[|e l]|];
    [reflexivity | discriminate | reflexivity].
Qed.

Lemma status_written_after id s w w1 w' :
  same_store w w1 -> status_written id s w1 w' -> status_written id s w w'.
Proof.
  intros (A1 & B1 & C1) (A2 & B2 & C2). unfold status_written.
  rewrite A2, B2, C2, A1, B1, C1. auto.
Qed.

Lemma countOutcome_one rt oc order :
  countOutcome rt oc [order] = if is_outcome (sweepOutcome rt order) oc then 1%nat else 0%nat.
Proof.
  unfold countOutcome. cbn [List.filter].
  destruct (is_outcome (sweepOutcome rt order) oc); reflexivity.
Qed.

(** One order of the sweep: the outcome decides what is written. *)
Lemma sweepOrder_run rt acc order w row :
  w_orders w !! o_id order = Some row ->
  exists acc' w',
    sweepOrder rt acc order w = (Ok acc', w') /\
    sw_errors acc' = sw_errors acc ++ cancellationErrors rt order /\
    sw_cancelled acc' =
      (sw_cancelled acc + countOutcome rt NothingToCancel [order]
       + countOutcome rt AllCancelled [order])%nat /\
    sw_partiallyCancelled acc' =
      (sw_partiallyCancelled acc + countOutcome rt PartlyCancelled [order])%nat /\
    sw_failed acc' = (sw_failed acc + countOutcome rt NoneCancelled [order])%nat /\
    match sweepOutcome rt order with
    | NoneCancelled => same_store w w'
    | oc => status_written (o_id order) (statusAfterSweep draft_created oc) w w'
    end.
Proof.
  intros Hrow. rewrite !countOutcome_one.
  unfold sweepOrder, sweepOutcome, cancellationErrors.
  destruct (noDraftIds order) eqn:Hno.
  - destruct (updateStatus_run (o_id order) cancelled w row Hrow) as (o' & w' & Hu & Hw).
    rewrite (bind_Ok _ _ _ _ _ Hu). rewrite (noDraftIds_entries _ Hno).
    eexists _, w'. split; [reflexivity|]. cbn. rewrite app_nil_r.
    repeat split; try lia; apply Hw.
  - destruct (cancelDrafts_run rt (o_id order) (draftEntries order) ([], sw_errors acc) w)
      as (w1 & Hc & Hs).
    fold (draftEntries order). rewrite (bind_Ok _ _ _ _ _ Hc). cbn [fst snd app].
    rewrite forallb_results, existsb_results.
    assert (Hrow1 : w_orders w1 !! o_id order = Some row)
      by (destruct Hs as (-> & _); exact Hrow).
    destruct (forallb (cancellationSucceeds rt) (draftEntries order)) eqn:Hall.
    + destruct (updateStatus_run (o_id order) cancelled w1 row Hrow1) as (o' & w' & Hu & Hw).
      rewrite (bind_Ok _ _ _ _ _ Hu). eexists _, w'. split; [reflexivity|]. cbn.
      repeat split; try lia; apply (status_written_after _ _ _ _ _ Hs Hw).
    + destruct (existsb (cancellationSucceeds rt) (draftEntries order)) eqn:Hany.
      * destruct (updateStatus_run (o_id order) partially_cancelled w1 row Hrow1)
          as (o' & w' & Hu & Hw).
        rewrite (bind_Ok _ _ _ _ _ Hu). eexists _, w'. split; [reflexivity|]. cbn.
        repeat split; try lia; apply (status_written_after _ _ _ _ _ Hs Hw).
      * eexists _, w1. split; [reflexivity|]. cbn. repeat split; try lia; apply Hs.
Qed.

Lemma countOutcome_cons rt oc order rest :
  countOutcome rt oc (order :: rest)
  = (countOutcome rt oc [order] + countOutcome rt oc rest)%nat.
Proof.
  unfold countOutcome. cbn [List.filter].
  destruct (is_outcome (sweepOutcome rt order) oc); reflexivity.
Qed.

(** The whole loop, over orders with distinct ids that are in the store. *)
Lemma sweepOrders_run rt orders : forall acc w,
  List.NoDup (map o_id orders) ->
  (forall o, In o orders -> status_in w (o_id o) = Some draft_created) ->
  exists acc' w',
    sweepOrders rt orders acc w = (Ok acc', w') /\
    sw_errors acc' = sw_errors acc ++ flat_map (cancellationErrors rt) orders /\
    sw_cancelled acc' =
      (sw_cancelled acc + countOutcome rt NothingToCancel orders
       + countOutcome rt AllCancelled orders)%nat /\
    sw_partiallyCancelled acc' =
      (sw_partiallyCancelled acc + countOutcome rt PartlyCancelled orders)%nat /\
    sw_failed acc' = (sw_failed acc + countOutcome rt NoneCancelled orders)%nat /\
    (forall o, In o orders ->
       status_in w' (o_id o) = Some (statusAfterSweep draft_created (sweepOutcome rt o))) /\
    (forall id, ~ In id (map o_id orders) -> status_in w' id = status_in w id).
Proof.
  induction orders as [|order rest IH]; intros acc w Hnd Hall.
  - exists acc, w. cbn. rewrite app_nil_r. repeat split; try lia.
  - cbn [map] in Hnd. apply List.NoDup_cons_iff in Hnd as [Hnotin Hnd].
    destruct (w_orders w !! o_id order) as [row|] eqn:Hrow.
    2:{ specialize (Hall order (or_introl eq_refl)). unfold status_in in Hall.
        rewrite Hrow in Hall. discriminate. }
    destruct (sweepOrder_run rt acc order w row Hrow)
      as (acc1 & w1 & H1 & He1 & Hc1 & Hp1 & Hf1 & Hw1).
    assert (Hst1 : status_in w1 (o_id order)
                   = Some (statusAfterSweep draft_created (sweepOutcome rt order)) /\
                   forall id, id <> o_id order -> status_in w1 id = status_in w id).
    { assert (Hdc : row_status row = draft_created).
      { specialize (Hall order (or_introl eq_refl)). unfold status_in in Hall.
        rewrite Hrow in Hall. now injection Hall. }
      unfold status_in. destruct (sweepOutcome rt order); cbn [statusAfterSweep];
        destruct Hw1 as (-> & _);
        try (split; [rewrite lookup_alter, decide_True by reflexivity; now rewrite Hrow
                    |intros id Hid; rewrite lookup_alter, decide_False by congruence;
                     reflexivity]).
      split; [now rewrite Hrow, <- Hdc | reflexivity]. }
    destruct Hst1 as [Hself Hother].
    destruct (IH acc1 w1 Hnd) as (acc2 & w2 & H2 & He2 & Hc2 & Hp2 & Hf2 & Hin2 & Hout2).
    { intros o Ho. rewrite Hother; [apply Hall; right; exact Ho|].
      intros E. apply Hnotin. rewrite <- E. now apply in_map. }
    exists acc2, w2. cbn [sweepOrders]. rewrite (bind_Ok _ _ _ _ _ H1).
    split; [exact H2|].
    rewrite !(countOutcome_cons rt _ order rest). cbn [flat_map].
    split; [rewrite He2, He1, app_assoc; reflexivity|].
    split; [lia|]. split; [lia|]. split; [lia|]. split.
    + intros o [<-|Ho]; [|apply Hin2, Ho]. rewrite Hout2; [exact Hself | exact Hnotin].
    + intros id Hid. cbn [map] in Hid. rewrite Hout2, Hother; [reflexivity| |]; intros E;
        apply Hid; [left; congruence | right; exact E].
Qed.

Lemma rowToOrder_run id row w :
  exists o, rowToOrder id row w = (Ok o, w) /\
            o_id o = id /\ o_status o = row_status row /\
            o_draftOrderIds o = row_draftOrderIds row.
Proof.
  unfold rowToOrder, bind, getOrderItems, ret. eexists. split; [reflexivity|]. auto.
Qed.

Lemma mapM_rows rows w :
  exists os,
    mapM (fun r => rowToOrder (fst r) (snd r)) rows w = (Ok os, w) /\
    map o_id os = map fst rows /\
    forall o, In o os ->
      exists r, In r rows /\ o_id o = fst r /\ o_status o = row_status (snd r).
Proof.
  induction rows as [|r rest (os & Hrun & Hids & Hall)].
  - exists []. repeat split. intros o [].
  - destruct (rowToOrder_run (fst r) (snd r) w) as (o & Ho & Hid & Hst & _).
    exists (o :: os). cbn [mapM]. rewrite (bind_Ok _ _ _ _ _ Ho), (bind_Ok _ _ _ _ _ Hrun).
    split; [reflexivity|]. split; [cbn [map]; now rewrite Hid, Hids|].
    intros o' [<-|Ho'].
    + exists r. split; [left; reflexivity | auto].
    + destruct (Hall o' Ho') as (r' & Hr' & H'). exists r'. split; [right; exact Hr' | exact H'].
Qed.

Lemma NoDup_map_filter {A B} (f : A -> B) (p : A -> bool) l :
  List.NoDup (map f l) -> List.NoDup (map f (List.filter p l)).
Proof.
  induction l as [|a l IH]; cbn [map List.filter]; intros H; [exact H|].
  apply List.NoDup_cons_iff in H as [Hnotin Hnd]. destruct (p a); [|now apply IH].
  cbn [map]. apply List.NoDup_cons; [|now apply IH].
  intros Hin. apply Hnotin. apply in_map_iff in Hin as (x & Hx & Hin).
  apply filter_In in Hin as [Hin _]. apply in_map_iff. now exists x.
Qed.

Lemma findAbandonedDrafts_run maxAgeHours w :
  exists abandoned,
    orderStore_findAbandonedDrafts maxAgeHours w = (Ok abandoned, w) /\
    List.NoDup (map o_id abandoned) /\
    forall o, In o abandoned -> status_in w (o_id o) = Some draft_created.
Proof.
  unfold orderStore_findAbandonedDrafts. unfold bind at 1, now.
  set (cutoff := (w_clock w - maxAgeHours * 60 * 60 * 1000)%Z).
  set (drafts := List.filter (fun r => is_draft_created (row_status (snd r)))
                             (map_to_list (w_orders w))).
  set (rows := List.filter (fun r => (row_createdAt (snd r) <? cutoff)%Z)
                           (merge_sort newer_first drafts)).
  destruct (mapM_rows rows w) as (os & Hrun & Hids & Hall).
  exists os. split; [exact Hrun|]. split.
  - rewrite Hids. apply NoDup_map_filter.
    apply (Permutation_NoDup (l := map fst drafts)).
    + apply Permutation_map. symmetry. apply merge_sort_Permutation.
    + apply NoDup_map_filter. apply NoDup_ListNoDup.
      apply (NoDup_fst_map_to_list (w_orders w)).
  - intros o Ho. destruct (Hall o Ho) as ([id row] & Hr & Hid & Hst). cbn [fst snd] in *.
    apply filter_In in Hr as [Hr _].
    apply (Permutation_in _ (merge_sort_Permutation newer_first drafts)) in Hr.
    apply filter_In in Hr as [Hr Hdraft]. cbn [snd] in Hdraft.
    apply list_elem_of_In, elem_of_map_to_list in Hr.
    unfold status_in. rewrite Hid, Hr. cbn.
    destruct (row_status row); try discriminate. reflexivity.
Qed.

Lemma cancellationError_spec rt orderId entry :
  (cancellationSucceeds rt entry = true -> cancellationError rt orderId entry = None) /\
  (cancellationSucceeds rt entry = false ->
   exists reason,
     cancellationError rt orderId entry
     = Some {| ce_orderId := orderId; ce_provider := fst entry; ce_error := reason |}).
Proof.
  unfold cancellationSucceeds, cancellationError.
  destruct (getProvider rt (fst entry)) as [p|].
  - destruct (cancelOrder (fp_client p) (snd entry)); cbn [is_ok]; split;
      try discriminate; eauto.
  - split; [discriminate | eauto].
Qed.

Lemma noDraftIds_false order :
  noDraftIds order = false -> exists e l, draftEntries order = e :: l.
Proof.
  unfold noDraftIds, draftEntries. destruct (o_draftOrderIds order) as [[|e l]|];
    try discriminate. intros _. now exists e, l.
Qed.

Lemma none_not_all rt order :
  noDraftIds order = false ->
  existsb (cancellationSucceeds rt) (draftEntries order) = false ->
  forallb (cancellationSucceeds rt) (draftEntries order) = false.
Proof.
  intros Hno Hany. destruct (noDraftIds_false order Hno) as (e & l & E).
  rewrite E in *. cbn [existsb forallb] in *.
  apply Bool.orb_false_iff in Hany as [-> _]. reflexivity.
Qed.

Lemma count_none rt orders :
  countOutcome rt NoneCancelled orders
  = length (List.filter
              (fun o => negb (noDraftIds o) &&
                        negb (existsb (cancellationSucceeds rt) (draftEntries o)))
              orders).
Proof.
  unfold countOutcome. f_equal. apply filter_ext. intros o. unfold sweepOutcome.
  destruct (noDraftIds o) eqn:Hno; [reflexivity|].
  destruct (existsb (cancellationSucceeds rt) (draftEntries o)) eqn:Hany.
  - destruct (forallb (cancellationSucceeds rt) (draftEntries o)); reflexivity.
  - now rewrite (none_not_all rt o Hno Hany).
Qed.

Lemma count_partly rt orders :
  countOutcome rt PartlyCancelled orders
  = length (List.filter
              (fun o => negb (noDraftIds o) &&
                        negb (forallb (cancellationSucceeds rt) (draftEntries o)) &&
                        existsb (cancellationSucceeds rt) (draftEntries o))
              orders).
Proof.
  unfold countOutcome. f_equal. apply filter_ext. intros o. unfold sweepOutcome.
  destruct (noDraftIds o); [reflexivity|].
  destruct (forallb (cancellationSucceeds rt) (draftEntries o)); [reflexivity|].
  destruct (existsb (cancellationSucceeds rt) (draftEntries o)); reflexivity.
Qed.

Lemma count_cancelled rt orders :
  (countOutcome rt NothingToCancel orders + countOutcome rt AllCancelled orders)%nat
  = length (List.filter
              (fun o => noDraftIds o || forallb (cancellationSucceeds rt) (draftEntries o))
              orders).
Proof.
  induction orders as [|o rest IH]; [reflexivity|].
  rewrite !(countOutcome_cons rt _ o rest), !countOutcome_one. cbn [List.filter].
  unfold sweepOutcome.
  destruct (noDraftIds o); cbn [orb is_outcome length]; [lia|].
  destruct (forallb (cancellationSucceeds rt) (draftEntries o)); cbn [is_outcome length]; [lia|].
  destruct (existsb (cancellationSucceeds rt) (draftEntries o)); cbn [is_outcome]; lia.
Qed.

(** C4. The sweep always completes.  Every order it processes was in
    ['draft_created']; afterwards an order without recorded draft ids is
    ['cancelled'], an order all of whose cancellations succeeded is
    ['cancelled'], one with some but not all succeeded is
    ['partially_cancelled'], and one with none succeeded is still
    ['draft_created'] and counted in [failed].  The error list is made of
    one entry per failed cancellation, in processing order, each naming
    the order and the provider. *)
Theorem sweep_outcomes rt maxAgeHours w :
  exists abandoned result w',
    orderStore_findAbandonedDrafts maxAgeHours w = (Ok abandoned, w) /\
    cleanupAbandonedDrafts rt maxAgeHours w = (Ok result, w') /\
    totalProcessed result = length abandoned /\
    (forall order, In order abandoned ->
       status_in w (o_id order) = Some draft_created /\
       (noDraftIds order = true -> status_in w' (o_id order) = Some cancelled) /\
       (noDraftIds order = false ->
        forallb (cancellationSucceeds rt) (draftEntries order) = true ->
        status_in w' (o_id order) = Some cancelled) /\
       (noDraftIds order = false ->
        forallb (cancellationSucceeds rt) (draftEntries order) = false ->
        existsb (cancellationSucceeds rt) (draftEntries order) = true ->
        status_in w' (o_id order) = Some partially_cancelled) /\
       (noDraftIds order = false ->
        existsb (cancellationSucceeds rt) (draftEntries order) = false ->
        status_in w' (o_id order) = Some draft_created)) /\
    cancelled_count result =
      length (List.filter
                (fun o => noDraftIds o || forallb (cancellationSucceeds rt) (draftEntries o))
                abandoned) /\
    partiallyCancelled result =
      length (List.filter
                (fun o => negb (noDraftIds o) &&
                          negb (forallb (cancellationSucceeds rt) (draftEntries o)) &&
                          existsb (cancellationSucceeds rt) (draftEntries o))
                abandoned) /\
    failed result =
      length (List.filter
                (fun o => negb (noDraftIds o) &&
                          negb (existsb (cancellationSucceeds rt) (draftEntries o)))
                abandoned) /\
    errors result =
      flat_map (fun order => omap (cancellationError rt (o_id order)) (draftEntries order))
               abandoned /\
    (forall orderId entry,
       (cancellationSucceeds rt entry = true -> cancellationError rt orderId entry = None) /\
       (cancellationSucceeds rt entry = false ->
        exists reason,
          cancellationError rt orderId entry
          = Some {| ce_orderId := orderId; ce_provider := fst entry; ce_error := reason |})).
Proof.
  destruct (findAbandonedDrafts_run maxAgeHours w) as (abandoned & Hfind & Hnd & Hdc).
  assert (Hsweep := sweepOrders_run rt abandoned
                      {| sw_cancelled := 0; sw_partiallyCancelled := 0;
                         sw_failed := 0; sw_errors := [] |} w Hnd Hdc).
  destruct Hsweep as (acc & w1 & Hrun & He & Hc & Hp & Hf & Hin & _).
  cbn [sw_cancelled sw_partiallyCancelled sw_failed sw_errors app Nat.add] in He, Hc, Hp, Hf.
  rewrite count_cancelled in Hc. rewrite count_partly in Hp. rewrite count_none in Hf.
  assert (Hstatus : forall w', 
            (forall o, In o abandoned ->
               status_in w' (o_id o)
               = Some (statusAfterSweep draft_created (sweepOutcome rt o))) ->
            forall order, In order abandoned ->
              status_in w (o_id order) = Some draft_created /\
              (noDraftIds order = true -> status_in w' (o_id order) = Some cancelled) /\
              (noDraftIds order = false ->
               forallb (cancellationSucceeds rt) (draftEntries order) = true ->
               status_in w' (o_id order) = Some cancelled) /\
              (noDraftIds order = false ->
               forallb (cancellationSucceeds rt) (draftEntries order) = false ->
               existsb (cancellationSucceeds rt) (draftEntries order) = true ->
               status_in w' (o_id order) = Some partially_cancelled) /\
              (noDraftIds order = false ->
               existsb (cancellationSucceeds rt) (draftEntries order) = false ->
               status_in w' (o_id order) = Some draft_created)).
  { intros w' Hw' order Ho. split; [apply Hdc, Ho|]. rewrite (Hw' order Ho).
    unfold sweepOutcome. repeat split.
    - intros ->. reflexivity.
    - intros -> ->. reflexivity.
    - intros -> -> ->. reflexivity.
    - intros Hno Hany. rewrite Hno, (none_not_all rt order Hno Hany), Hany. reflexivity. }
  exists abandoned. unfold cleanupAbandonedDrafts. rewrite (bind_Ok _ _ _ _ _ Hfind).
  destruct abandoned as [|o rest].
  - cbn [length Nat.eqb]. eexists _, w. split; [exact Hfind|]. split; [reflexivity|].
    split; [reflexivity|]. split; [intros order []|].
    repeat (split; [reflexivity|]). intros orderId entry. apply cancellationError_spec.
  - cbn [length Nat.eqb]. rewrite (bind_Ok _ _ _ _ _ Hrun).
    eexists _, w1. split; [exact Hfind|]. split; [reflexivity|].
    cbn [totalProcessed cancelled_count partiallyCancelled failed errors].
    split; [reflexivity|]. split; [apply Hstatus, Hin|].
    split; [exact Hc|]. split; [exact Hp|]. split; [exact Hf|]. split; [exact He|].
    intros orderId entry. apply cancellationError_spec.
Qed.

Lemma sweep_outcomes_witness :
  exists result w',
    cleanupAbandonedDrafts rtBoth 24 sweepShop = (Ok result, w') /\
    status_in sweepShop "o1" = Some draft_created /\
    status_in w' "o1" = Some partially_cancelled /\
    partiallyCancelled result = 1%nat.
Proof.
  destruct (sweep_outcomes rtBoth 24 sweepShop)
    as (abandoned & result & w' & Hfind & Hrun & _ & Hst & _ & Hp & _).
  assert (Hab : fst (orderStore_findAbandonedDrafts 24 sweepShop)
                = Ok [ {| o_id := "o1"; o_userId := "ada.near"; o_status := draft_created;
                          o_totalAmount := cents_to_number 4200; o_currency := "USD";
                          o_checkoutSessionId := Some "cs_0";
                          o_checkoutProvider := Some "stripe";
                          o_draftOrderIds := Some [("printful", "d1"); ("gelato", "g7")];
                          o_shippingMethod := None;
                          o_fulfillmentReferenceId := Some "order_1_ada.near";
                          o_createdAt := 1699827200000; o_updatedAt := 1699827200000;
                          o_items := [] |} ]) by reflexivity.
  rewrite Hfind in Hab. cbn [fst] in Hab. injection Hab as ->.
  destruct (Hst _ (or_introl eq_refl)) as (Hbefore & _ & _ & Hpartly & _).
  exists result, w'. split; [exact Hrun|]. split; [exact Hbefore|].
  split; [apply Hpartly; reflexivity|]. rewrite Hp. reflexivity.
Defined.

(** The sample order has a printful draft and a gelato draft; printful
    cancels, gelato refuses: the order ends ['partially_cancelled'] with
    one error naming order and provider. *)
Example sweep_partly_cancelled :
  fst (cleanupAbandonedDrafts rtBoth 24 sweepShop)
  = Ok {| totalProcessed := 1; cancelled_count := 0; partiallyCancelled := 1; failed := 0;
          errors := [ {| ce_orderId := "o1"; ce_provider := "gelato";
                         ce_error := "already shipped" |} ] |} /\
  status_in (snd (cleanupAbandonedDrafts rtBoth 24 sweepShop)) "o1"
  = Some partially_cancelled.
Proof. split; vm_compute; reflexivity. Qed.

(** With printful not configured and gelato refusing, nothing is
    cancelled: the order stays ['draft_created'] and counts as failed. *)
Example sweep_nothing_cancelled :
  fst (cleanupAbandonedDrafts (createMarketplaceRuntime None (Some gelatoDown) None)
                              24 sweepShop)
  = Ok {| totalProcessed := 1; cancelled_count := 0; partiallyCancelled := 0; failed := 1;
          errors := [ {| ce_orderId := "o1"; ce_provider := "printful";
                         ce_error := "Provider not found" |};
                      {| ce_orderId := "o1"; ce_provider := "gelato";
                         ce_error := "already shipped" |} ] |} /\
  status_in (snd (cleanupAbandonedDrafts
                    (createMarketplaceRuntime None (Some gelatoDown) None) 24 sweepShop)) "o1"
  = Some draft_created.
Proof. split; vm_compute; reflexivity. Qed.

(** Both gateways cancelling, the order ends ['cancelled']. *)
Example sweep_all_cancelled :
  fst (cleanupAbandonedDrafts
         (createMarketplaceRuntime (Some printfulUp) (Some printfulUp) None) 24 sweepShop)
  = Ok {| totalProcessed := 1; cancelled_count := 1; partiallyCancelled := 0; failed := 0;
          errors := [] |} /\
  status_in (snd (cleanupAbandonedDrafts
                    (createMarketplaceRuntime (Some printfulUp) (Some printfulUp) None)
                    24 sweepShop)) "o1"
  = Some cancelled.
Proof. split; vm_compute; reflexivity. Qed.

(** An order younger than the threshold is not processed. *)
Example sweep_skips_recent :
  fst (cleanupAbandonedDrafts rtBoth 72 sweepShop)
  = Ok {| totalProcessed := 0; cancelled_count := 0; partiallyCancelled := 0; failed := 0;
          errors := [] |}.
Proof. vm_compute. reflexivity. Qed.

(** * Further properties *)

(** ** The order store *)

Lemma filter_orderId_none id rows :
  Forall (fun r => ir_orderId r <> id) rows ->
  List.filter (fun r => String.eqb (ir_orderId r) id) rows = [].
Proof.
  induction 1 as [|r rows Hr _ IH]; [reflexivity|].
  cbn [List.filter]. apply String.eqb_neq in Hr. now rewrite Hr.
Qed.

Lemma filter_new_rows id t items : forall (n : nat),
  List.filter (fun r => String.eqb (ir_orderId r) id)
              (imap (fun i => newItemRow id t (n + i)) items)
  = imap (fun i => newItemRow id t (n + i)) items.
Proof.
  induction items as [|item rest IH]; intros n; [reflexivity|].
  cbn [imap List.filter newItemRow ir_orderId]. rewrite String.eqb_refl. f_equal.
  rewrite (imap_ext _ (fun i => newItemRow id t (S n + i))).
  - apply IH.
  - intros i x _. cbn. f_equal. lia.
Qed.

Lemma stored_lines id t items : forall (n : nat),
  Forall2 (stored_line id) items
          (map rowToItem (imap (fun i => newItemRow id t (n + i)) items)).
Proof.
  induction items as [|item rest IH]; intros n; [constructor|].
  cbn [imap map]. constructor.
  - unfold stored_line, rowToItem, newItemRow. cbn.
    repeat split.
    + destruct (coi_variantId item) as [v|]; cbn; [|reflexivity].
      destruct (truthy v) eqn:E; cbn; [now rewrite E | reflexivity].
    + intros cents Hcents. rewrite <- (Math_round_cents _ _ Hcents). reflexivity.
  - rewrite (imap_ext _ (fun i => newItemRow id t (S n + i))); [apply IH|].
    intros i x _. cbn. f_equal. lia.
Qed.

(** X1. Creating an order and reading it back.  When the generated id is
    free and no line of the table [order_items] refers to it, the order
    [create] returns is what [find] then returns for that id: it is
    ['pending'], belongs to the user, has no checkout session and no draft
    ids, its amount is a whole number of cents, the requested total when
    that is one, and it has one line per requested item, in order, with
    the requested unit price when that is a whole number of cents. *)
Theorem create_then_find input w :
  w_orders w !! nextOrderId w = None ->
  Forall (fun r => ir_orderId r <> nextOrderId w) (w_orderItems w) ->
  exists order w1,
    orderStore_create input w = (Ok order, w1) /\
    orderStore_find (nextOrderId w) w1 = (Ok (Some order), w1) /\
    o_id order = nextOrderId w /\
    o_userId order = co_userId input /\
    o_status order = pending /\
    (exists cents : Z, o_totalAmount order = cents_to_number cents) /\
    (forall cents : Z,
       (co_totalAmount input == inject_Z cents / 100)%Q ->
       o_totalAmount order = cents_to_number cents) /\
    o_currency order = co_currency input /\
    o_checkoutSessionId order = None /\
    o_draftOrderIds order = None /\
    Forall2 (stored_line (nextOrderId w)) (co_items input) (o_items order).
Proof.
  unfold nextOrderId. intros Hfresh Hfk.
  set (id := w_uuid w (w_uuidNext w)) in *.
  pose proof (filter_new_rows id (w_clock w) (co_items input) 0) as Hnew.
  pose proof (stored_lines id (w_clock w) (co_items input) 0) as Hlines.
  cbn [Nat.add] in Hnew, Hlines.
  change (fun i : nat => newItemRow id (w_clock w) i)
    with (newItemRow id (w_clock w)) in Hnew, Hlines.
  unfold orderStore_find, orderStore_create, bind, emit, now, randomUUID, insertOrder,
    set_orders; world_simpl. fold id. rewrite Hfresh.
  destruct (0 <? length (co_items input))%nat eqn:Hlen;
    unfold add_orderItems, ret, findOrderById; world_simpl;
    rewrite lookup_insert_eq; unfold rowToOrder, bind, getOrderItems, ret; world_simpl;
    eexists _, _; (split; [reflexivity|]); world_simpl;
    rewrite lookup_insert_eq; (split; [reflexivity|]);
    cbn [o_id o_userId o_status o_totalAmount o_currency o_checkoutSessionId
         o_draftOrderIds o_items newOrderRow row_userId row_status row_totalAmount
         row_currency row_checkoutSessionId row_draftOrderIds or_undefined];
    repeat (split; [reflexivity|]);
    (split; [eexists; reflexivity|]);
    (split; [intros cents Hcents; now rewrite (Math_round_cents _ _ Hcents)|]);
    repeat (split; [reflexivity|]).
  - rewrite List.filter_app, (filter_orderId_none id _ Hfk), Hnew. exact Hlines.
  - rewrite (filter_orderId_none id _ Hfk).
    destruct (co_items input); [constructor | discriminate].
Qed.

Lemma create_then_find_witness :
  exists order w1,
    orderStore_create
      {| co_userId := "ada.near";
         co_items := [toOrderItem (resolveItem item_tee tee)];
         co_totalAmount := 27; co_currency := "USD"; co_shippingMethod := None |} shop
      = (Ok order, w1) /\
    orderStore_find "order-0" w1 = (Ok (Some order), w1) /\
    o_status order = pending /\
    o_totalAmount order = cents_to_number 2700 /\
    map oi_quantity (o_items order) = [1%Z].
Proof.
  destruct (create_then_find
              {| co_userId := "ada.near";
                 co_items := [toOrderItem (resolveItem item_tee tee)];
                 co_totalAmount := 27; co_currency := "USD"; co_shippingMethod := None |}
              shop ltac:(vm_compute; reflexivity) ltac:(constructor))
    as (order & w1 & Hc & Hf & _ & _ & Hst & _ & Hamount & _ & _ & _ & Hlines).
  exists order, w1. repeat (split; [assumption|]).
  split; [apply Hamount; vm_compute; reflexivity|].
  cbn [co_items] in Hlines. inversion Hlines as [|? ? ? ? (_ & _ & _ & _ & Hq & _) Hrest];
    subst. inversion Hrest; subst. cbn [map]. now rewrite Hq.
Defined.

Lemma alter_missing (f : OrderRow -> OrderRow) id (m : gmap string OrderRow) :
  m !! id = None -> alter f id m = m.
Proof.
  intros H. apply map_eq. intros j. rewrite lookup_alter.
  destruct (decide (id = j)) as [<-|]; [now rewrite H | reflexivity].
Qed.

Lemma updateWhereId_missing what id f w :
  w_orders w !! id = None ->
  exists w',
    updateWhereId what id f w
      = (Err ("Failed to update " +:+ what +:+ ": Error: Order not found"), w') /\
    w_orders w' = w_orders w /\ w_orderItems w' = w_orderItems w /\
    w_trace w' = w_trace w.
Proof.
  intros H. unfold updateWhereId, bind, now, set_orders, findOrderById; world_simpl.
  rewrite (alter_missing _ _ _ H), H. eexists. split; [reflexivity|]. world_simpl.
  auto.
Qed.

Lemma findOrderById_found id row w :
  w_orders w !! id = Some row ->
  exists o, findOrderById id w = (Ok (Some o), w) /\
            fst (rowToOrder id row w) = Ok o.
Proof.
  intros H. unfold findOrderById. rewrite H.
  unfold rowToOrder, bind, getOrderItems, ret. eexists. split; reflexivity.
Qed.

Lemma updateWhereId_found what id f w row :
  w_orders w !! id = Some row ->
  exists o' w',
    updateWhereId what id f w = (Ok o', w') /\
    findOrderById id w' = (Ok (Some o'), w') /\
    w_orders w' = <[id := f (w_clock w) row]> (w_orders w) /\
    w_orderItems w' = w_orderItems w /\ w_clock w' = w_clock w /\
    w_trace w' = w_trace w /\
    fst (rowToOrder id (f (w_clock w) row) w) = Ok o'.
Proof.
  intros H. unfold updateWhereId, bind, now, set_orders, findOrderById; world_simpl.
  assert (Ha : alter (f (w_clock w)) id (w_orders w) = <[id := f (w_clock w) row]> (w_orders w)).
  { apply map_eq. intros j. rewrite lookup_alter, lookup_insert.
    destruct (decide (id = j)) as [<-|]; [now rewrite H | reflexivity]. }
  rewrite Ha, lookup_insert_eq. unfold rowToOrder, bind, getOrderItems, ret; world_simpl.
  eexists _, _. split; [reflexivity|]. world_simpl. rewrite lookup_insert_eq.
  repeat split; reflexivity.
Qed.

(** X2. Updating an order that does not exist.  [updateStatus],
    [updateCheckout] and [updateDraftOrderIds] on an id the table does not
    hold fail with "Order not found" and leave both tables as they
    were. *)
Theorem update_of_missing_order id w :
  w_orders w !! id = None ->
  (forall status, exists w',
     orderStore_updateStatus id status w
       = (Err "Failed to update order status: Error: Order not found", w') /\
     w_orders w' = w_orders w /\ w_orderItems w' = w_orderItems w) /\
  (forall sessionId provider, exists w',
     orderStore_updateCheckout id sessionId provider w
       = (Err "Failed to update order checkout: Error: Order not found", w') /\
     w_orders w' = w_orders w /\ w_orderItems w' = w_orderItems w) /\
  (forall ids, exists w',
     orderStore_updateDraftOrderIds id ids w
       = (Err "Failed to update draft order IDs: Error: Order not found", w') /\
     w_orders w' = w_orders w /\ w_orderItems w' = w_orderItems w).
Proof.
  intros H. repeat split; intros.
  - unfold orderStore_updateStatus. unfold bind at 1. cbn [emit].
    match goal with |- context [updateWhereId ?a ?b ?c ?w0] =>
      destruct (updateWhereId_missing a b c w0 H) as (w' & Hu & Ho & Hi & _) end.
    exists w'. rewrite Hu. auto.
  - unfold orderStore_updateCheckout. unfold bind at 1. cbn [emit].
    match goal with |- context [updateWhereId ?a ?b ?c ?w0] =>
      destruct (updateWhereId_missing a b c w0 H) as (w' & Hu & Ho & Hi & _) end.
    exists w'. rewrite Hu. auto.
  - unfold orderStore_updateDraftOrderIds. unfold bind at 1. cbn [emit].
    match goal with |- context [updateWhereId ?a ?b ?c ?w0] =>
      destruct (updateWhereId_missing a b c w0 H) as (w' & Hu & Ho & Hi & _) end.
    exists w'. rewrite Hu. auto.
Qed.

Lemma update_of_missing_order_witness :
  exists w',
    orderStore_updateStatus "no-such-order" cancelled sweepShop
      = (Err "Failed to update order status: Error: Order not found", w') /\
    w_orders w' = w_orders sweepShop.
Proof.
  destruct (proj1 (update_of_missing_order "no-such-order" sweepShop
                     ltac:(vm_compute; reflexivity)) cancelled) as (w' & H & Ho & _).
  exists w'. auto.
Defined.








Lemma mapM_rows_Forall2 rows w :
  exists os,
    mapM (fun r => rowToOrder (fst r) (snd r)) rows w = (Ok os, w) /\
    Forall2 (fun r o => fst (rowToOrder (fst r) (snd r) w) = Ok o) rows os.
Proof.
  induction rows as [|r rest (os & Hrun & Hall)].
  - exists []. split; [reflexivity | constructor].
  - destruct (rowToOrder_run (fst r) (snd r) w) as (o & Ho & _).
    exists (o :: os). cbn [mapM]. rewrite (bind_Ok _ _ _ _ _ Ho), (bind_Ok _ _ _ _ _ Hrun).
    split; [reflexivity|]. constructor; [now rewrite Ho | exact Hall].
Qed.




Lemma Forall2_order_ids rows os w :
  Forall2 (fun r o => fst (rowToOrder (fst r) (snd r) w) = Ok o) rows os ->
  map o_id os = map fst rows.
Proof.
  induction 1 as [|r o l l' Hro _ IH]; [reflexivity|].
  cbn [map]. rewrite IH. f_equal.
  unfold rowToOrder, bind, getOrderItems, ret in Hro. cbn [fst] in Hro.
  now injection Hro as <-.
Qed.

Lemma Forall2_order_of rows os w o :
  Forall2 (fun r o => fst (rowToOrder (fst r) (snd r) w) = Ok o) rows os ->
  In o os ->
  exists r, In r rows /\ fst (rowToOrder (fst r) (snd r) w) = Ok o.
Proof.
  induction 1 as [|r o' l l' Hro _ IH]; intros Ho; [destruct Ho|].
  destruct Ho as [->|Ho]; [exists r; split; [left; reflexivity | exact Hro]|].
  destruct (IH Ho) as (r' & Hr' & H'). exists r'. split; [right; exact Hr' | exact H'].
Qed.








Example orders_of_user_sample :
  fst (orderStore_findByUser "ada.near" (Some 1%nat) None ordersShop)
  = Ok ([ {| o_id := "o3"; o_userId := "ada.near"; o_status := pending;
             o_totalAmount := cents_to_number 900; o_currency := "USD";
             o_checkoutSessionId := None; o_checkoutProvider := None;
             o_draftOrderIds := None; o_shippingMethod := None;
             o_fulfillmentReferenceId := None;
             o_createdAt := 1699990000000; o_updatedAt := 1699990000000;
             o_items := [] |} ], 2%nat).
Proof. vm_compute. reflexivity. Qed.

Lemma filter_unique {A B} (p : A * B -> bool) (l : list (A * B)) k v :
  List.NoDup (map fst l) ->
  (forall x, In x l -> p x = true -> fst x = k) ->
  In (k, v) l -> p (k, v) = true ->
  List.filter p l = [(k, v)].
Proof.
  induction l as [|x l IH]; intros Hnd Hp Hin Hpk; [destruct Hin|].
  cbn [map] in Hnd. apply List.NoDup_cons_iff in Hnd as [Hnotin Hnd].
  cbn [List.filter]. destruct Hin as [->|Hin].
  - rewrite Hpk. f_equal. cbn [fst] in Hnotin.
    destruct (List.filter p l) as [|y ys] eqn:E; [reflexivity|]. exfalso.
    assert (Hy : In y (List.filter p l)) by (rewrite E; left; reflexivity).
    apply filter_In in Hy as [Hy Hpy]. apply Hnotin.
    rewrite <- (Hp y (or_intror Hy) Hpy). now apply in_map.
  - destruct (p x) eqn:Hpx.
    + exfalso. apply Hnotin. rewrite (Hp x (or_introl eq_refl) Hpx).
      apply (in_map fst) in Hin. exact Hin.
    + apply IH; auto. intros y Hy. apply Hp. right. exact Hy.
Qed.

Lemma firstWhere_none p w :
  (forall id row, w_orders w !! id = Some row -> p row = false) ->
  firstWhere p w = (Ok None, w).
Proof.
  intros H. unfold firstWhere.
  destruct (List.filter (fun r => p (snd r)) (map_to_list (w_orders w))) as [|[id row] l] eqn:E;
    [reflexivity|]. exfalso.
  assert (Hin : In (id, row) (List.filter (fun r => p (snd r)) (map_to_list (w_orders w))))
    by (rewrite E; left; reflexivity).
  apply filter_In in Hin as [Hin Hp]. cbn [snd] in Hp.
  apply list_elem_of_In, elem_of_map_to_list in Hin. rewrite (H id row Hin) in Hp. discriminate.
Qed.

Lemma firstWhere_unique p w id row :
  w_orders w !! id = Some row -> p row = true ->
  (forall id' row', w_orders w !! id' = Some row' -> p row' = true -> id' = id) ->
  firstWhere p w = bind (rowToOrder id row) (fun o => ret (Some o)) w.
Proof.
  intros Hrow Hp Huniq. unfold firstWhere.
  rewrite (filter_unique (fun r => p (snd r)) (map_to_list (w_orders w)) id row).
  - reflexivity.
  - apply NoDup_ListNoDup, (NoDup_fst_map_to_list (w_orders w)).
  - intros [id' row'] Hin Hp'. cbn [fst snd] in *.
    apply list_elem_of_In, elem_of_map_to_list in Hin. eauto.
  - apply list_elem_of_In, elem_of_map_to_list. exact Hrow.
  - exact Hp.
Qed.

(** X6. Finding an order by its checkout session.  A session id no order
    carries is answered with no order.  After [updateCheckout] has
    recorded a session id on an order, and no other order carries that
    id, [findByCheckoutSession] returns that very order. *)
Theorem find_by_checkout_session sessionId w :
  ((forall id row, w_orders w !! id = Some row ->
                   row_checkoutSessionId row <> Some sessionId) ->
   orderStore_findByCheckoutSession sessionId w = (Ok None, w)) /\
  (forall id row,
     w_orders w !! id = Some row ->
     (forall id' row', w_orders w !! id' = Some row' ->
                       row_checkoutSessionId row' = Some sessionId -> id' = id) ->
     exists o w',
       orderStore_updateCheckout id sessionId "stripe" w = (Ok o, w') /\
       orderStore_findByCheckoutSession sessionId w' = (Ok (Some o), w') /\
       o_id o = id).
Proof.
  split.
  - intros Hnone. apply firstWhere_none. intros id row Hrow.
    specialize (Hnone id row Hrow). destruct (row_checkoutSessionId row) as [s|]; [|reflexivity].
    apply String.eqb_neq. congruence.
  - intros id row Hrow Huniq.
    unfold orderStore_updateCheckout. unfold bind at 1. cbn [emit].
    match goal with |- context [updateWhereId ?a ?b ?c ?w0] =>
      destruct (updateWhereId_found a b c w0 row Hrow)
        as (o & w' & Hu & Hf & Hor & Hit & _ & _ & Ho) end.
    world_simpl. exists o, w'. rewrite Hu. split; [reflexivity|].
    unfold orderStore_findByCheckoutSession.
    erewrite (firstWhere_unique _ w' id (withCheckout sessionId "stripe" (w_clock w) row)).
    + unfold findOrderById in Hf. rewrite Hor in Hf. world_simpl.
      rewrite lookup_insert_eq in Hf. unfold bind, ret.
      destruct (rowToOrder id _ w') as [[o1|e] w1] eqn:E; [|discriminate].
      injection Hf as <- <-. split; [reflexivity|].
      unfold rowToOrder, bind, getOrderItems, ret in E. now injection E as <-.
    + rewrite Hor. world_simpl. apply lookup_insert_eq.
    + cbn [withCheckout row_checkoutSessionId]. apply String.eqb_refl.
    + intros id' row'. rewrite Hor. world_simpl. rewrite lookup_insert.
      destruct (decide (id = id')) as [<-|Hne]; [reflexivity|].
      intros Hrow' Hs. destruct (row_checkoutSessionId row') as [s|] eqn:Es; [|discriminate].
      apply String.eqb_eq in Hs as ->. eapply Huniq; eauto.
Qed.

Lemma find_by_checkout_session_witness :
  orderStore_findByCheckoutSession "cs_9" ordersShop = (Ok None, ordersShop) /\
  exists o w',
    orderStore_updateCheckout "o3" "cs_9" "stripe" ordersShop = (Ok o, w') /\
    orderStore_findByCheckoutSession "cs_9" w' = (Ok (Some o), w') /\
    o_id o = "o3".
Proof.
  assert (Hrows : forall id row, w_orders ordersShop !! id = Some row ->
                                 row_checkoutSessionId row <> Some "cs_9").
  { intros id row H. cbn [w_orders ordersShop] in H.
    rewrite !lookup_insert in H.
    repeat (destruct (decide _) in H; [injection H as <-; discriminate|]).
    apply lookup_singleton_Some in H as [_ <-]. discriminate. }
  split.
  - apply (proj1 (find_by_checkout_session "cs_9" ordersShop) Hrows).
  - destruct (proj2 (find_by_checkout_session "cs_9" ordersShop) "o3" _
                ltac:(vm_compute; reflexivity)) as (o & w' & H).
    + intros id' row' Hrow' Hs. exfalso. exact (Hrows id' row' Hrow' Hs).
    + exists o, w'. exact H.
Defined.

(** ** Steps and their events *)






Lemma unchanged_refl w : unchanged_but_trace w w.
Proof. repeat split. Qed.

Lemma unchanged_trans w1 w2 w3 :
  unchanged_but_trace w1 w2 -> unchanged_but_trace w2 w3 -> unchanged_but_trace w1 w3.
Proof.
  intros (A1 & B1 & C1 & D1 & E1 & F1) (A2 & B2 & C2 & D2 & E2 & F2).
  repeat split; congruence.
Qed.

(** ** What the grouping loop keeps *)

Lemma map_push_names k x g : map fst (map_push k x g) = map fst g.
Proof.
  induction g as [|[k' l] g IH]; [reflexivity|]. cbn [map_push].
  destruct (String.eqb k' k); cbn [map fst]; [reflexivity | now rewrite IH].
Qed.

Lemma map_has_In g k : map_has g k = true <-> In k (map fst g).
Proof.
  induction g as [|[k' l] g IH]; cbn [map_has map fst]; [split; [discriminate|intros []]|].
  destruct (String.eqb k' k) eqn:E.
  - apply String.eqb_eq in E. split; [intros _; left; exact E | reflexivity].
  - apply String.eqb_neq in E. rewrite IH. split; [intros H; right; exact H|].
    intros [H|H]; [contradiction|exact H].
Qed.

Lemma push_step_names k x g :
  List.NoDup (map fst g) ->
  List.NoDup (map fst (map_push k x (if map_has g k then g else g ++ [(k, [])]))).
Proof.
  intros Hnd. rewrite map_push_names. destruct (map_has g k) eqn:E; [exact Hnd|].
  rewrite map_app. cbn [map fst].
  apply List.NoDup_app. repeat split.
  - exact Hnd.
  - constructor; [intros []|constructor].
  - intros y Hy [<-|[]]. apply map_has_In in Hy. congruence.
Qed.

Lemma map_push_perm k x g :
  map_has g k = true ->
  Permutation (allItems (map_push k x g)) (x :: allItems g).
Proof.
  unfold allItems. induction g as [|[k' l] g IH]; cbn [map_has map_push]; [discriminate|].
  destruct (String.eqb k' k); intros H; cbn [map snd concat].
  - rewrite <- app_assoc. cbn [app].
    rewrite <- Permutation_middle. reflexivity.
  - rewrite (IH H). rewrite Permutation_middle. reflexivity.
Qed.

Lemma push_step_perm k x g :
  Permutation (allItems (map_push k x (if map_has g k then g else g ++ [(k, [])])))
              (x :: allItems g).
Proof.
  destruct (map_has g k) eqn:E; [now apply map_push_perm|].
  rewrite map_push_perm by apply map_has_new.
  unfold allItems. rewrite map_app, concat_app. cbn. now rewrite !app_nil_r.
Qed.

Lemma map_push_new k x g :
  map_has g k = false -> map_push k x (g ++ [(k, [])]) = g ++ [(k, [x])].
Proof.
  induction g as [|[k' l] g IH]; cbn [map_has app map_push].
  - intros _. now rewrite String.eqb_refl.
  - destruct (String.eqb k' k); [discriminate|]. intros H. now rewrite IH.
Qed.

Lemma map_push_nonempty k x g :
  Forall (fun b => snd b <> []) g -> Forall (fun b => snd b <> []) (map_push k x g).
Proof.
  induction 1 as [|[k' l] g Hb Hg IH]; [constructor|]. cbn [map_push].
  destruct (String.eqb k' k); constructor; auto. cbn. now destruct l.
Qed.

Lemma push_step_nonempty k x g :
  Forall (fun b => snd b <> []) g ->
  Forall (fun b => snd b <> [])
         (map_push k x (if map_has g k then g else g ++ [(k, [])])).
Proof.
  intros Hg. destruct (map_has g k) eqn:E; [now apply map_push_nonempty|].
  rewrite (map_push_new _ _ _ E). apply Forall_app. split; [exact Hg|].
  constructor; [discriminate | constructor].
Qed.

(** A property of the buckets that adding one cart line keeps holds of
    the buckets the loop returns. *)
Lemma groupItems_invariant (P : ItemsByProvider -> Prop) items : forall acc sub w g s,
  (forall acc k x, P acc ->
     P (map_push k x (if map_has acc k then acc else acc ++ [(k, [])]))) ->
  P acc ->
  groupItems items acc sub w = (Ok (g, s), w) ->
  P g.
Proof.
  induction items as [|item rest IH]; intros acc sub w g s Hstep HP H.
  - now injection H as <- _.
  - destruct (w_products w !! productId item) as [product|] eqn:Hfind.
    + rewrite (groupItems_cons _ _ _ _ _ _ Hfind) in H. eapply IH; [exact Hstep| |exact H].
      now apply Hstep.
    + rewrite (groupItems_cons_missing _ _ _ _ _ Hfind) in H. discriminate.
Qed.

Lemma groupItems_names items w g s :
  groupItems items [] 0%Q w = (Ok (g, s), w) -> List.NoDup (map fst g).
Proof.
  apply (groupItems_invariant (fun g => List.NoDup (map fst g))).
  - intros acc k x. apply push_step_names.
  - constructor.
Qed.

Lemma groupItems_nonempty items w g s :
  groupItems items [] 0%Q w = (Ok (g, s), w) -> Forall (fun b => snd b <> []) g.
Proof.
  apply (groupItems_invariant (fun g => Forall (fun b => snd b <> []) g)).
  - intros acc k x. apply push_step_nonempty.
  - constructor.
Qed.

(** ** What a quote does to the world *)

Lemma quoteProvider_effect rt address acc name its w r w' :
  quoteProvider rt address acc name its w = (r, w') ->
  unchanged_but_trace w w' /\
  ((w_trace w' = w_trace w /\ (getProvider rt name = None \/ False)) \/
   (w_trace w' = w_trace w ++ [EvQuoteOrder name (quoteRequest address its)] /\
    is_Some (getProvider rt name))).
Proof.
  unfold quoteProvider. destruct (getProvider rt name) as [provider|] eqn:Hp.
  - unfold bind. cbn [emit].
    destruct (quoteOrder (fp_client provider) (quoteRequest address its)) as [result|e];
      [destruct (default [] (sqo_rates result))|];
      intros [= _ <-]; (split; [repeat split|]); right; split; eauto.
  - destruct (String.eqb name "manual"); intros [= _ <-];
      (split; [repeat split|]); left; auto.
Qed.

Lemma quoteProviders_effect rt address buckets : forall acc w r w',
  quoteProviders rt address buckets acc w = (r, w') ->
  unchanged_but_trace w w' /\
  exists queried,
    sublist queried buckets /\
    w_trace w' =
      w_trace w ++ map (fun b => EvQuoteOrder (fst b) (quoteRequest address (snd b))) queried /\
    Forall (fun b => is_Some (getProvider rt (fst b))) queried.
Proof.
  induction buckets as [|[name its] rest IH]; intros acc w r w' H.
  - injection H as _ <-. split; [apply unchanged_refl|]. exists [].
    split; [constructor|]. cbn. now rewrite app_nil_r.
  - cbn [quoteProviders] in H. unfold bind in H.
    destruct (quoteProvider rt address acc name its w) as [[acc1|e] w1] eqn:H1;
      apply quoteProvider_effect in H1 as [Hu1 Ht1].
    + apply IH in H as (Hu & queried & Hsub & Ht & Hall).
      split; [eapply unchanged_trans; eauto|].
      destruct Ht1 as [[Ht1 _]|[Ht1 Hp]].
      * exists queried. split; [now apply sublist_cons|]. split; [congruence | exact Hall].
      * exists ((name, its) :: queried). split; [now apply sublist_skip|].
        split; [|now constructor]. rewrite Ht, Ht1, <- app_assoc. reflexivity.
    + injection H as _ <-. split; [exact Hu1|].
      destruct Ht1 as [[Ht1 _]|[Ht1 Hp]].
      * exists []. split; [apply sublist_nil_l|]. cbn. now rewrite app_nil_r.
      * exists [(name, its)]. split; [apply sublist_skip, sublist_nil_l|].
        split; [exact Ht1 | now repeat constructor].
Qed.

Lemma getQuote_world rt items address w groups sub :
  groupItems items [] 0%Q w = (Ok (groups, sub), w) ->
  snd (getQuote rt items address w) =
  snd (quoteProviders rt address groups quoteAcc0 w).
Proof.
  intros Hg. unfold getQuote. rewrite (bind_Ok _ _ _ _ _ Hg). cbn [fst snd].
  unfold bind. now destruct (quoteProviders rt address groups quoteAcc0 w) as [[acc|e] w1].
Qed.

Lemma getQuote_world_Err rt items address w message :
  groupItems items [] 0%Q w = (Err message, w) ->
  snd (getQuote rt items address w) = w.
Proof.
  intros Hg. unfold getQuote. now rewrite (bind_Err _ _ _ _ _ Hg).
Qed.

(** X7. A quote reads and asks, and does nothing else.  Whatever its
    outcome, [getQuote] leaves catalog, orders and order lines as they
    were and generates no id.  The calls it makes are [quoteOrder]
    requests only: at most one per provider, each to a configured
    provider, for one of the cart's buckets, with the recipient built from
    the address and with at least one item. *)
Theorem quote_is_read_only rt items address w :
  unchanged_but_trace w (snd (getQuote rt items address w)) /\
  exists queried,
    w_trace (snd (getQuote rt items address w)) =
      w_trace w ++ map (fun b => EvQuoteOrder (fst b) (quoteRequest address (snd b))) queried /\
    List.NoDup (map fst queried) /\
    forall b, In b queried ->
      In b (bucketsOf w items) /\
      is_Some (getProvider rt (fst b)) /\
      sqi_recipient (quoteRequest address (snd b)) = buildRecipient address /\
      sqi_items (quoteRequest address (snd b)) <> [].
Proof.
  unfold bucketsOf.
  destruct (groupItems_cases items [] 0%Q w) as [([groups sub] & Hg)|(m & Hg)].
  - rewrite (getQuote_world _ _ _ _ _ _ Hg), Hg. cbn [fst].
    pose proof (groupItems_names _ _ _ _ Hg) as Hnames.
    pose proof (groupItems_nonempty _ _ _ _ Hg) as Hne.
    destruct (quoteProviders rt address groups quoteAcc0 w) as [r w1] eqn:Hq.
    apply quoteProviders_effect in Hq as (Hu & queried & Hsub & Ht & Hall).
    cbn [snd]. split; [exact Hu|]. exists queried. split; [exact Ht|]. split.
    + apply NoDup_ListNoDup.
      apply (sublist_NoDup (fst <$> queried) (fst <$> groups)).
      * apply NoDup_ListNoDup. exact Hnames.
      * now apply fmap_sublist.
    + intros b Hb.
      assert (Hin : In b groups).
      { apply list_elem_of_In. eapply elem_of_sublist; [|exact Hsub].
        now apply list_elem_of_In. }
      split; [exact Hin|]. split.
      { rewrite List.Forall_forall in Hall. now apply Hall. }
      split; [reflexivity|].
      rewrite List.Forall_forall in Hne. specialize (Hne b Hin).
      cbn [quoteRequest sqi_items]. unfold mapToFulfillmentItems.
      destruct (snd b); [contradiction | discriminate].
  - rewrite (getQuote_world_Err _ _ _ _ _ Hg), Hg.
    split; [apply unchanged_refl|]. exists []. cbn. rewrite app_nil_r.
    split; [reflexivity|]. split; [constructor | intros b []].
Qed.

(** ** Sums of amounts *)

Lemma fold_Qplus l : forall a, (fold_left Qplus l a == a + sumQ l)%Q.
Proof.
  unfold sumQ. induction l as [|x l IH]; intros a; cbn [fold_left].
  - ring.
  - rewrite IH, (IH (0 + x)%Q). ring.
Qed.

Lemma sumQ_cons x l : (sumQ (x :: l) == x + sumQ l)%Q.
Proof. unfold sumQ at 1. cbn [fold_left]. rewrite fold_Qplus. ring. Qed.

Lemma sumQ_app l1 l2 : (sumQ (l1 ++ l2) == sumQ l1 + sumQ l2)%Q.
Proof.
  induction l1 as [|x l1 IH]; cbn [app].
  - unfold sumQ at 2. cbn [fold_left]. ring.
  - rewrite !sumQ_cons, IH. ring.
Qed.

Lemma sumQ_perm l1 l2 : Permutation l1 l2 -> (sumQ l1 == sumQ l2)%Q.
Proof.
  induction 1 as [|x l1 l2 _ IH|x y l|l1 l2 l3 _ IH1 _ IH2].
  - reflexivity.
  - rewrite !sumQ_cons, IH. reflexivity.
  - rewrite !sumQ_cons. ring.
  - now rewrite IH1.
Qed.

Lemma bucketSubtotal_fold its : forall a,
  (fold_left (fun sum pi => (sum + pi_price pi * inject_Z (quantity (pi_item pi)))%Q) its a
   == a + sumQ (map lineTotal its))%Q.
Proof.
  induction its as [|x its IH]; intros a; cbn [fold_left map].
  - unfold sumQ. cbn [fold_left]. ring.
  - rewrite IH, sumQ_cons. unfold lineTotal. ring.
Qed.

Lemma bucketSubtotal_lines its : bucketSubtotal its = sumQ (map lineTotal its).
Proof.
  unfold bucketSubtotal, sumQ. generalize 0%Q.
  induction its as [|x its IH]; intros a; cbn [fold_left map]; [reflexivity|].
  apply IH.
Qed.

Lemma bucketSubtotal_sum its : (bucketSubtotal its == sumQ (map lineTotal its))%Q.
Proof. unfold bucketSubtotal. rewrite bucketSubtotal_fold. ring. Qed.

Lemma bucketsTotal_sum g : (bucketsTotal g == sumQ (map lineTotal (allItems g)))%Q.
Proof.
  unfold bucketsTotal, allItems. induction g as [|[k its] g IH]; cbn [map snd concat].
  - reflexivity.
  - rewrite sumQ_cons, map_app, sumQ_app, IH, bucketSubtotal_sum. reflexivity.
Qed.

(** ** What the grouping loop makes of the cart *)

Lemma linesFor_snoc name k x seen :
  linesFor name (seen ++ [(k, x)]) =
  linesFor name seen ++ (if String.eqb k name then [x] else []).
Proof.
  unfold linesFor. rewrite List.filter_app, map_app. cbn [List.filter fst].
  now destruct (String.eqb k name).
Qed.

Lemma linesFor_none name seen : ~ In name (map fst seen) -> linesFor name seen = [].
Proof.
  unfold linesFor. induction seen as [|[k x] seen IH]; [reflexivity|].
  cbn [map fst In List.filter]. intros H.
  destruct (String.eqb k name) eqn:E.
  - apply String.eqb_eq in E. exfalso. apply H. now left.
  - apply IH. intros Hin. apply H. now right.
Qed.

Lemma linesFor_some name seen : linesFor name seen <> [] -> In name (map fst seen).
Proof.
  intros H. destruct (in_dec String.string_dec name (map fst seen)) as [Hin|Hout]; [exact Hin|].
  now rewrite linesFor_none in H.
Qed.

Lemma In_map_push k x g name its :
  List.NoDup (map fst g) ->
  In (name, its) (map_push k x g) ->
  (name = k /\ exists its0, In (k, its0) g /\ its = its0 ++ [x]) \/
  (name <> k /\ In (name, its) g).
Proof.
  induction g as [|[k' l] g IH]; cbn [map_push map fst]; [intros _ []|].
  intros Hnd Hin. apply List.NoDup_cons_iff in Hnd as [Hk' Hnd].
  destruct (String.eqb k' k) eqn:E.
  - apply String.eqb_eq in E as ->. destruct Hin as [[= <- <-]|Hin].
    + left. split; [reflexivity|]. exists l. split; [now left | reflexivity].
    + right. split; [|now right]. intros ->. apply Hk'.
      apply (in_map fst) in Hin. exact Hin.
  - apply String.eqb_neq in E. destruct Hin as [[= <- <-]|Hin].
    + right. split; [exact E | now left].
    + destruct (IH Hnd Hin) as [(-> & its0 & Hin0 & ->)|(Hne & Hin0)].
      * left. split; [reflexivity|]. exists its0. split; [now right | reflexivity].
      * right. split; [exact Hne | now right].
Qed.

Lemma grouped_as_step seen acc sub k x :
  grouped_as seen acc sub ->
  grouped_as (seen ++ [(k, x)])
    (map_push k x (if map_has acc k then acc else acc ++ [(k, [])]))
    (sub + lineTotal x)%Q.
Proof.
  intros (Hnd & Hits & Hnames & Hperm & Hsub).
  pose proof (push_step_names k x acc Hnd) as Hnd'.
  split; [exact Hnd'|]. rewrite map_push_names in Hnd'. split; [|split; [|split]].
  - intros name its Hin. rewrite linesFor_snoc.
    apply (In_map_push _ _ _ _ _ Hnd') in Hin
      as [(-> & its0 & Hin0 & ->)|(Hne & Hin0)].
    + rewrite String.eqb_refl. f_equal.
      destruct (map_has acc k) eqn:E; [now apply Hits|].
      apply in_app_or in Hin0 as [Hin0|[[= <-]|[]]]; [now apply Hits|].
      symmetry. apply linesFor_none. intros Hin. apply Hnames, map_has_In in Hin.
      congruence.
    + assert (E : String.eqb k name = false) by (apply String.eqb_neq; congruence).
      rewrite E, app_nil_r. apply Hits.
      destruct (map_has acc k); [exact Hin0|].
      apply in_app_or in Hin0 as [Hin0|[[= <-]|[]]]; [exact Hin0 | contradiction].
  - intros name. rewrite map_push_names, map_app. cbn [map fst]. intros Hin.
    apply in_app_or in Hin as [Hin|[<-|[]]].
    + apply Hnames in Hin. destruct (map_has acc k); [exact Hin|].
      rewrite map_app. apply in_or_app. now left.
    + destruct (map_has acc k) eqn:E; [now apply map_has_In|].
      rewrite map_app. apply in_or_app. right. now left.
  - rewrite push_step_perm, map_app. cbn [map snd].
    rewrite <- Permutation_cons_append. now apply perm_skip.
  - rewrite !map_app. cbn [map snd]. rewrite sumQ_snoc, <- Hsub. reflexivity.
Qed.

Lemma groupItems_grouped items : forall acc sub w g s seen,
  grouped_as seen acc sub ->
  groupItems items acc sub w = (Ok (g, s), w) ->
  grouped_as (seen ++ cartLines w items) g s /\
  length (cartLines w items) = length items.
Proof.
  induction items as [|item rest IH]; intros acc sub w g s seen Hinv H.
  - injection H as <- <-. cbn [cartLines]. now rewrite app_nil_r.
  - cbn [cartLines]. destruct (w_products w !! productId item) as [product|] eqn:Hfind.
    + rewrite (groupItems_cons _ _ _ _ _ _ Hfind) in H.
      apply (grouped_as_step _ _ _ (providerOf product) (resolveItem item product)) in Hinv.
      destruct (IH _ _ _ _ _ _ Hinv H) as [Hg Hlen].
      rewrite <- app_assoc in Hg. cbn [app] in Hg. split; [exact Hg|].
      cbn [length]. now rewrite Hlen.
    + now rewrite (groupItems_cons_missing _ _ _ _ _ Hfind) in H.
Qed.

Lemma grouped_as_nil : grouped_as [] [] 0%Q.
Proof.
  split; [constructor|]. split; [intros ? ? []|]. split; [intros ? []|].
  split; [constructor | reflexivity].
Qed.

Lemma quoteProviders_reports rt address buckets : forall acc w acc' w',
  quoteProviders rt address buckets acc w = (Ok acc', w') ->
  exists new,
    providerBreakdown acc' = providerBreakdown acc ++ new /\
    Forall2 reports buckets new.
Proof.
  induction buckets as [|[name its] rest IH]; intros acc w acc' w' H.
  - injection H as <- _. exists []. now rewrite app_nil_r.
  - cbn [quoteProviders] in H. apply bind_inv_Ok in H as (acc1 & w1 & H1 & H2).
    apply IH in H2 as (new & Hbd & Hall).
    apply quoteProvider_inv_Ok in H1
      as [(_ & -> & -> & _)|(provider & result & first & others & _ & _ & _ & ->)];
      cbn [addManualBucket addQuotedBucket providerBreakdown] in Hbd;
      rewrite <- app_assoc in Hbd; cbn [app] in Hbd;
      eexists; (split; [exact Hbd|]); (constructor; [|exact Hall]);
      repeat split.
Qed.

Lemma reports_names buckets bd :
  Forall2 reports buckets bd -> map pb_provider bd = map fst buckets.
Proof.
  induction 1 as [|b pb buckets bd (Hn & _) _ IH]; [reflexivity|].
  cbn [map]. now rewrite Hn, IH.
Qed.

Lemma reports_counts buckets bd :
  Forall2 reports buckets bd ->
  list_sum (map pb_itemCount bd) = length (allItems buckets).
Proof.
  unfold allItems.
  induction 1 as [|b pb buckets bd (_ & Hc & _) _ IH]; [reflexivity|].
  cbn [map concat]. rewrite length_app, <- Hc, <- IH. reflexivity.
Qed.

Lemma reports_subtotals buckets bd :
  Forall2 reports buckets bd -> map pb_subtotal bd = map (fun b => bucketSubtotal (snd b)) buckets.
Proof.
  induction 1 as [|b pb buckets bd (_ & _ & Hs) _ IH]; [reflexivity|].
  cbn [map]. now rewrite Hs, IH.
Qed.

Lemma Forall2_both_In {A B} (P Q : A -> B -> Prop) l l' y :
  Forall2 P l l' -> Forall2 Q l l' -> In y l' -> exists x, In x l /\ P x y /\ Q x y.
Proof.
  intros HP. revert y. induction HP as [|a b l l' Hab _ IH]; intros y HQ Hin; [destruct Hin|].
  inversion HQ as [|? ? ? ? Hq HQ']; subst. destruct Hin as [->|Hin].
  - exists a. split; [now left | split; assumption].
  - destruct (IH _ HQ' Hin) as (x & Hx & Hp & Hq'). exists x. split; [now right | split; assumption].
Qed.

Lemma reports_In buckets bd pb :
  Forall2 reports buckets bd -> In pb bd -> exists b, In b buckets /\ reports b pb.
Proof.
  induction 1 as [|b pb' buckets bd Hr _ IH]; intros Hin; [destruct Hin|].
  destruct Hin as [->|Hin].
  - exists b. split; [now left | exact Hr].
  - destruct (IH Hin) as (b' & Hb & Hr'). exists b'. split; [now right | exact Hr'].
Qed.


(** X8. What a quote's breakdown says about the cart.  When [getQuote]
    succeeds every cart line was found in the catalog, and the breakdown
    has exactly one entry per provider that fulfils some line.  The entry
    of a provider counts that provider's lines, its subtotal is the sum of
    price times quantity over those lines, added in cart order, and its
    rates are the answer for those lines: the manual rate for the
    ['manual'] lines of a runtime without such a provider, otherwise the
    rates the provider's [quoteOrder] returned for the request made of
    those lines, with one of least cost selected.  The item counts add up
    to the number of cart lines, and the quote's subtotal is the sum over
    all lines, added in cart order. *)
Theorem quote_breakdown_partitions_cart rt items address w q w' :
  getQuote rt items address w = (Ok q, w') ->
  length (cartLines w items) = length items /\
  List.NoDup (map pb_provider (q_providerBreakdown q)) /\
  (forall name, In name (map pb_provider (q_providerBreakdown q)) <->
                In name (map fst (cartLines w items))) /\
  (forall pb, In pb (q_providerBreakdown q) ->
     pb_itemCount pb = length (linesFor (pb_provider pb) (cartLines w items)) /\
     pb_subtotal pb = sumQ (map lineTotal (linesFor (pb_provider pb) (cartLines w items))) /\
     answered_by rt address
       (pb_provider pb, linesFor (pb_provider pb) (cartLines w items)) pb) /\
  list_sum (map pb_itemCount (q_providerBreakdown q)) = length items /\
  q_subtotal q = sumQ (map lineTotal (map snd (cartLines w items))).
Proof.
  intros H. pose proof (getQuote_answered _ _ _ _ _ _ H) as Hans.
  apply getQuote_inv_Ok in H as (groups & sub & acc & Hg & Hq & ->).
  unfold bucketsOf in Hans. rewrite Hg in Hans.
  cbn [fst q_providerBreakdown] in Hans.
  cbn [q_providerBreakdown q_subtotal].
  pose proof (groupItems_nonempty _ _ _ _ Hg) as Hne.
  destruct (groupItems_grouped _ _ _ _ _ _ [] grouped_as_nil Hg)
    as [(Hnd & Hits & Hnames & Hperm & Hsub) Hlen].
  cbn [app] in Hits, Hnames, Hperm, Hsub.
  apply quoteProviders_reports in Hq as (bd & Hbd & Hrep).
  cbn [quoteAcc0 providerBreakdown app] in Hbd. rewrite Hbd in Hans |- *.
  split; [exact Hlen|]. rewrite (reports_names _ _ Hrep).
  split; [exact Hnd|]. split; [|split; [|split]].
  - intros name. split; [|apply Hnames].
    intros Hin. apply in_map_iff in Hin as ([name' its] & <- & Hin). cbn [fst].
    apply linesFor_some. rewrite <- (Hits _ _ Hin).
    rewrite List.Forall_forall in Hne. exact (Hne _ Hin).
  - intros pb Hin.
    destruct (Forall2_both_In _ _ _ _ _ Hrep Hans Hin)
      as ([name its] & Hb & (Hn & Hc & Hs) & Ha).
    cbn [fst snd] in Hn, Hc, Hs. rewrite Hn, Hc, Hs, bucketSubtotal_lines.
    rewrite <- (Hits _ _ Hb). split; [reflexivity|]. split; [reflexivity | exact Ha].
  - rewrite (reports_counts _ _ Hrep), (Permutation_length Hperm), length_map. exact Hlen.
  - exact Hsub.
Qed.

Lemma quote_breakdown_partitions_cart_witness :
  exists q w',
    getQuote rtPrintful [item_mug2; item_tee; item_mug2] sampleAddress shop = (Ok q, w') /\
    map pb_provider (q_providerBreakdown q) = ["manual"; "printful"] /\
    list_sum (map pb_itemCount (q_providerBreakdown q)) = 3 /\
    q_subtotal q = sumQ [(10 * 2)%Q; (27 * 1)%Q; (10 * 2)%Q].
Proof.
  eexists _, _. split; [vm_compute; reflexivity|].
  pose proof (quote_breakdown_partitions_cart rtPrintful [item_mug2; item_tee; item_mug2]
                sampleAddress shop _ _ ltac:(vm_compute; reflexivity))
    as (_ & _ & _ & _ & Hc & Hs).
  split; [vm_compute; reflexivity|]. split; [exact Hc | exact Hs].
Defined.

(** ** The steps of a checkout *)

Lemma orderStore_create_run input w :
  w_orders w !! nextOrderId w = None ->
  exists order w1,
    orderStore_create input w = (Ok order, w1) /\
    o_id order = nextOrderId w /\
    w_orders w1 = <[nextOrderId w := newOrderRow input (w_clock w)]> (w_orders w) /\
    w_orderItems w1 =
      w_orderItems w ++ imap (newItemRow (nextOrderId w) (w_clock w)) (co_items input) /\
    w_clock w1 = w_clock w /\
    w_products w1 = w_products w /\
    w_trace w1 = w_trace w ++ [EvStoreCreate input].
Proof.
  unfold nextOrderId. intros Hfresh.
  unfold orderStore_create, bind, emit, now, randomUUID, insertOrder, set_orders; world_simpl.
  rewrite Hfresh.
  destruct (co_items input) as [|item rest] eqn:Hitems; cbn [length Nat.ltb Nat.leb];
    unfold add_orderItems, ret, findOrderById; world_simpl;
    rewrite lookup_insert_eq; unfold rowToOrder, bind, getOrderItems, ret; world_simpl;
    eexists _, _; (split; [reflexivity|]); world_simpl; cbn [o_id imap];
    rewrite ?app_nil_r; auto 10.
Qed.

Lemma orderStore_create_collision input w row :
  w_orders w !! nextOrderId w = Some row ->
  exists w1,
    orderStore_create input w
      = (Err ("Failed to create order: "
              +:+ w_insertError w (nextOrderId w) (newOrderRow input (w_clock w))), w1) /\
    w_orders w1 = w_orders w /\ w_orderItems w1 = w_orderItems w /\
    w_products w1 = w_products w /\
    w_trace w1 = w_trace w ++ [EvStoreCreate input].
Proof.
  unfold nextOrderId. intros Hrow.
  unfold orderStore_create, bind, emit, now, randomUUID, insertOrder, set_orders; world_simpl.
  rewrite Hrow. eexists. split; [reflexivity|]. world_simpl. auto.
Qed.

Lemma emit_update_run ev what id f w row :
  w_orders w !! id = Some row ->
  exists o' w',
    bind (emit ev) (fun _ => updateWhereId what id f) w = (Ok o', w') /\
    w_orders w' = <[id := f (w_clock w) row]> (w_orders w) /\
    w_orderItems w' = w_orderItems w /\ w_clock w' = w_clock w /\
    w_products w' = w_products w /\
    w_trace w' = w_trace w ++ [ev].
Proof.
  intros H. unfold updateWhereId, bind, emit, now, set_orders, findOrderById; world_simpl.
  assert (Ha : alter (f (w_clock w)) id (w_orders w) = <[id := f (w_clock w) row]> (w_orders w)).
  { apply map_eq. intros j. rewrite lookup_alter, lookup_insert.
    destruct (decide (id = j)) as [<-|]; [now rewrite H | reflexivity]. }
  rewrite Ha, lookup_insert_eq. unfold rowToOrder, bind, getOrderItems, ret; world_simpl.
  eexists _, _. split; [reflexivity|]. world_simpl. auto.
Qed.

Lemma record_set_new k v r : ~ In k (map fst r) -> record_set k v r = r ++ [(k, v)].
Proof.
  induction r as [|[k' v'] r IH]; cbn [record_set map fst In app]; [reflexivity|].
  intros H. destruct (String.eqb k' k) eqn:E.
  - apply String.eqb_eq in E. exfalso. apply H. now left.
  - rewrite IH; [reflexivity|]. intros Hin. apply H. now right.
Qed.

Lemma draftProvider_effect rt order address rates ids name its w r w' :
  draftProvider rt order address rates ids name its w = (r, w') ->
  unchanged_but_trace w w' /\
  exists evs, w_trace w' = w_trace w ++ evs /\ Forall isGatewayCall evs.
Proof.
  unfold draftProvider.
  destruct (or_undefined (rates !! name)); [|intros [= _ <-]; split;
    [apply unchanged_refl | exists []; now rewrite app_nil_r]].
  destruct (String.eqb name "manual"); [intros [= _ <-]; split;
    [apply unchanged_refl | exists []; now rewrite app_nil_r]|].
  destruct (getProvider rt name) as [provider|]; [|intros [= _ <-]; split;
    [apply unchanged_refl | exists []; now rewrite app_nil_r]].
  unfold bind. cbn [emit].
  destruct (createOrder (fp_client provider) _); intros [= _ <-];
    (split; [repeat split | eexists; split; [reflexivity | now repeat constructor]]).
Qed.

Lemma draftProviders_effect rt order address rates buckets : forall ids w r w',
  draftProviders rt order address rates buckets ids w = (r, w') ->
  unchanged_but_trace w w' /\
  exists evs, w_trace w' = w_trace w ++ evs /\ Forall isGatewayCall evs.
Proof.
  induction buckets as [|[name its] rest IH]; intros ids w r w' H.
  - injection H as _ <-. split; [apply unchanged_refl | exists []; now rewrite app_nil_r].
  - cbn [draftProviders] in H. unfold bind in H.
    destruct (draftProvider rt order address rates ids name its w) as [[ids1|e] w1] eqn:H1;
      apply draftProvider_effect in H1 as (Hu1 & evs1 & Ht1 & Hg1).
    + apply IH in H as (Hu & evs & Ht & Hg). split; [eapply unchanged_trans; eauto|].
      exists (evs1 ++ evs). split; [now rewrite Ht, Ht1, app_assoc|].
      apply Forall_app. auto.
    + injection H as _ <-. split; [exact Hu1|]. now exists evs1.
Qed.

Lemma draftProvider_inv_Ok rt order address rates ids name its w ids' w' :
  draftProvider rt order address rates ids name its w = (Ok ids', w') ->
  is_Some (or_undefined (rates !! name)) /\
  ((needsDraft (name, its) = false /\ ids' = ids /\ w_trace w' = w_trace w) \/
   (needsDraft (name, its) = true /\
    exists provider draft,
      getProvider rt name = Some provider /\
      createOrder (fp_client provider) (draftRequest (o_id order) address its) = Ok draft /\
      ids' = record_set name (fo_id draft) ids /\
      w_trace w' = w_trace w ++ [draftEvent (o_id order) address (name, its)])).
Proof.
  unfold draftProvider, needsDraft. cbn [fst].
  destruct (or_undefined (rates !! name)) as [rate|]; [|discriminate].
  intros H. split; [eauto|].
  destruct (String.eqb name "manual"); [injection H as <- <-; left; auto|].
  destruct (getProvider rt name) as [provider|]; [|discriminate].
  unfold bind in H. cbn [emit] in H.
  destruct (createOrder (fp_client provider) _) as [draft|m] eqn:Hc; [|discriminate].
  injection H as <- <-. right. split; [reflexivity|]. exists provider, draft. auto.
Qed.

Lemma draftProviders_inv_Ok rt order address rates buckets : forall ids w ids' w',
  List.NoDup (map fst ids ++ map fst buckets) ->
  draftProviders rt order address rates buckets ids w = (Ok ids', w') ->
  Forall (fun b => is_Some (or_undefined (rates !! fst b))) buckets /\
  exists new,
    ids' = ids ++ new /\
    Forall2 (draft_of rt (o_id order) address) (List.filter needsDraft buckets) new /\
    w_trace w' =
      w_trace w ++ map (draftEvent (o_id order) address) (List.filter needsDraft buckets).
Proof.
  induction buckets as [|[name its] rest IH]; intros ids w ids' w' Hnd H.
  - injection H as <- <-. split; [constructor|]. exists []. cbn. now rewrite !app_nil_r.
  - cbn [draftProviders] in H. apply bind_inv_Ok in H as (ids1 & w1 & H1 & H2).
    cbn [map fst] in Hnd.
    apply draftProvider_inv_Ok in H1
      as [Hrate [(Hd & -> & Ht1)|(Hd & provider & draft & Hp & Hc & -> & Ht1)]];
      cbn [List.filter]; rewrite Hd.
    + apply IH in H2 as (Hall & new & -> & Hnew & Ht); [|now apply List.NoDup_remove_1 in Hnd].
      split; [now constructor|]. exists new. split; [reflexivity|]. split; [exact Hnew|].
      now rewrite Ht, Ht1.
    + rewrite record_set_new in H2.
      2:{ apply List.NoDup_remove_2 in Hnd. intros Hin. apply Hnd, in_or_app. now left. }
      apply IH in H2 as (Hall & new & -> & Hnew & Ht).
      2:{ rewrite map_app, <- app_assoc. exact Hnd. }
      split; [now constructor|]. exists ((name, fo_id draft) :: new).
      split; [now rewrite <- app_assoc|]. split.
      * constructor; [|exact Hnew]. split; [reflexivity|]. exists provider, draft. auto.
      * cbn [map]. rewrite Ht, Ht1, <- app_assoc. reflexivity.
Qed.

Lemma draftProvider_inv_Err rt order address rates ids name its w message w' :
  draftProvider rt order address rates ids name its w = (Err message, w') ->
  draftFailure rt (o_id order) address rates (name, its) message.
Proof.
  unfold draftProvider, draftFailure. cbn [fst snd].
  destruct (or_undefined (rates !! name)) as [rate|]; [|intros [= <- _]; left; auto].
  destruct (String.eqb name "manual") eqn:E; [discriminate|].
  apply String.eqb_neq in E.
  destruct (getProvider rt name) as [provider|]; [|intros [= <- _]; right; left; auto].
  unfold bind. cbn [emit].
  destruct (createOrder (fp_client provider) _) as [draft|reason] eqn:Hc; [discriminate|].
  intros [= <- _]. right. right. exists provider, reason. auto.
Qed.

Lemma draftProviders_inv_Err rt order address rates buckets : forall ids w message w',
  draftProviders rt order address rates buckets ids w = (Err message, w') ->
  exists b, In b buckets /\ draftFailure rt (o_id order) address rates b message.
Proof.
  induction buckets as [|[name its] rest IH]; intros ids w message w' H; [discriminate|].
  cbn [draftProviders] in H. apply bind_inv_Err in H as [H|(ids1 & w1 & _ & H)].
  - exists (name, its). split; [now left|]. eapply draftProvider_inv_Err; eauto.
  - destruct (IH _ _ _ _ H) as (b & Hb & Hf). exists b. split; [now right | exact Hf].
Qed.


(** A checkout whose cart is resolved and whose order id is free: either
    it fails after the order was created, and then only the new pending
    order was written, or it runs to the end. *)
Lemma createCheckout_run rt params w groups sub r w' :
  groupItems (cp_items params) [] 0%Q w = (Ok (groups, sub), w) ->
  w_orders w !! nextOrderId w = None ->
  createCheckout rt params w = (r, w') ->
  w_products w' = w_products w /\
  w_orderItems w' =
    w_orderItems w ++
    imap (newItemRow (nextOrderId w) (w_clock w))
         (co_items (checkoutOrderInput params groups sub)) /\
  ((exists message evs,
      r = Err message /\
      w_orders w' =
        <[nextOrderId w := newOrderRow (checkoutOrderInput params groups sub) (w_clock w)]>
          (w_orders w) /\
      w_trace w' =
        w_trace w ++ EvStoreCreate (checkoutOrderInput params groups sub) :: evs /\
      Forall isGatewayCall evs /\
      failsAfterCreate rt params (nextOrderId w) groups sub message) \/
   (exists ids pp checkout,
      r = Ok {| out_orderId := nextOrderId w;
                out_checkoutSessionId := cso_sessionId checkout;
                out_checkoutUrl := cso_url checkout;
                out_draftOrderIds := ids |} /\
      Forall (fun b => is_Some (or_undefined (cp_selectedRates params !! fst b))) groups /\
      Forall2 (draft_of rt (nextOrderId w) (cp_address params))
              (List.filter needsDraft groups) ids /\
      getPaymentProvider rt "stripe" = Some pp /\
      pay_createCheckout (pp_client pp)
        (paymentRequest params (nextOrderId w) groups sub ids) = Ok checkout /\
      w_orders w' =
        <[nextOrderId w :=
            checkedOutRow (checkoutOrderInput params groups sub) (w_clock w)
                          (cso_sessionId checkout) ids]> (w_orders w) /\
      w_trace w' =
        w_trace w ++
        EvStoreCreate (checkoutOrderInput params groups sub)
        :: map (draftEvent (nextOrderId w) (cp_address params))
               (List.filter needsDraft groups) ++
        [ EvPaymentCheckout (paymentRequest params (nextOrderId w) groups sub ids);
          EvStoreUpdateCheckout (nextOrderId w) (cso_sessionId checkout) "stripe";
          EvStoreUpdateDraftOrderIds (nextOrderId w) ids;
          EvStoreUpdateStatus (nextOrderId w) draft_created ])).
Proof.
  intros Hg Hfresh. unfold createCheckout. rewrite (bind_Ok _ _ _ _ _ Hg). cbn [fst snd].
  fold (checkoutOrderInput params groups sub).
  destruct (orderStore_create_run (checkoutOrderInput params groups sub) w Hfresh)
    as (order & w1 & Hc & Hid & Ho1 & Hi1 & Hk1 & Hp1 & Ht1).
  rewrite (bind_Ok _ _ _ _ _ Hc). rewrite Hid.
  destruct (draftProviders rt order (cp_address params) (cp_selectedRates params) groups [] w1)
    as [[ids|m] w2] eqn:Hd.
  - rewrite (bind_Ok _ _ _ _ _ Hd).
    pose proof (draftProviders_effect _ _ _ _ _ _ _ _ _ Hd)
      as ((Hp2 & Ho2 & Hi2 & Hk2 & _ & _) & evs & Ht2 & Hev).
    apply draftProviders_inv_Ok in Hd as (Hrates & new & -> & Hnew & Ht2');
      [|exact (groupItems_names _ _ _ _ Hg)].
    cbn [app] in *. rewrite Hid in Hnew, Ht2'.
    destruct (getPaymentProvider rt "stripe") as [pp|] eqn:Hpp.
    + cbv zeta. fold (shippingLine (cp_shippingCost params)).
      fold (paymentRequest params (nextOrderId w) groups sub new).
      unfold bind at 1. cbn [emit].
      destruct (pay_createCheckout (pp_client pp) _) as [checkout|m] eqn:Hpay.
      * set (w3 := {| w_products := w_products w2; w_orders := w_orders w2;
                      w_orderItems := w_orderItems w2; w_clock := w_clock w2;
                      w_uuid := w_uuid w2; w_uuidNext := w_uuidNext w2;
                      w_insertError := w_insertError w2;
                      w_trace := w_trace w2 ++
                        [EvPaymentCheckout
                           (paymentRequest params (nextOrderId w) groups sub new)] |}).
        assert (Hrow : w_orders w3 !! nextOrderId w
                       = Some (newOrderRow (checkoutOrderInput params groups sub) (w_clock w))).
        { subst w3. world_simpl. rewrite Ho2, Ho1. apply lookup_insert_eq. }
        unfold orderStore_updateCheckout, orderStore_updateDraftOrderIds,
          orderStore_updateStatus.
        destruct (emit_update_run
                    (EvStoreUpdateCheckout (nextOrderId w) (cso_sessionId checkout) "stripe")
                    "order checkout" (nextOrderId w)
                    (withCheckout (cso_sessionId checkout) "stripe") w3 _ Hrow)
          as (o4 & w4 & H4 & Ho4 & Hi4 & Hk4 & Hp4 & Ht4).
        rewrite (bind_Ok _ _ _ _ _ H4).
        destruct (emit_update_run
                    (EvStoreUpdateDraftOrderIds (nextOrderId w) new)
                    "draft order IDs" (nextOrderId w) (withDraftOrderIds new) w4 _
                    ltac:(rewrite Ho4; apply lookup_insert_eq))
          as (o5 & w5 & H5 & Ho5 & Hi5 & Hk5 & Hp5 & Ht5).
        rewrite (bind_Ok _ _ _ _ _ H5).
        destruct (emit_update_run
                    (EvStoreUpdateStatus (nextOrderId w) draft_created)
                    "order status" (nextOrderId w) (withStatus draft_created) w5 _
                    ltac:(rewrite Ho5; apply lookup_insert_eq))
          as (o6 & w6 & H6 & Ho6 & Hi6 & Hk6 & Hp6 & Ht6).
        rewrite (bind_Ok _ _ _ _ _ H6).
        intros [= <- <-].
        assert (Hk3 : w_clock w3 = w_clock w) by (subst w3; world_simpl; congruence).
        split; [subst w3; world_simpl; congruence|].
        split; [subst w3; world_simpl; congruence|].
        right. exists new, pp, checkout. split; [reflexivity|].
        split; [exact Hrates|]. split; [exact Hnew|]. split; [reflexivity|].
        split; [exact Hpay|]. split.
        -- rewrite Ho6, Ho5, Ho4, Hk5, Hk4, Hk3. subst w3. world_simpl.
           rewrite Ho2, Ho1, !insert_insert_eq. reflexivity.
        -- rewrite Ht6, Ht5, Ht4. subst w3. world_simpl. rewrite Ht2', Ht1.
           rewrite <- !app_assoc. reflexivity.
      * intros [= <- <-]. world_simpl.
        split; [congruence|]. split; [congruence|]. left.
        exists ("Failed to create payment checkout: " +:+ m),
               (evs ++ [EvPaymentCheckout
                          (paymentRequest params (nextOrderId w) groups sub new)]).
        split; [reflexivity|]. split; [congruence|]. split; [|split].
        -- rewrite Ht2, Ht1, <- !app_assoc. reflexivity.
        -- apply Forall_app. split; [exact Hev | now repeat constructor].
        -- right. right. exists pp, new, m. auto.
    + intros [= <- <-]. split; [congruence|]. split; [congruence|]. left.
      exists "Payment provider not configured", evs. split; [reflexivity|].
      split; [congruence|]. split; [|split; [exact Hev|]].
      * rewrite Ht2, Ht1, <- !app_assoc. reflexivity.
      * right. left. auto.
  - rewrite (bind_Err _ _ _ _ _ Hd).
    pose proof (draftProviders_inv_Err _ _ _ _ _ _ _ _ _ Hd) as Hcause.
    rewrite Hid in Hcause.
    apply draftProviders_effect in Hd as ((Hp2 & Ho2 & Hi2 & Hk2 & _ & _) & evs & Ht2 & Hev).
    intros [= <- <-]. split; [congruence|]. split; [congruence|]. left.
    exists m, evs. split; [reflexivity|]. split; [congruence|]. split; [|split; [exact Hev|]].
    + rewrite Ht2, Ht1, <- !app_assoc. reflexivity.
    + left. exact Hcause.
Qed.

Lemma createCheckout_collision rt params w groups sub row :
  groupItems (cp_items params) [] 0%Q w = (Ok (groups, sub), w) ->
  w_orders w !! nextOrderId w = Some row ->
  exists w',
    createCheckout rt params w
      = (Err ("Failed to create order: "
              +:+ w_insertError w (nextOrderId w)
                    (newOrderRow (checkoutOrderInput params groups sub) (w_clock w))), w') /\
    w_orders w' = w_orders w /\ w_orderItems w' = w_orderItems w /\
    w_products w' = w_products w /\
    w_trace w' = w_trace w ++ [EvStoreCreate (checkoutOrderInput params groups sub)].
Proof.
  intros Hg Hrow. unfold createCheckout. rewrite (bind_Ok _ _ _ _ _ Hg). cbn [fst snd].
  fold (checkoutOrderInput params groups sub).
  destruct (orderStore_create_collision (checkoutOrderInput params groups sub) w row Hrow)
    as (w1 & Hc & H). rewrite (bind_Err _ _ _ _ _ Hc). now exists w1.
Qed.

Lemma createCheckout_Ok_fresh rt params w groups sub out w' :
  groupItems (cp_items params) [] 0%Q w = (Ok (groups, sub), w) ->
  createCheckout rt params w = (Ok out, w') ->
  w_orders w !! nextOrderId w = None.
Proof.
  intros Hg H. destruct (w_orders w !! nextOrderId w) as [row|] eqn:Hrow; [|reflexivity].
  destruct (createCheckout_collision rt params w groups sub row Hg Hrow) as (w1 & Hc & _).
  congruence.
Qed.

(** X9. What a completed checkout leaves in the store.  When
    [createCheckout] returns, the order it names was created under a free
    id and is what [find] returns for that id: it belongs to the caller,
    is ['draft_created'], holds an amount in whole cents (the cart's
    subtotal plus the shipping cost passed in, when that sum is a whole
    number of cents), names the payment session and the provider
    ['stripe'], records exactly the returned draft ids, and has one line
    per cart line.  No other order was touched. *)
Theorem completed_checkout_is_stored rt params w groups sub out w' :
  groupItems (cp_items params) [] 0%Q w = (Ok (groups, sub), w) ->
  Forall (fun r => ir_orderId r <> nextOrderId w) (w_orderItems w) ->
  createCheckout rt params w = (Ok out, w') ->
  out_orderId out = nextOrderId w /\
  w_orders w !! out_orderId out = None /\
  (exists order,
     orderStore_find (out_orderId out) w' = (Ok (Some order), w') /\
     o_id order = out_orderId out /\
     o_userId order = cp_userId params /\
     o_status order = draft_created /\
     (exists cents : Z, o_totalAmount order = cents_to_number cents) /\
     (forall cents : Z,
        (sub + cp_shippingCost params == inject_Z cents / 100)%Q ->
        o_totalAmount order = cents_to_number cents) /\
     o_currency order = "USD" /\
     o_checkoutSessionId order = or_undefined (Some (out_checkoutSessionId out)) /\
     o_checkoutProvider order = Some "stripe" /\
     o_draftOrderIds order = Some (out_draftOrderIds out) /\
     Forall2 (stored_line (out_orderId out)) (map toOrderItem (allItems groups))
             (o_items order)) /\
  (forall id, id <> out_orderId out -> w_orders w' !! id = w_orders w !! id) /\
  w_products w' = w_products w.
Proof.
  intros Hg Hfk H.
  pose proof (createCheckout_Ok_fresh _ _ _ _ _ _ _ Hg H) as Hfresh.
  destruct (createCheckout_run _ _ _ _ _ _ _ Hg Hfresh H)
    as (Hp & Hi & [(m & evs & [=] & _)|(ids & pp & checkout & [= ->] & _ & _ & _ & _ & Ho & _)]).
  cbn [out_orderId out_checkoutSessionId out_draftOrderIds].
  split; [reflexivity|]. split; [exact Hfresh|]. split; [|split; [|exact Hp]].
  - unfold orderStore_find, findOrderById. rewrite Ho, lookup_insert_eq.
    unfold rowToOrder, bind, getOrderItems, ret. eexists. split; [reflexivity|].
    cbn [o_id o_userId o_status o_totalAmount o_currency o_checkoutSessionId
         o_checkoutProvider o_draftOrderIds o_items checkedOutRow withStatus
         withDraftOrderIds withCheckout newOrderRow checkoutOrderInput
         row_userId row_status row_totalAmount row_currency row_checkoutSessionId
         row_checkoutProvider row_draftOrderIds co_userId co_totalAmount co_currency].
    repeat (split; [reflexivity|]). split; [eexists; reflexivity|].
    split; [intros cents Hcents; now rewrite (Math_round_cents _ _ Hcents)|].
    repeat (split; [reflexivity|]).
    rewrite Hi, List.filter_app, (filter_orderId_none _ _ Hfk). cbn [app].
    pose proof (filter_new_rows (nextOrderId w) (w_clock w)
                  (co_items (checkoutOrderInput params groups sub)) 0) as Hnew.
    pose proof (stored_lines (nextOrderId w) (w_clock w)
                  (co_items (checkoutOrderInput params groups sub)) 0) as Hlines.
    cbn [Nat.add] in Hnew, Hlines.
    change (fun i : nat => newItemRow (nextOrderId w) (w_clock w) i)
      with (newItemRow (nextOrderId w) (w_clock w)) in Hnew, Hlines.
    rewrite Hnew. exact Hlines.
  - intros id Hid. rewrite Ho. now apply lookup_insert_ne.
Qed.

Lemma completed_checkout_is_stored_witness :
  exists out w' order,
    createCheckout rtPrintful checkoutOverpriced shop = (Ok out, w') /\
    orderStore_find (out_orderId out) w' = (Ok (Some order), w') /\
    o_status order = draft_created /\
    o_totalAmount order = cents_to_number 14600 /\
    o_draftOrderIds order = Some (out_draftOrderIds out).
Proof.
  destruct (completed_checkout_is_stored rtPrintful checkoutOverpriced shop
              [("manual", [resolveItem item_mug2 mug]); ("printful", [resolveItem item_tee tee])]
              (0 + 10 * 2 + 27 * 1)%Q
              {| out_orderId := "order-0"; out_checkoutSessionId := "cs_1";
                 out_checkoutUrl := "https://pay/cs_1";
                 out_draftOrderIds := [("printful", "d1")] |}
              (snd (createCheckout rtPrintful checkoutOverpriced shop))
              ltac:(vm_compute; reflexivity) ltac:(constructor)
              ltac:(vm_compute; reflexivity))
    as (_ & _ & (order & Hfind & _ & _ & Hst & _ & Hamount & _ & _ & _ & Hids & _) & _).
  eexists _, _, order. split; [vm_compute; reflexivity|].
  split; [exact Hfind|]. split; [exact Hst|].
  split; [apply Hamount; vm_compute; reflexivity | exact Hids].
Defined.

Lemma draft_of_names rt orderId address buckets ids :
  Forall2 (draft_of rt orderId address) buckets ids -> map fst ids = map fst buckets.
Proof.
  induction 1 as [|b e buckets ids (Hn & _) _ IH]; [reflexivity|].
  cbn [map]. now rewrite Hn, IH.
Qed.

Lemma NoDup_filter_names (p : string * list ProviderItemGroup -> bool) g :
  List.NoDup (map fst g) -> List.NoDup (map fst (List.filter p g)).
Proof.
  induction g as [|b g IH]; cbn [map List.filter]; [constructor|].
  intros Hnd. apply List.NoDup_cons_iff in Hnd as [Hb Hnd].
  destruct (p b); [|now apply IH]. cbn [map]. constructor; [|now apply IH].
  intros Hin. apply Hb. apply in_map_iff in Hin as (b' & <- & Hin).
  apply in_map. now apply List.filter_In in Hin as [Hin _].
Qed.

(** X10. The calls of a completed checkout, in order.  Take a cart whose
    prices and shipping cost are whole numbers of cents.  The store is asked
    to create the order; then each bucket other than ['manual'] gets one
    [createOrder] call at its configured provider, in bucket order, with
    the order's id as external id; then the payment provider is asked for
    one session, for the order's amount and with the draft ids as
    metadata; then the store records the session, the draft ids and the
    status ['draft_created'].  Every bucket, ['manual'] included, had a
    rate selected, and the returned draft ids are one per drafted bucket:
    the id its provider answered with. *)
Theorem completed_checkout_calls rt params w groups sub out w' :
  groupItems (cp_items params) [] 0%Q w = (Ok (groups, sub), w) ->
  createCheckout rt params w = (Ok out, w') ->
  Forall (fun pi => whole_cents (pi_price pi)) (allItems groups) ->
  whole_cents (cp_shippingCost params) ->
  Forall (fun b => is_Some (or_undefined (cp_selectedRates params !! fst b))) groups /\
  Forall2 (draft_of rt (out_orderId out) (cp_address params))
          (List.filter needsDraft groups) (out_draftOrderIds out) /\
  List.NoDup (map fst (out_draftOrderIds out)) /\
  (forall name, In name (map fst (out_draftOrderIds out)) <->
                In name (map fst groups) /\ name <> "manual") /\
  exists pp,
    getPaymentProvider rt "stripe" = Some pp /\
    pay_createCheckout (pp_client pp)
      (paymentRequest params (out_orderId out) groups sub (out_draftOrderIds out))
    = Ok {| cso_sessionId := out_checkoutSessionId out; cso_url := out_checkoutUrl out |} /\
    w_trace w' =
      w_trace w ++
      EvStoreCreate (checkoutOrderInput params groups sub)
      :: map (draftEvent (out_orderId out) (cp_address params))
             (List.filter needsDraft groups) ++
      [ EvPaymentCheckout
          (paymentRequest params (out_orderId out) groups sub (out_draftOrderIds out));
        EvStoreUpdateCheckout (out_orderId out) (out_checkoutSessionId out) "stripe";
        EvStoreUpdateDraftOrderIds (out_orderId out) (out_draftOrderIds out);
        EvStoreUpdateStatus (out_orderId out) draft_created ].
Proof.
  intros Hg H _ _.
  pose proof (createCheckout_Ok_fresh _ _ _ _ _ _ _ Hg H) as Hfresh.
  destruct (createCheckout_run _ _ _ _ _ _ _ Hg Hfresh H)
    as (_ & _ & [(m & evs & [=] & _)
                |(ids & pp & checkout & [= ->] & Hrates & Hids & Hpp & Hpay & _ & Ht)]).
  cbn [out_orderId out_checkoutSessionId out_checkoutUrl out_draftOrderIds].
  pose proof (draft_of_names _ _ _ _ _ Hids) as Hnames.
  split; [exact Hrates|]. split; [exact Hids|]. split; [|split].
  - rewrite Hnames. apply NoDup_filter_names, (groupItems_names _ _ _ _ Hg).
  - intros name. rewrite Hnames, !in_map_iff. split.
    + intros (b & <- & Hin). apply List.filter_In in Hin as [Hin Hd]. split; [eauto|].
      unfold needsDraft in Hd. apply negb_true_iff, String.eqb_neq in Hd. exact Hd.
    + intros [(b & <- & Hin) Hne]. exists b. split; [reflexivity|].
      apply List.filter_In. split; [exact Hin|].
      unfold needsDraft. now apply negb_true_iff, String.eqb_neq.
  - exists pp. split; [exact Hpp|]. split; [|exact Ht].
    rewrite Hpay. now destruct checkout.
Qed.

Lemma completed_checkout_calls_witness :
  exists out w',
    createCheckout rtPrintful checkoutOverpriced shop = (Ok out, w') /\
    map fst (out_draftOrderIds out) = ["printful"] /\
    length (w_trace w') = 6%nat.
Proof.
  destruct (completed_checkout_calls rtPrintful checkoutOverpriced shop
              [("manual", [resolveItem item_mug2 mug]); ("printful", [resolveItem item_tee tee])]
              (0 + 10 * 2 + 27 * 1)%Q
              {| out_orderId := "order-0"; out_checkoutSessionId := "cs_1";
                 out_checkoutUrl := "https://pay/cs_1";
                 out_draftOrderIds := [("printful", "d1")] |}
              (snd (createCheckout rtPrintful checkoutOverpriced shop))
              ltac:(vm_compute; reflexivity) ltac:(vm_compute; reflexivity)
              ltac:(repeat constructor) ltac:(vm_compute; reflexivity))
    as (_ & Hids & _ & _ & pp & _ & _ & Ht).
  eexists _, (snd (createCheckout rtPrintful checkoutOverpriced shop)).
  split; [vm_compute; reflexivity|].
  split; [exact (draft_of_names _ _ _ _ _ Hids)|].
  rewrite Ht. reflexivity.
Defined.



(** ** The amount charged *)

Lemma groupItems_subtotal items w g s :
  groupItems items [] 0%Q w = (Ok (g, s), w) ->
  (s == sumQ (map lineTotal (allItems g)))%Q.
Proof.
  intros Hg.
  destruct (groupItems_grouped _ _ _ _ _ _ [] grouped_as_nil Hg)
    as [(_ & _ & _ & Hperm & Hsub) _].
  cbn [app] in Hperm, Hsub. rewrite Hsub. apply sumQ_perm. symmetry.
  now apply Permutation_map.
Qed.

Lemma linesAmount_app a b : linesAmount (a ++ b) = (linesAmount a + linesAmount b)%Z.
Proof.
  unfold linesAmount. induction a as [|x a IH]; cbn [app fold_right]; [reflexivity|].
  rewrite IH. lia.
Qed.

Lemma lines_in_cents l :
  Forall (fun pi => whole_cents (pi_price pi)) l ->
  (sumQ (map lineTotal l) == inject_Z (linesAmount (map toLineItem l)) / 100)%Q.
Proof.
  induction 1 as [|pi l Hpi _ IH]; cbn [map].
  - unfold sumQ, linesAmount. cbn [fold_left fold_right]. reflexivity.
  - rewrite sumQ_cons, IH. unfold linesAmount at 2. cbn [fold_right].
    fold (linesAmount (map toLineItem l)). cbn [toLineItem li_unitAmount li_quantity].
    unfold lineTotal. unfold whole_cents in Hpi. rewrite Hpi at 1. unfold cents_to_number.
    rewrite inject_Z_plus, inject_Z_mult. field.
Qed.

Lemma shippingLine_amount shippingCost :
  (0 <= shippingCost)%Q ->
  linesAmount (shippingLine shippingCost) = Math_round (shippingCost * 100)%Q.
Proof.
  intros Hpos. unfold shippingLine. destruct (Qltb 0 shippingCost) eqn:E.
  - unfold linesAmount. cbn [fold_right li_unitAmount li_quantity]. lia.
  - apply Qltb_ge in E. symmetry. apply Math_round_cents.
    rewrite (Qle_antisym _ _ E Hpos). reflexivity.
Qed.

(** X12. The payment session's lines add up to the amount charged.  When
    the prices of the cart's lines and the shipping cost are whole cents
    and the shipping cost is not negative, the session a completed
    checkout asked the payment provider for is for the order it returns,
    in USD, its amount is the sum of unit amount times quantity over its
    lines, and that amount is the one stored on the order. *)
Theorem payment_lines_add_up rt params w groups sub out w' :
  groupItems (cp_items params) [] 0%Q w = (Ok (groups, sub), w) ->
  createCheckout rt params w = (Ok out, w') ->
  Forall (fun pi => whole_cents (pi_price pi)) (allItems groups) ->
  whole_cents (cp_shippingCost params) ->
  (0 <= cp_shippingCost params)%Q ->
  exists request row,
    In (EvPaymentCheckout request) (w_trace w') /\
    cs_orderId request = out_orderId out /\
    cs_currency request = "USD" /\
    cs_metadata_draftOrderIds request = out_draftOrderIds out /\
    cs_amount request = linesAmount (cs_items request) /\
    w_orders w' !! out_orderId out = Some row /\
    row_totalAmount row = cs_amount request.
Proof.
  intros Hg H Hprices Hship Hpos.
  pose proof (createCheckout_Ok_fresh _ _ _ _ _ _ _ Hg H) as Hfresh.
  destruct (createCheckout_run _ _ _ _ _ _ _ Hg Hfresh H)
    as (_ & _ & [(m & evs & [=] & _)
                |(ids & pp & checkout & [= ->] & _ & _ & _ & _ & Ho & Ht)]).
  cbn [out_orderId out_draftOrderIds].
  exists (paymentRequest params (nextOrderId w) groups sub ids),
         (checkedOutRow (checkoutOrderInput params groups sub) (w_clock w)
                        (cso_sessionId checkout) ids).
  split.
  { rewrite Ht. apply in_or_app. right. right. apply in_or_app. right. now left. }
  repeat (split; [reflexivity|]). split; [|split; [rewrite Ho; apply lookup_insert_eq
                                                   | reflexivity]].
  cbn [paymentRequest cs_amount cs_items].
  rewrite linesAmount_app, (shippingLine_amount _ Hpos).
  apply Math_round_cents.
  rewrite (groupItems_subtotal _ _ _ _ Hg), (lines_in_cents _ Hprices).
  unfold whole_cents in Hship. rewrite Hship at 1. unfold cents_to_number.
  rewrite inject_Z_plus. field.
Qed.

Lemma payment_lines_add_up_witness :
  exists out w' request,
    createCheckout rtPrintful checkoutOverpriced shop = (Ok out, w') /\
    In (EvPaymentCheckout request) (w_trace w') /\
    cs_amount request = linesAmount (cs_items request).
Proof.
  destruct (payment_lines_add_up rtPrintful checkoutOverpriced shop
              [("manual", [resolveItem item_mug2 mug]); ("printful", [resolveItem item_tee tee])]
              (0 + 10 * 2 + 27 * 1)%Q
              {| out_orderId := "order-0"; out_checkoutSessionId := "cs_1";
                 out_checkoutUrl := "https://pay/cs_1";
                 out_draftOrderIds := [("printful", "d1")] |}
              (snd (createCheckout rtPrintful checkoutOverpriced shop))
              ltac:(vm_compute; reflexivity) ltac:(vm_compute; reflexivity)
              ltac:(repeat constructor) ltac:(vm_compute; reflexivity)
              ltac:(discriminate))
    as (request & row & Hin & _ & _ & _ & Hsum & _).
  eexists _, (snd (createCheckout rtPrintful checkoutOverpriced shop)), request.
  split; [vm_compute; reflexivity|]. split; [exact Hin | exact Hsum].
Defined.

(** ** The sweep, order by order *)

Lemma findAbandonedDrafts_spec maxAgeHours w :
  exists abandoned,
    orderStore_findAbandonedDrafts maxAgeHours w = (Ok abandoned, w) /\
    List.NoDup (map o_id abandoned) /\
    (forall o, In o abandoned ->
       exists row, w_orders w !! o_id o = Some row /\ stale_draft w maxAgeHours row /\
                   o_draftOrderIds o = row_draftOrderIds row) /\
    (forall id row, w_orders w !! id = Some row -> stale_draft w maxAgeHours row ->
       In id (map o_id abandoned)).
Proof.
  unfold orderStore_findAbandonedDrafts, stale_draft. unfold bind at 1, now.
  set (cutoff := (w_clock w - maxAgeHours * 60 * 60 * 1000)%Z).
  set (drafts := List.filter (fun r => is_draft_created (row_status (snd r)))
                             (map_to_list (w_orders w))).
  set (rows := List.filter (fun r => (row_createdAt (snd r) <? cutoff)%Z)
                           (merge_sort newer_first drafts)).
  assert (Hrows : forall id row, In (id, row) rows <->
            w_orders w !! id = Some row /\ row_status row = draft_created /\
            (row_createdAt row < cutoff)%Z).
  { intros id row. unfold rows, drafts. rewrite filter_In. cbn [snd].
    rewrite Z.ltb_lt. split.
    - intros [Hin Hlt].
      apply (Permutation_in _ (merge_sort_Permutation newer_first _)) in Hin.
      apply filter_In in Hin as [Hin Hd]. cbn [snd] in Hd.
      apply list_elem_of_In, elem_of_map_to_list in Hin.
      repeat split; [exact Hin | | exact Hlt].
      destruct (row_status row); try discriminate; reflexivity.
    - intros (Hrow & Hst & Hlt). split; [|exact Hlt].
      apply (Permutation_in _ (Permutation_sym (merge_sort_Permutation newer_first _))).
      apply filter_In. cbn [snd]. rewrite Hst. split; [|reflexivity].
      apply list_elem_of_In, elem_of_map_to_list. exact Hrow. }
  assert (Hnd : List.NoDup (map fst rows)).
  { apply NoDup_map_filter.
    apply (Permutation_NoDup (l := map fst drafts)).
    - apply Permutation_map. symmetry. apply merge_sort_Permutation.
    - apply NoDup_map_filter. apply NoDup_ListNoDup.
      apply (NoDup_fst_map_to_list (w_orders w)). }
  destruct (mapM_rows_Forall2 rows w) as (os & Hrun & Hall).
  pose proof (Forall2_order_ids _ _ _ Hall) as Hids.
  exists os. split; [exact Hrun|]. split; [now rewrite Hids|]. split.
  - intros o Ho. destruct (Forall2_order_of _ _ _ _ Hall Ho) as ([id row] & Hin & Hro).
    apply Hrows in Hin as (Hrow & Hst & Hlt).
    cbn [fst snd] in Hro. unfold rowToOrder, bind, getOrderItems, ret in Hro.
    cbn [fst] in Hro. injection Hro as <-. cbn [o_id o_draftOrderIds].
    exists row. auto.
  - intros id row Hrow [Hst Hlt]. rewrite Hids. apply in_map_iff.
    exists (id, row). split; [reflexivity|]. now apply Hrows.
Qed.

Lemma sweepOrder_rows rt acc order w row :
  w_orders w !! o_id order = Some row ->
  exists acc' w',
    sweepOrder rt acc order w = (Ok acc', w') /\
    w_orderItems w' = w_orderItems w /\ w_clock w' = w_clock w /\
    w_orders w' !! o_id order = Some (sweptRow rt order (w_clock w) row) /\
    (forall id, id <> o_id order -> w_orders w' !! id = w_orders w !! id).
Proof.
  intros Hrow. destruct (sweepOrder_run rt acc order w row Hrow)
    as (acc' & w' & Hrun & _ & _ & _ & _ & Hout).
  exists acc', w'. split; [exact Hrun|]. unfold sweptRow.
  destruct (sweepOutcome rt order);
    try (destruct Hout as (Ho & Hi & Hk); rewrite Ho, Hi, Hk;
         split; [reflexivity|]; split; [reflexivity|]; split;
         [now rewrite lookup_alter, decide_True, Hrow by reflexivity
         |intros id Hne; rewrite lookup_alter, decide_False by congruence; reflexivity]).
  destruct Hout as (Ho & Hi & Hk). rewrite Ho, Hi, Hk. auto.
Qed.

Lemma sweepOrders_rows rt orders : forall acc w,
  List.NoDup (map o_id orders) ->
  (forall o, In o orders -> is_Some (w_orders w !! o_id o)) ->
  exists acc' w',
    sweepOrders rt orders acc w = (Ok acc', w') /\
    w_orderItems w' = w_orderItems w /\ w_clock w' = w_clock w /\
    (forall id, ~ In id (map o_id orders) -> w_orders w' !! id = w_orders w !! id) /\
    (forall o, In o orders ->
       w_orders w' !! o_id o = sweptRow rt o (w_clock w) <$> w_orders w !! o_id o).
Proof.
  induction orders as [|order rest IH]; intros acc w Hnd Hall.
  - exists acc, w. repeat split; auto. intros o [].
  - cbn [map] in Hnd. apply List.NoDup_cons_iff in Hnd as [Hfresh Hnd].
    destruct (Hall order (or_introl eq_refl)) as [row Hrow].
    destruct (sweepOrder_rows rt acc order w row Hrow)
      as (acc1 & w1 & H1 & Hi1 & Hk1 & Ho1 & Hother1).
    destruct (IH acc1 w1 Hnd) as (acc2 & w2 & H2 & Hi2 & Hk2 & Hother2 & Hin2).
    { intros o Ho. rewrite Hother1; [apply Hall; now right|].
      intros E. apply Hfresh. rewrite <- E. now apply in_map. }
    exists acc2, w2. cbn [sweepOrders]. rewrite (bind_Ok _ _ _ _ _ H1).
    split; [exact H2|]. split; [congruence|]. split; [congruence|]. split.
    + intros id Hid. cbn [map In] in Hid. rewrite Hother2, Hother1; auto.
    + intros o [<-|Ho].
      * rewrite Hother2 by exact Hfresh. now rewrite Ho1, Hrow.
      * rewrite (Hin2 o Ho), Hk1, Hother1; [reflexivity|].
        intros E. apply Hfresh. rewrite <- E. now apply in_map.
Qed.







Lemma cleanup_unfold rt maxAgeHours w abandoned acc w' :
  orderStore_findAbandonedDrafts maxAgeHours w = (Ok abandoned, w) ->
  sweepOrders rt abandoned
    {| sw_cancelled := 0; sw_partiallyCancelled := 0; sw_failed := 0; sw_errors := [] |} w
  = (Ok acc, w') ->
  cleanupAbandonedDrafts rt maxAgeHours w
  = (Ok {| totalProcessed := length abandoned;
           cancelled_count := sw_cancelled acc;
           partiallyCancelled := sw_partiallyCancelled acc;
           failed := sw_failed acc;
           errors := sw_errors acc |}, w').
Proof.
  intros Hfind Hsweep. unfold cleanupAbandonedDrafts. rewrite (bind_Ok _ _ _ _ _ Hfind).
  destruct abandoned as [|o rest].
  - injection Hsweep as <- <-. reflexivity.
  - cbn [length Nat.eqb]. now rewrite (bind_Ok _ _ _ _ _ Hsweep).
Qed.


(** ** The result of the sweep *)

Lemma count_partition rt orders :
  (countOutcome rt NothingToCancel orders + countOutcome rt AllCancelled orders
   + countOutcome rt PartlyCancelled orders + countOutcome rt NoneCancelled orders)%nat
  = length orders.
Proof.
  induction orders as [|o rest IH]; [reflexivity|].
  rewrite !(countOutcome_cons rt _ o rest), !countOutcome_one. cbn [length].
  destruct (sweepOutcome rt o); cbn [is_outcome]; lia.
Qed.

Lemma cancellationError_fails rt orderId entry e :
  cancellationError rt orderId entry = Some e ->
  cancellationSucceeds rt entry = false /\
  ce_orderId e = orderId /\ ce_provider e = fst entry.
Proof.
  unfold cancellationError, cancellationSucceeds.
  destruct (getProvider rt (fst entry)) as [p|].
  - destruct (cancelOrder (fp_client p) (snd entry)); [discriminate|].
    intros [= <-]. auto.
  - intros [= <-]. auto.
Qed.

Lemma cancellationErrors_nil rt order :
  cancellationErrors rt order = [] <->
  forallb (cancellationSucceeds rt) (draftEntries order) = true.
Proof.
  unfold cancellationErrors. induction (draftEntries order) as [|entry rest IH];
    cbn [omap list_omap forallb]; [easy|].
  destruct (cancellationError_spec rt (o_id order) entry) as [Hok Hfail].
  destruct (cancellationSucceeds rt entry).
  - rewrite Hok by reflexivity. exact IH.
  - destruct Hfail as (reason & ->); [reflexivity|]. cbn [andb]. split; discriminate.
Qed.

Lemma closed_without_errors rt order :
  cancellationErrors rt order = [] <->
  sweepOutcome rt order = NothingToCancel \/ sweepOutcome rt order = AllCancelled.
Proof.
  rewrite cancellationErrors_nil. unfold sweepOutcome.
  destruct (noDraftIds order) eqn:Hno.
  - rewrite (noDraftIds_entries order Hno). cbn [forallb]. split; auto.
  - destruct (forallb (cancellationSucceeds rt) (draftEntries order)); [split; auto|].
    destruct (existsb (cancellationSucceeds rt) (draftEntries order));
      split; try discriminate; intros [|]; discriminate.
Qed.

Lemma errors_at_least rt orders :
  (countOutcome rt PartlyCancelled orders + countOutcome rt NoneCancelled orders
   <= length (flat_map (cancellationErrors rt) orders))%nat.
Proof.
  induction orders as [|o rest IH]; [reflexivity|].
  rewrite !(countOutcome_cons rt _ o rest), !countOutcome_one.
  cbn [flat_map]. rewrite length_app.
  pose proof (closed_without_errors rt o) as Hc.
  destruct (cancellationErrors rt o) as [|e l] eqn:He.
  - destruct Hc as [Hc _]. destruct (Hc eq_refl) as [-> | ->]; cbn [is_outcome length]; lia.
  - cbn [length]. destruct (sweepOutcome rt o); cbn [is_outcome]; lia.
Qed.

Lemma errors_none rt orders :
  flat_map (cancellationErrors rt) orders = [] ->
  countOutcome rt PartlyCancelled orders = 0%nat /\
  countOutcome rt NoneCancelled orders = 0%nat.
Proof.
  induction orders as [|o rest IH]; [auto|]. cbn [flat_map]. intros H.
  apply app_eq_nil in H as [Ho Hrest]. destruct (IH Hrest) as [IH1 IH2].
  rewrite !(countOutcome_cons rt _ o rest), !countOutcome_one, IH1, IH2.
  apply closed_without_errors in Ho as [-> | ->]; auto.
Qed.

Lemma errors_none_inv rt orders :
  countOutcome rt PartlyCancelled orders = 0%nat ->
  countOutcome rt NoneCancelled orders = 0%nat ->
  flat_map (cancellationErrors rt) orders = [].
Proof.
  induction orders as [|o rest IH]; [reflexivity|].
  rewrite !(countOutcome_cons rt _ o rest), !countOutcome_one. cbn [flat_map].
  intros H1 H2.
  assert (Ho : cancellationErrors rt o = []).
  { apply closed_without_errors.
    destruct (sweepOutcome rt o); cbn [is_outcome] in H1, H2; auto; lia. }
  rewrite Ho, IH; [reflexivity | lia | lia].
Qed.

(** X14. The sweep's result is consistent with itself and with the
    store.  The three counters add up to the number of orders processed;
    the error list is empty exactly when no order was partly cancelled or
    failed, and has at least one entry for each such order.  Every entry
    names a stale draft and a provider of one of its recorded drafts, and
    the order it names is afterwards ['partially_cancelled'] or still
    ['draft_created'], never ['cancelled']. *)
Theorem sweep_result_adds_up rt maxAgeHours w :
  exists result w',
    cleanupAbandonedDrafts rt maxAgeHours w = (Ok result, w') /\
    (cancelled_count result + partiallyCancelled result + failed result)%nat
      = totalProcessed result /\
    (errors result = [] <-> partiallyCancelled result = 0%nat /\ failed result = 0%nat) /\
    (partiallyCancelled result + failed result <= length (errors result))%nat /\
    forall e, In e (errors result) ->
      (exists row entries,
         w_orders w !! ce_orderId e = Some row /\
         stale_draft w maxAgeHours row /\
         row_draftOrderIds row = Some entries /\
         In (ce_provider e) (map fst entries)) /\
      (status_in w' (ce_orderId e) = Some partially_cancelled \/
       status_in w' (ce_orderId e) = Some draft_created).
Proof.
  destruct (findAbandonedDrafts_spec maxAgeHours w) as (abandoned & Hfind & Hnd & Hstale & _).
  destruct (sweepOrders_run rt abandoned
              {| sw_cancelled := 0; sw_partiallyCancelled := 0;
                 sw_failed := 0; sw_errors := [] |} w Hnd)
    as (acc & w' & Hsweep & He & Hc & Hp & Hf & Hstatus & _).
  { intros o Ho. destruct (Hstale o Ho) as (row & Hrow & [Hst _] & _).
    unfold status_in. now rewrite Hrow, <- Hst. }
  cbn [sw_cancelled sw_partiallyCancelled sw_failed sw_errors app Nat.add] in He, Hc, Hp, Hf.
  eexists _, w'. split; [exact (cleanup_unfold _ _ _ _ _ _ Hfind Hsweep)|].
  cbn [totalProcessed cancelled_count partiallyCancelled failed errors].
  rewrite He, Hc, Hp, Hf. split; [apply count_partition|]. split; [|split].
  - split; [apply errors_none | intros [H1 H2]; now apply errors_none_inv].
  - apply errors_at_least.
  - intros e Hin. apply in_flat_map in Hin as (o & Ho & Hin).
    unfold cancellationErrors in Hin.
    apply list_elem_of_In, list_elem_of_omap in Hin as (entry & Hentry & Herr).
    apply cancellationError_fails in Herr as (Hfail & -> & ->).
    destruct (Hstale o Ho) as (row & Hrow & Hst & Hids). split.
    + unfold draftEntries in Hentry. rewrite Hids in Hentry.
      destruct (row_draftOrderIds row) as [entries|] eqn:Hrowids;
        [|cbn in Hentry; now apply elem_of_nil in Hentry].
      exists row, entries. split; [exact Hrow|]. split; [exact Hst|].
      split; [exact Hrowids|]. apply in_map. now apply list_elem_of_In.
    + rewrite (Hstatus o Ho).
      assert (Hne : cancellationErrors rt o <> []).
      { rewrite cancellationErrors_nil. intros Hall.
        rewrite forallb_forall in Hall. apply list_elem_of_In in Hentry.
        rewrite (Hall _ Hentry) in Hfail. discriminate. }
      rewrite closed_without_errors in Hne.
      destruct (sweepOutcome rt o); cbn [statusAfterSweep]; auto;
        exfalso; apply Hne; auto.
Qed.

Lemma is_outcome_eq a b : is_outcome a b = true <-> a = b.
Proof. destruct a, b; cbn; split; congruence. Qed.

Lemma sweptRow_still_draft rt order t row :
  row_status (sweptRow rt order t row) = draft_created ->
  sweepOutcome rt order = NoneCancelled.
Proof.
  unfold sweptRow. destruct (sweepOutcome rt order); cbn; congruence.
Qed.

(** X15. What the sweep leaves for the next sweep.  In the store as
    [cleanupAbandonedDrafts] leaves it, and for the same cutoff, the
    abandoned drafts are exactly the stale drafts none of whose
    cancellations succeeded: their number is the result's [failed] count,
    each was a stale draft before and its row is untouched, and no order
    the sweep closed is among them. *)
Theorem next_sweep_sees_failures_only rt maxAgeHours w :
  exists result w' remaining,
    cleanupAbandonedDrafts rt maxAgeHours w = (Ok result, w') /\
    orderStore_findAbandonedDrafts maxAgeHours w' = (Ok remaining, w') /\
    length remaining = failed result /\
    forall id,
      In id (map o_id remaining) <->
      exists row,
        w_orders w !! id = Some row /\ stale_draft w maxAgeHours row /\
        w_orders w' !! id = Some row.
Proof.
  destruct (findAbandonedDrafts_spec maxAgeHours w)
    as (abandoned & Hfind & Hnd & Hstale & Hconv).
  assert (Hdc : forall o, In o abandoned -> status_in w (o_id o) = Some draft_created).
  { intros o Ho. destruct (Hstale o Ho) as (row & Hrow & [Hst _] & _).
    unfold status_in. now rewrite Hrow, <- Hst. }
  destruct (sweepOrders_rows rt abandoned
              {| sw_cancelled := 0; sw_partiallyCancelled := 0;
                 sw_failed := 0; sw_errors := [] |} w Hnd)
    as (acc & w' & Hsweep & Hi & Hk & Hother & Hin).
  { intros o Ho. destruct (Hstale o Ho) as (row & Hrow & _). eauto. }
  destruct (sweepOrders_run rt abandoned
              {| sw_cancelled := 0; sw_partiallyCancelled := 0;
                 sw_failed := 0; sw_errors := [] |} w Hnd Hdc)
    as (acc2 & w2 & Hsweep2 & _ & _ & _ & Hf & _).
  rewrite Hsweep in Hsweep2. injection Hsweep2 as <- <-.
  cbn [sw_failed Nat.add] in Hf.
  destruct (findAbandonedDrafts_spec maxAgeHours w')
    as (remaining & Hfind' & Hnd' & Hstale' & Hconv').
  assert (Hsame : forall row, stale_draft w' maxAgeHours row <-> stale_draft w maxAgeHours row).
  { intros row. unfold stale_draft. now rewrite Hk. }
  assert (Hmem : forall id,
            In id (map o_id remaining) <->
            In id (map o_id (List.filter
                               (fun o => is_outcome (sweepOutcome rt o) NoneCancelled)
                               abandoned))).
  { intros id. split.
    - intros Hid. apply in_map_iff in Hid as (o' & <- & Ho').
      destruct (Hstale' o' Ho') as (row' & Hrow' & Hst' & _).
      destruct (in_dec String.string_dec (o_id o') (map o_id abandoned)) as [Hid|Hid].
      + apply in_map_iff in Hid as (o & Hoid & Ho). rewrite <- Hoid.
        apply in_map, List.filter_In. split; [exact Ho|]. apply is_outcome_eq.
        destruct (Hstale o Ho) as (row & Hrow & _).
        rewrite <- Hoid, (Hin o Ho), Hrow in Hrow'. injection Hrow' as <-.
        destruct Hst' as [Hst' _]. now apply sweptRow_still_draft in Hst'.
      + exfalso. apply Hid. rewrite (Hother _ Hid) in Hrow'.
        apply (Hconv _ _ Hrow'). now apply Hsame.
    - intros Hid. apply in_map_iff in Hid as (o & <- & Ho).
      apply List.filter_In in Ho as [Ho Hnone]. apply is_outcome_eq in Hnone.
      destruct (Hstale o Ho) as (row & Hrow & Hst & _).
      apply (Hconv' _ row); [|now apply Hsame].
      rewrite (Hin o Ho), Hrow. cbn [fmap option_fmap option_map].
      unfold sweptRow. now rewrite Hnone. }
  eexists _, w', remaining. split; [exact (cleanup_unfold _ _ _ _ _ _ Hfind Hsweep)|].
  split; [exact Hfind'|]. cbn [failed]. split.
  - rewrite Hf. unfold countOutcome.
    rewrite <- (length_map o_id remaining), <- (length_map o_id (List.filter _ abandoned)).
    apply Permutation_length. apply Stdlib.Sorting.Permutation.NoDup_Permutation;
      [exact Hnd' | now apply NoDup_map_filter | exact Hmem].
  - intros id. rewrite Hmem. split.
    + intros Hid. apply in_map_iff in Hid as (o & <- & Ho).
      apply List.filter_In in Ho as [Ho Hnone]. apply is_outcome_eq in Hnone.
      destruct (Hstale o Ho) as (row & Hrow & Hst & _).
      exists row. split; [exact Hrow|]. split; [exact Hst|].
      rewrite (Hin o Ho), Hrow. cbn [fmap option_fmap option_map].
      unfold sweptRow. now rewrite Hnone.
    + intros (row & Hrow & Hst & Hrow'). apply Hmem.
      apply (Hconv' _ row Hrow'). now apply Hsame.
Qed.

(** ** Why a checkout fails *)



(** ** From a quote to a checkout *)








(** ** The provider registry *)

Lemma registry_lookup printful gelato stripe name provider :
  getProvider (createMarketplaceRuntime printful gelato stripe) name = Some provider ->
  fp_name provider = name /\
  ((name = "printful" /\ printful = Some (fp_client provider)) \/
   (name = "gelato" /\ gelato = Some (fp_client provider))).
Proof.
  unfold getProvider, createMarketplaceRuntime. cbn [providers].
  destruct printful as [c1|], gelato as [c2|]; cbn [app List.find fp_name];
    repeat match goal with
           | |- context [String.eqb ?a name] =>
               let E := fresh "E" in
               destruct (String.eqb a name) eqn:E;
               [apply String.eqb_eq in E; subst name|]
           end;
    intros [= <-]; cbn [fp_name fp_client]; auto.
Qed.

(** X18. A product of a provider that is not registered cannot be sold.
    The runtime registers ['printful'] and ['gelato'] only, each when its
    plugin was configured and started.  A cart holding a product whose
    provider is neither ['manual'] nor registered can be neither quoted
    nor checked out: [getQuote] fails, and so does [createCheckout],
    whatever rates are selected. *)
Theorem unregistered_provider_blocks_sale
    printful gelato stripe items address w item product :
  In item items ->
  w_products w !! productId item = Some product ->
  providerOf product <> "manual" ->
  (providerOf product = "printful" -> printful = None) ->
  (providerOf product = "gelato" -> gelato = None) ->
  (exists message w',
     getQuote (createMarketplaceRuntime printful gelato stripe) items address w
     = (Err message, w')) /\
  (forall params,
     cp_items params = items ->
     exists message w',
       createCheckout (createMarketplaceRuntime printful gelato stripe) params w
       = (Err message, w')).
Proof.
  intros Hin Hfind Hmanual Hprintful Hgelato.
  set (rt := createMarketplaceRuntime printful gelato stripe).
  assert (Hnone : getProvider rt (providerOf product) = None).
  { destruct (getProvider rt (providerOf product)) as [p|] eqn:Hp; [|reflexivity].
    apply registry_lookup in Hp as (_ & [[Hn Hc]|[Hn Hc]]).
    - rewrite (Hprintful Hn) in Hc. discriminate.
    - rewrite (Hgelato Hn) in Hc. discriminate. }
  split.
  - apply quoteFails_iff.
    destruct (groupItems_cases items [] 0%Q w) as [([groups sub] & Hg)|(m & Hg)].
    + right. destruct (groupItems_entries _ _ _ _ _ _ _ _ Hin Hfind Hg) as (its & Hb & _).
      exists (providerOf product, its). unfold bucketsOf. rewrite Hg. cbn [fst].
      split; [exact Hb|]. left. split; [exact Hnone | exact Hmanual].
    + left. apply (groupItems_Err_iff items [] 0%Q w). eauto.
  - intros params <-.
    destruct (createCheckout rt params w) as [[out|m] w'] eqn:H; [exfalso|eauto].
    destruct (groupItems_cases (cp_items params) [] 0%Q w) as [([groups sub] & Hg)|(m & Hg)].
    + pose proof (createCheckout_Ok_fresh _ _ _ _ _ _ _ Hg H) as Hfresh.
      destruct (createCheckout_run _ _ _ _ _ _ _ Hg Hfresh H)
        as (_ & _ & [(m & evs & [=] & _)|(ids & pp & checkout & _ & _ & Hdrafts & _)]).
      destruct (groupItems_entries _ _ _ _ _ _ _ _ Hin Hfind Hg) as (its & Hb & _).
      assert (Hd : In (providerOf product, its) (List.filter needsDraft groups)).
      { apply List.filter_In. split; [exact Hb|]. unfold needsDraft. cbn [fst].
        now apply negb_true_iff, String.eqb_neq. }
      destruct (Forall2_In_left _ _ _ _ Hdrafts Hd) as (e & _ & _ & p & d & Hp & _).
      cbn [fst] in Hp. congruence.
    + unfold createCheckout in H. rewrite (bind_Err _ _ _ _ _ Hg) in H. discriminate.
Qed.

Lemma unregistered_provider_blocks_sale_witness :
  exists message w',
    createCheckout (createMarketplaceRuntime (Some printfulUp) None (Some stripeUp))
      checkoutTwoProviders shop = (Err message, w').
Proof.
  apply (proj2 (unregistered_provider_blocks_sale (Some printfulUp) None (Some stripeUp)
                  [item_tee; item_poster] sampleAddress shop item_poster poster
                  ltac:(right; left; reflexivity) ltac:(vm_compute; reflexivity)
                  ltac:(vm_compute; discriminate) ltac:(vm_compute; discriminate)
                  ltac:(reflexivity))
               checkoutTwoProviders eq_refl).
Defined.

(** ** What the selected rates are used for *)

Lemma bind_ext {A B} (m : M A) (k k' : A -> M B) w :
  (forall a w1, k a w1 = k' a w1) -> bind m k w = bind m k' w.
Proof. intros H. unfold bind. destruct (m w) as [[a|e] w1]; [apply H | reflexivity]. Qed.

Lemma draftProvider_rates rt order address rates rates' ids name its w :
  same_selection rates rates' name ->
  draftProvider rt order address rates' ids name its w
  = draftProvider rt order address rates ids name its w.
Proof.
  unfold same_selection, draftProvider. intros [H1 H2].
  destruct (or_undefined (rates !! name)) as [r|], (or_undefined (rates' !! name)) as [r'|];
    try reflexivity.
  - destruct H1 as [x Hx]; [eauto | discriminate].
  - destruct H2 as [x Hx]; [eauto | discriminate].
Qed.

Lemma draftProviders_rates rt order address rates rates' buckets : forall ids w,
  Forall (fun b => same_selection rates rates' (fst b)) buckets ->
  draftProviders rt order address rates' buckets ids w
  = draftProviders rt order address rates buckets ids w.
Proof.
  induction buckets as [|[name its] rest IH]; intros ids w Hall; [reflexivity|].
  apply Forall_cons in Hall as [Hb Hall]. cbn [fst] in Hb. cbn [draftProviders].
  etransitivity; [|apply bind_ext; intros ids1 w1; now apply IH].
  unfold bind. now rewrite (draftProvider_rates _ _ _ _ _ _ _ _ _ Hb).
Qed.

(** X19. The selected rates are only checked for presence.
    [createCheckout] asks of [selectedRates] nothing but whether each
    bucket's provider has a rate: two checkouts that differ only in which
    rate is selected for the providers of the cart return the same result
    and leave the same world.  The rate chosen reaches neither the draft
    orders, nor the payment session, nor the stored order. *)
Theorem selected_rate_value_is_ignored rt params rates' w :
  Forall (fun b => same_selection (cp_selectedRates params) rates' (fst b))
         (bucketsOf w (cp_items params)) ->
  createCheckout rt (withRates params rates') w = createCheckout rt params w.
Proof.
  intros Hall. unfold createCheckout, bucketsOf in *. cbn [withRates cp_items cp_userId
    cp_address cp_selectedRates cp_shippingCost cp_successUrl cp_cancelUrl].
  destruct (groupItems_cases (cp_items params) [] 0%Q w) as [([groups sub] & Hg)|(m & Hg)].
  - rewrite Hg in Hall. cbn [fst] in Hall. rewrite !(bind_Ok _ _ _ _ _ Hg). cbn [fst snd].
    apply bind_ext. intros order w1. unfold bind at 1 3.
    now rewrite (draftProviders_rates _ _ _ _ _ _ _ _ Hall).
  - now rewrite !(bind_Err _ _ _ _ _ Hg).
Qed.

Lemma selected_rate_value_is_ignored_witness :
  createCheckout rtPrintful
    (withRates checkoutOverpriced {[ "manual" := "express"; "printful" := "r2" ]}) shop
  = createCheckout rtPrintful checkoutOverpriced shop.
Proof.
  apply selected_rate_value_is_ignored.
  repeat constructor; cbn; eauto.
Defined.

(** ** Names, as Gelato receives them *)

Lemma split_space_cons s : exists part parts, split_space s = part :: parts.
Proof.
  induction s as [|c s (part & parts & IH)]; cbn [split_space]; [eauto|].
  destruct (Ascii.eqb c space); [eauto|]. rewrite IH. eauto.
Qed.

Lemma join_space_cons part p2 parts :
  join_space (part :: p2 :: parts) = part +:+ " " +:+ join_space (p2 :: parts).
Proof. reflexivity. Qed.

Lemma join_split s : join_space (split_space s) = s.
Proof.
  induction s as [|c s IH]; [reflexivity|]. cbn [split_space].
  destruct (split_space_cons s) as (part & parts & Hs). rewrite Hs in *.
  destruct (Ascii.eqb c space) eqn:E.
  - apply Ascii.eqb_eq in E as ->. rewrite join_space_cons, IH. reflexivity.
  - destruct parts as [|p2 ps].
    + cbn [join_space] in *. now rewrite IH.
    + rewrite join_space_cons in *. rewrite <- IH. reflexivity.
Qed.

Lemma split_parts_no_space s : Forall no_space (split_space s).
Proof.
  induction s as [|c s IH]; cbn [split_space]; [repeat constructor|].
  destruct (Ascii.eqb c space) eqn:E; [constructor; [exact I | exact IH]|].
  destruct (split_space s) as [|part parts]; [repeat constructor; exact E|].
  apply Forall_cons in IH as [Hp Hps]. constructor; [split; assumption | exact Hps].
Qed.

Lemma split_no_space a b :
  no_space a -> split_space (a +:+ " " +:+ b) = a :: split_space b.
Proof.
  induction a as [|c a IH]; cbn [no_space]; [reflexivity|].
  intros [Hc Ha].
  change (split_space (String c (a +:+ " " +:+ b)) = String c a :: split_space b).
  cbn [split_space]. now rewrite Hc, (IH Ha).
Qed.

Lemma split_with_space a b :
  exists part p2 parts, split_space (a +:+ " " +:+ b) = part :: p2 :: parts.
Proof.
  induction a as [|c a (part & p2 & parts & IH)].
  - change (EmptyString +:+ " " +:+ b) with (String space b). cbn [split_space].
    rewrite Ascii.eqb_refl. destruct (split_space_cons b) as (p & ps & ->). eauto.
  - change (String c a +:+ " " +:+ b) with (String c (a +:+ " " +:+ b)).
    cbn [split_space]. rewrite IH. destruct (Ascii.eqb c space); eauto.
Qed.

Lemma or_string_head s : or_string (Some s) EmptyString = s.
Proof.
  unfold or_string, or_undefined, truthy.
  destruct (String.eqb s EmptyString) eqn:E; cbn [negb]; [|reflexivity].
  now apply String.eqb_eq in E.
Qed.

(** X20. The names Gelato receives.  [buildRecipient] joins first and
    last name with a space, and Gelato's [createOrder] and
    [quoteOrderDetailed] split the result at the first space.  The first
    name sent to Gelato therefore never contains a space, and what follows
    the first space is sent as the last name, or the first name again when
    nothing follows.  When the customer's first name has no space the two
    names arrive as entered (an empty last name becomes the first name);
    otherwise the first name is cut at its first space and the remainder
    moves into the last name. *)
Theorem gelato_recipient_names address :
  no_space (ga_firstName (gelatoAddress (buildRecipient address))) /\
  (exists rest,
     firstName address +:+ " " +:+ lastName address
       = ga_firstName (gelatoAddress (buildRecipient address)) +:+ " " +:+ rest /\
     ga_lastName (gelatoAddress (buildRecipient address))
       = or_string (Some rest) (ga_firstName (gelatoAddress (buildRecipient address)))) /\
  (no_space (firstName address) ->
   ga_firstName (gelatoAddress (buildRecipient address)) = firstName address /\
   ga_lastName (gelatoAddress (buildRecipient address))
     = or_string (Some (lastName address)) (firstName address)).
Proof.
  cbn [gelatoAddress buildRecipient fa_name ga_firstName ga_lastName].
  unfold recipientNames. cbn [fst snd].
  set (name := firstName address +:+ " " +:+ lastName address).
  split; [|split].
  - destruct (split_space_cons name) as (part & parts & Hs). rewrite Hs. cbn [head].
    rewrite or_string_head. pose proof (split_parts_no_space name) as Hall.
    rewrite Hs in Hall. now apply Forall_cons in Hall as [Hp _].
  - destruct (split_with_space (firstName address) (lastName address))
      as (part & p2 & parts & Hs). fold name in Hs.
    pose proof (join_split name) as Hj. rewrite Hs in *. cbn [head tail].
    rewrite or_string_head. exists (join_space (p2 :: parts)).
    split; [now rewrite <- Hj | reflexivity].
  - intros Hno. unfold name. rewrite (split_no_space _ _ Hno). cbn [head tail].
    rewrite or_string_head, join_split. auto.
Qed.

Lemma gelato_recipient_names_witness :
  ga_firstName (gelatoAddress (buildRecipient sampleAddress)) = "Ada" /\
  ga_lastName (gelatoAddress (buildRecipient sampleAddress)) = "Byron".
Proof.
  apply (proj2 (proj2 (gelato_recipient_names sampleAddress))).
  vm_compute. tauto.
Defined.

Example gelato_names_shifted :
  ga_firstName (gelatoAddress (buildRecipient maryAnn)) = "Mary" /\
  ga_lastName (gelatoAddress (buildRecipient maryAnn)) = "Ann Smith".
Proof. split; reflexivity. Qed.

(** ** Product ids, as Gelato receives them *)

Lemma pretty_N_go_nonempty x : forall s, s <> EmptyString -> pretty_N_go x s <> EmptyString.
Proof.
  induction (N.lt_wf_0 x) as [x _ IH]. intros s Hs.
  destruct (decide (x = 0%N)) as [->|Hx]; [now rewrite pretty_N_go_0|].
  rewrite pretty_N_go_step by lia. apply IH; [|discriminate].
  apply N.div_lt; lia.
Qed.

Lemma pretty_Z_truthy (n : Z) : truthy (pretty n) = true.
Proof.
  unfold truthy. apply negb_true_iff, String.eqb_neq.
  destruct n as [|p|p]; [discriminate| |discriminate].
  change (pretty (Z.pos p)) with (pretty_N_go (N.pos p) EmptyString).
  rewrite pretty_N_go_step by lia. apply pretty_N_go_nonempty. discriminate.
Qed.

Lemma or_string_pretty (n : Z) b : or_string (Some (pretty n)) b = pretty n.
Proof. unfold or_string, or_undefined. now rewrite pretty_Z_truthy. Qed.

(** X21. What Gelato is asked for a bucket, at quote and at order time.
    For the requests built from one bucket of the cart, the quote and the
    order name the same recipient and have one product per cart line, in
    order, with the line's quantity.  A line with a catalog product id is
    identified by that id in both.  A line without one is identified in
    the quote by its external variant id, and in the order by the empty
    string: the order request never carries the external variant id.  The
    order is referenced by the marketplace's order id and always asks for
    the shipment method ['standard']; the quote is sent unless the bucket
    is empty. *)
Theorem gelato_requests_for_bucket returnAddress orderType t orderId address its :
  let order := gelatoOrderData returnAddress (draftRequest orderId address its) orderType in
  let quote := gelatoQuoteRequest t (quoteRequest address its) in
  god_orderReferenceId order = orderId /\
  god_shipmentMethodUid order = "standard" /\
  god_shippingAddress order = gqr_recipient quote /\
  gelatoQuoteCall t (quoteRequest address its)
    = (if (length its =? 0)%nat then None else Some quote) /\
  length (god_items order) = length its /\
  length (gqr_products quote) = length its /\
  forall i pi,
    its !! i = Some pi ->
    exists item product,
      god_items order !! i = Some item /\
      gqr_products quote !! i = Some product /\
      gi_quantity item = quantity (pi_item pi) /\
      gq_quantity product = quantity (pi_item pi) /\
      match foi_productId (toFulfillmentItem pi) with
      | Some n => gi_productUid item = pretty n /\ gq_productUid product = pretty n
      | None =>
          gi_productUid item = EmptyString /\
          gq_productUid product
            = or_string (foi_externalVariantId (toFulfillmentItem pi)) EmptyString
      end.
Proof.
  cbn zeta. unfold gelatoQuoteCall, gelatoOrderData, gelatoQuoteRequest, draftRequest,
    quoteRequest.
  cbn [god_orderReferenceId god_shipmentMethodUid god_shippingAddress god_items
       gqr_recipient gqr_products foin_externalId foin_recipient foin_items
       sqi_recipient sqi_items].
  unfold mapToFulfillmentItems. rewrite !length_imap, !length_map.
  repeat (split; [reflexivity|]).
  intros i pi Hi. rewrite !list_lookup_imap.
  change (map toFulfillmentItem its) with (toFulfillmentItem <$> its).
  rewrite !list_lookup_fmap, Hi. cbn [fmap option_fmap option_map].
  eexists _, _. split; [reflexivity|]. split; [reflexivity|].
  cbn [gi_quantity gq_quantity gi_productUid gq_productUid].
  split; [reflexivity|]. split; [reflexivity|].
  destruct (foi_productId (toFulfillmentItem pi)) as [n|];
    cbn [fmap option_fmap option_map]; [now rewrite !or_string_pretty | auto].
Qed.

Example gelato_order_without_product_uid :
  map gq_productUid
      (gqr_products (gelatoQuoteRequest 1700000000000 (quoteRequest sampleAddress [posterLine])))
    = ["flat_a3_170-gsm"] /\
  map gi_productUid
      (god_items (gelatoOrderData None (draftRequest "order-0" sampleAddress [posterLine])
                                  gelato_draft))
    = [EmptyString].
Proof. split; reflexivity. Qed.

(** ** Webhook signatures *)

(** X22. Which webhook signatures Gelato's service accepts.  With a
    digest of 64 hexadecimal digits, [verifyWebhookSignature] accepts a
    signature exactly when a webhook secret is configured, the signature
    is not empty, and either the signature is the HMAC of the body under
    the secret, or the signature is not 64 characters long and equals the
    secret itself.  So when the secret is not 64 characters long, the
    secret sent as signature is accepted for every body. *)
Theorem webhook_signature_accepted hmac webhookSecret body signature :
  (forall key text, String.length (hmac key text) = 64%nat) ->
  (verifyWebhookSignature hmac webhookSecret body signature = true <->
   exists secret,
     or_undefined webhookSecret = Some secret /\
     signature <> EmptyString /\
     (signature = hmac secret body \/
      (String.length signature <> 64%nat /\ signature = secret))) /\
  (forall secret,
     or_undefined webhookSecret = Some secret ->
     String.length secret <> 64%nat ->
     verifyWebhookSignature hmac webhookSecret body secret = true).
Proof.
  intros Hlen.
  assert (Hmain : verifyWebhookSignature hmac webhookSecret body signature = true <->
            exists secret,
              or_undefined webhookSecret = Some secret /\
              signature <> EmptyString /\
              (signature = hmac secret body \/
               (String.length signature <> 64%nat /\ signature = secret))).
  { unfold verifyWebhookSignature.
    destruct (or_undefined webhookSecret) as [secret|];
      [|split; [discriminate | intros (s & [=] & _)]].
    unfold truthy. rewrite Bool.negb_involutive, Hlen.
    destruct (String.eqb signature EmptyString) eqn:Hempty.
    - apply String.eqb_eq in Hempty. split; [discriminate|].
      intros (s & _ & Hne & _). contradiction.
    - apply String.eqb_neq in Hempty.
      destruct (String.length signature =? 64)%nat eqn:H64.
      + apply Nat.eqb_eq in H64. rewrite String.eqb_eq. split.
        * intros ->. exists secret. auto.
        * intros (s & [= <-] & _ & [->|[Hn _]]); [reflexivity | contradiction].
      + apply Nat.eqb_neq in H64. rewrite String.eqb_eq. split.
        * intros ->. exists secret. auto.
        * intros (s & [= <-] & _ & [->|[_ ->]]); [|reflexivity].
          now rewrite Hlen in H64. }
  split; [exact Hmain|].
  intros secret Hsecret Hn. unfold verifyWebhookSignature. rewrite Hsecret.
  assert (Ht : truthy secret = true).
  { destruct webhookSecret as [s|]; [|discriminate]. cbn [or_undefined] in Hsecret.
    destruct (truthy s) eqn:E; [|discriminate]. now injection Hsecret as <-. }
  rewrite Ht, Hlen. cbn [negb].
  apply Nat.eqb_neq in Hn. rewrite Hn. apply String.eqb_refl.
Qed.

Lemma webhook_signature_accepted_witness :
  verifyWebhookSignature constantDigest (Some "whsec_test") "any body" "whsec_test" = true.
Proof.
  apply (proj2 (webhook_signature_accepted constantDigest (Some "whsec_test") "any body"
                  "whsec_test" ltac:(reflexivity))
               "whsec_test" eq_refl).
  vm_compute. discriminate.
Defined.

(** ** When a checkout completes *)



(** ** A failed checkout and the sweep *)



